(** * Precision agriculture dashboard: the adaptive Kalman-CUSUM engine

    A shallow embedding of [SoilMonitorDashboard] (the React component of the
    repository): the Kalman filter step, the CUSUM detector, the range
    classifier, the timer callback and the operator actions, followed by the
    properties of the specification that concern them.

    JavaScript numbers are IEEE-754 binary64 values.  The code is embedded once,
    over an interface [JSNumber] of the arithmetic it uses, and the interface has
    two instances: [binary64] (Rocq's primitive floats, the arithmetic the
    program runs on) and [exact] (canonical rationals, the arithmetic without
    rounding in which the algebraic laws of the filter are stated). *)

From Stdlib Require Import String List Bool Arith ZArith Lia.
From Stdlib Require Import QArith Qcanon Qround Lqa.
From Stdlib Require Import SpecFloat.
From Stdlib Require PrimFloat Uint63 FloatOps FloatAxioms.
Import ListNotations.

Set Implicit Arguments.
Set Warnings "-inexact-float".
Close Scope Qc_scope.
Close Scope Q_scope.

(** ** JavaScript numbers *)

Declare Scope js_scope.
Delimit Scope js_scope with js.

(** The operations on numbers that the component uses.  [lit] reads a decimal
    literal of the source text; [num_lt a b] is [a < b] and [num_le a b] is
    [a <= b], so that [a > b] is [num_lt b a] and [a >= b] is [num_le b a]. *)
Class JSNumber (num : Type) : Type := {
  lit : Q -> num;
  num_add : num -> num -> num;
  num_sub : num -> num -> num;
  num_mul : num -> num -> num;
  num_div : num -> num -> num;
  num_neg : num -> num;
  num_lt : num -> num -> bool;
  num_le : num -> num -> bool;
  Math_max : num -> num -> num;
  Math_min : num -> num -> num;
  Math_round : num -> num
}.

Arguments lit {num _} _%_Q.

Notation "x + y" := (num_add x y) : js_scope.
Notation "x - y" := (num_sub x y) : js_scope.
Notation "x * y" := (num_mul x y) : js_scope.
Notation "x / y" := (num_div x y) : js_scope.
Notation "- x" := (num_neg x) : js_scope.
Notation "x <? y" := (num_lt x y) (at level 70, no associativity) : js_scope.
Notation "x <=? y" := (num_le x y) (at level 70, no associativity) : js_scope.
Notation "x >? y" := (num_lt y x)
  (at level 70, no associativity, only parsing) : js_scope.
Notation "x >=? y" := (num_le y x)
  (at level 70, no associativity, only parsing) : js_scope.

(** *** binary64: the numbers of the JavaScript engine *)

Module Binary64.
Import PrimFloat.

Definition of_Z (z : Z) : float :=
  match z with
  | Z0 => zero
  | Zpos p => of_uint63 (Uint63.of_pos p)
  | Zneg p => opp (of_uint63 (Uint63.of_pos p))
  end.

(** A decimal literal [n / 10^k] denotes the double nearest to it; numerator
    and denominator of the literals of this program are exact doubles, so the
    correctly rounded quotient is that double. *)
Definition of_literal (q : Q) : float :=
  div (of_Z (Qnum q)) (of_Z (Zpos (Qden q))).

(** [Math.max] and [Math.min] of two arguments: NaN if either is NaN, and
    [+0] counts as larger than [-0]. *)
Definition max (a b : float) : float :=
  if is_nan a || is_nan b then nan
  else if ltb a b then b
  else if ltb b a then a
  else if get_sign a then b else a.

Definition min (a b : float) : float :=
  if is_nan a || is_nan b then nan
  else if ltb a b then a
  else if ltb b a then b
  else if get_sign a then a else b.

Definition two52 : float := Eval compute in of_Z (2 ^ 52).

(** [Math.round]: the nearest integer, ties towards [+infinity]; NaN, the
    infinities and the doubles from [2^52] on (all integers) are returned as
    they are, and a negative argument that rounds to zero gives [-0]. *)
Definition round (x : float) : float :=
  if is_nan x then x
  else if leb two52 (abs x) then x
  else
    let a := abs x in
    let r := sub (add a two52) two52 in
    let fl := if ltb a r then sub r one else r in
    if get_sign x
    then opp (if ltb (of_literal 0.5) (sub a fl) then add fl one else fl)
    else if leb (of_literal 0.5) (sub a fl) then add fl one else fl.

End Binary64.

#[export] Instance binary64 : JSNumber PrimFloat.float := {
  lit := Binary64.of_literal;
  num_add := PrimFloat.add;
  num_sub := PrimFloat.sub;
  num_mul := PrimFloat.mul;
  num_div := PrimFloat.div;
  num_neg := PrimFloat.opp;
  num_lt := PrimFloat.ltb;
  num_le := PrimFloat.leb;
  Math_max := Binary64.max;
  Math_min := Binary64.min;
  Math_round := Binary64.round
}.

(** *** exact: the same operations without rounding

    An idealisation, not the arithmetic of the program: rational numbers, on
    which no operation rounds or overflows, and which have neither [NaN] nor
    infinities nor a negative zero.  A theorem over [exact] is a theorem about
    the algorithm in that idealisation.  The statements below are kept to what
    rounding is not expected to falsify: bounds with the ends of the intervals
    included, and the states that the component reaches while [Math.random()]
    draws from 0 to 1, rather than arbitrary states.  What holds of rationals
    only (the exact value of a sum, a strict bound that rounding closes, a step
    from a state whose covariance overflows) is not claimed of the program;
    where binary64 differs, a concrete run in [binary64] shows it. *)

Module Exact.

Definition ltb (a b : Qc) : bool := negb (Qle_bool b a).
Definition leb (a b : Qc) : bool := Qle_bool a b.
Definition max (a b : Qc) : Qc := if ltb a b then b else a.
Definition min (a b : Qc) : Qc := if ltb a b then a else b.
Definition round (x : Qc) : Qc := Q2Qc (inject_Z (Qfloor (this x + 0.5)%Q)).

End Exact.

#[export] Instance exact : JSNumber Qc := {
  lit := Q2Qc;
  num_add := Qcplus;
  num_sub := Qcminus;
  num_mul := Qcmult;
  num_div := Qcdiv;
  num_neg := Qcopp;
  num_lt := Exact.ltb;
  num_le := Exact.leb;
  Math_max := Exact.max;
  Math_min := Exact.min;
  Math_round := Exact.round
}.

(** ** JavaScript values other than numbers *)

(** A call either returns or throws. *)
Inductive Completion (A : Type) : Type :=
| Return (a : A)
| Throw (error : string).
Arguments Return {A} a.
Arguments Throw {A} error.

(** [Array.prototype.slice(start, end)]: a negative index counts from the
    end, both indices are clamped to the array, [end] defaults to the length. *)
Definition relative_index (len k : Z) : Z :=
  if (k <? 0)%Z then Z.max (len + k) 0 else Z.min k len.

Definition slice {A : Type} (start : Z) (end_ : option Z) (l : list A) : list A :=
  let len := Z.of_nat (length l) in
  let k := relative_index len start in
  let final := match end_ with None => len | Some e => relative_index len e end in
  firstn (Z.to_nat (final - k)) (skipn (Z.to_nat k) l).

(** The last [n] elements of a list. *)
Definition lastn {A : Type} (n : nat) (l : list A) : list A :=
  skipn (length l - n) l.

(** ** The component *)

Section Component.
Context {num : Type} {N : JSNumber num}.
Local Open Scope js_scope.

(** *** Kalman filter *)

Record KalmanState : Type := {
  estimate : num;
  errorCovariance : num;
  processNoise : num;
  measurementNoise : num;
  innovation : num
}.

(** [kalmanFilter(measurement, state)]. *)
Definition kalmanFilter (measurement : num) (state : KalmanState) : KalmanState :=
  (* Prediction Step *)
  let predictedEstimate := state.(estimate) in
  let predictedErrorCov := state.(errorCovariance) + state.(processNoise) in
  (* Innovation calculation *)
  let innovation_ := measurement - predictedEstimate in
  let innovationCov := predictedErrorCov + state.(measurementNoise) in
  (* Adaptive Process Noise Adjustment *)
  let lambda := (innovation_ * innovation_) / innovationCov in
  let chiSquareThreshold := lit 3.84 in
  let adaptiveProcessNoise :=
    if lambda >? chiSquareThreshold
    then state.(processNoise) * lit 2.5
    else lit 0.01 in
  (* Kalman Gain *)
  let kalmanGain := predictedErrorCov / innovationCov in
  (* Update Step *)
  let newEstimate := predictedEstimate + kalmanGain * innovation_ in
  let newErrorCov := (lit 1 - kalmanGain) * predictedErrorCov in
  {| estimate := newEstimate;
     errorCovariance := newErrorCov;
     processNoise := adaptiveProcessNoise;
     measurementNoise := state.(measurementNoise);
     innovation := innovation_ |}.

(** The local constants of [kalmanFilter], by the names the source gives them
    ([kalmanFilter_locals] below ties them to the function). *)
Definition predictedErrorCov (state : KalmanState) : num :=
  state.(errorCovariance) + state.(processNoise).

Definition innovationCov (state : KalmanState) : num :=
  predictedErrorCov state + state.(measurementNoise).

Definition lambda (measurement : num) (state : KalmanState) : num :=
  ((measurement - state.(estimate)) * (measurement - state.(estimate)))
  / innovationCov state.

Definition kalmanGain (state : KalmanState) : num :=
  predictedErrorCov state / innovationCov state.

(** *** CUSUM detector *)

Record CumSum : Type := {
  positive : num;
  negative : num
}.

Record AnomalyResult : Type := {
  cumsum_ : CumSum;
  isAnomaly : bool;
  type_ : string
}.

(** [detectAnomaly(innovation, currentCumsum)]. *)
Definition detectAnomaly (innovation_ : num) (currentCumsum : CumSum) : AnomalyResult :=
  let delta := lit 0.5 in
  let threshold := lit 5 in
  let sPlus := Math_max (lit 0) (currentCumsum.(positive) + innovation_ - delta) in
  let sMinus := Math_min (lit 0) (currentCumsum.(negative) + innovation_ + delta) in
  let isAnomaly_ := (sPlus >? threshold) || (sMinus <? - threshold) in
  {| cumsum_ := {| positive := sPlus; negative := sMinus |};
     isAnomaly := isAnomaly_;
     type_ := if sPlus >? threshold then "high"
              else if sMinus <? - threshold then "low" else "normal" |}.

(** *** Range classifier *)

Record Range : Type := {
  optimal : num * num;
  warning : num * num
}.

(** The object literal [ranges]: its own properties, in source order. *)
Definition ranges : list (string * Range) :=
  [ ("moisture", {| optimal := (lit 40, lit 50); warning := (lit 35, lit 55) |});
    ("ph", {| optimal := (lit 6.5, lit 7.0); warning := (lit 6.0, lit 7.5) |});
    ("ec", {| optimal := (lit 1.0, lit 1.5); warning := (lit 0.8, lit 1.8) |});
    ("nitrogen", {| optimal := (lit 30, lit 40); warning := (lit 25, lit 45) |});
    ("phosphorus", {| optimal := (lit 15, lit 25); warning := (lit 10, lit 30) |});
    ("potassium", {| optimal := (lit 20, lit 30); warning := (lit 15, lit 35) |}) ]%string.

(** An object literal inherits from [Object.prototype]; these are the names
    that every such object answers to besides its own. *)
Definition Object_prototype : list string :=
  [ "constructor"; "__defineGetter__"; "__defineSetter__"; "hasOwnProperty";
    "__lookupGetter__"; "__lookupSetter__"; "isPrototypeOf";
    "propertyIsEnumerable"; "toString"; "valueOf"; "__proto__";
    "toLocaleString" ]%string.

(** What [ranges[parameter]] evaluates to: one of the six records, a member
    of [Object.prototype] (a function, or the prototype itself for
    [__proto__]: truthy, and without an [optimal] property), or [undefined]. *)
Inductive PropertyValue : Type :=
| OwnRange (range : Range)
| Inherited (name : string)
| Undefined.

Definition get_property (obj : list (string * Range)) (key : string) : PropertyValue :=
  match find (fun kv => String.eqb (fst kv) key) obj with
  | Some kv => OwnRange (snd kv)
  | None =>
      if existsb (String.eqb key) Object_prototype then Inherited key else Undefined
  end.

(** [getParameterStatus(value, parameter)].  For an inherited member
    [range.optimal] is [undefined], and reading [range.optimal[0]] throws a
    [TypeError]. *)
Definition getParameterStatus (value : num) (parameter : string) : Completion string :=
  match get_property ranges parameter with
  | Undefined => Return "unknown"%string
  | Inherited _ => Throw "TypeError"%string
  | OwnRange range =>
      if (value >=? fst range.(optimal)) && (value <=? snd range.(optimal))
      then Return "optimal"%string
      else if (value >=? fst range.(warning)) && (value <=? snd range.(warning))
      then Return "warning"%string
      else Return "critical"%string
  end.

(** *** Component state *)

Record SensorReading : Type := {
  time : string;
  raw : num;
  filtered : num;
  reading_ph : num;
  reading_ec : num;
  reading_nitrogen : num
}.

Record Values : Type := {
  moisture : num;
  ph : num;
  ec : num;
  nitrogen : num;
  potassium : num;
  phosphorus : num
}.

Record Alert : Type := {
  id : num;
  type : string;
  message : string;
  timestamp : string;
  parameter : string;
  value : num
}.

Record SystemStats : Type := {
  totalReadings : num;
  anomaliesDetected : num;
  dataAccuracy : num
}.

(** The seven [useState] cells of the component. *)
Record Dashboard : Type := {
  sensorData : list SensorReading;
  currentValues : Values;
  alerts : list Alert;
  isRunning : bool;
  cumsum : CumSum;
  systemStats : SystemStats;
  kalmanState : KalmanState
}.

Definition initialKalmanState : KalmanState :=
  {| estimate := lit 45;
     errorCovariance := lit 1;
     processNoise := lit 0.01;
     measurementNoise := lit 0.5;
     innovation := lit 0 |}.

Definition initialCumsum : CumSum :=
  {| positive := lit 0; negative := lit 0 |}.

Definition initialStats : SystemStats :=
  {| totalReadings := lit 0; anomaliesDetected := lit 0; dataAccuracy := lit 0 |}.

Definition initialDashboard : Dashboard :=
  {| sensorData := [];
     currentValues :=
       {| moisture := lit 45; ph := lit 6.8; ec := lit 1.2;
          nitrogen := lit 35; potassium := lit 25; phosphorus := lit 18 |};
     alerts := [];
     isRunning := false;
     cumsum := initialCumsum;
     systemStats := initialStats;
     kalmanState := initialKalmanState |}.

(** The state setters; each takes an updater [prev => next], a plain value [v]
    being the updater [fun _ => v]. *)
Definition setSensorData (f : list SensorReading -> list SensorReading) (st : Dashboard) : Dashboard :=
  {| sensorData := f st.(sensorData); currentValues := st.(currentValues);
     alerts := st.(alerts); isRunning := st.(isRunning); cumsum := st.(cumsum);
     systemStats := st.(systemStats); kalmanState := st.(kalmanState) |}.

Definition setCurrentValues (f : Values -> Values) (st : Dashboard) : Dashboard :=
  {| sensorData := st.(sensorData); currentValues := f st.(currentValues);
     alerts := st.(alerts); isRunning := st.(isRunning); cumsum := st.(cumsum);
     systemStats := st.(systemStats); kalmanState := st.(kalmanState) |}.

Definition setAlerts (f : list Alert -> list Alert) (st : Dashboard) : Dashboard :=
  {| sensorData := st.(sensorData); currentValues := st.(currentValues);
     alerts := f st.(alerts); isRunning := st.(isRunning); cumsum := st.(cumsum);
     systemStats := st.(systemStats); kalmanState := st.(kalmanState) |}.

Definition setIsRunning (f : bool -> bool) (st : Dashboard) : Dashboard :=
  {| sensorData := st.(sensorData); currentValues := st.(currentValues);
     alerts := st.(alerts); isRunning := f st.(isRunning); cumsum := st.(cumsum);
     systemStats := st.(systemStats); kalmanState := st.(kalmanState) |}.

Definition setCumsum (f : CumSum -> CumSum) (st : Dashboard) : Dashboard :=
  {| sensorData := st.(sensorData); currentValues := st.(currentValues);
     alerts := st.(alerts); isRunning := st.(isRunning); cumsum := f st.(cumsum);
     systemStats := st.(systemStats); kalmanState := st.(kalmanState) |}.

Definition setSystemStats (f : SystemStats -> SystemStats) (st : Dashboard) : Dashboard :=
  {| sensorData := st.(sensorData); currentValues := st.(currentValues);
     alerts := st.(alerts); isRunning := st.(isRunning); cumsum := st.(cumsum);
     systemStats := f st.(systemStats); kalmanState := st.(kalmanState) |}.

Definition setKalmanState (f : KalmanState -> KalmanState) (st : Dashboard) : Dashboard :=
  {| sensorData := st.(sensorData); currentValues := st.(currentValues);
     alerts := st.(alerts); isRunning := st.(isRunning); cumsum := st.(cumsum);
     systemStats := st.(systemStats); kalmanState := f st.(kalmanState) |}.

(** *** The sources of nondeterminism *)

(** What one run of the timer callback reads from outside: the clock, as
    [new Date().toLocaleTimeString()] and as [Date.now()], and the successive
    results of [Math.random()]. *)
Record Env : Type := {
  toLocaleTimeString : string;
  Date_now : num;
  random : nat -> num
}.

(** Computations that call [Math.random()]: they read the sequence of draws
    and advance the number of draws made so far. *)
Definition Rand (A : Type) : Type := (nat -> num) -> nat -> A * nat.

Definition ret {A : Type} (a : A) : Rand A := fun _ k => (a, k).

Definition bind {A B : Type} (m : Rand A) (f : A -> Rand B) : Rand B :=
  fun draws k => let (a, k') := m draws k in f a draws k'.

Definition Math_random : Rand num := fun draws k => (draws k, S k).

Notation "x <- m ;; f" := (bind m (fun x => f))
  (at level 61, m at next level, right associativity).

(** [generateSensorReading(baseValue, variance, anomaly)]. *)
Definition generateSensorReading (baseValue variance : num) (anomaly : bool) : Rand num :=
  r <- Math_random ;;
  let noise := (r - lit 0.5) * variance in
  anomalyOffset <-
    (if anomaly
     then r' <- Math_random ;; ret (if r' >? lit 0.5 then lit 20 else - lit 20)
     else ret (lit 0)) ;;
  ret (Math_max (lit 0) (baseValue + noise + anomalyOffset)).

(** *** The monitoring loop *)

(** The constants that the interval callback computes before it queues its
    state updates. *)
Record Sample : Type := {
  rawMoisture : num;
  newKalmanState : KalmanState;
  anomalyResult : AnomalyResult;
  newValues : Values
}.

Definition sample (env : Env) (st : Dashboard) : Sample :=
  fst ((r <- Math_random ;;
        let hasAnomaly := r <? lit 0.04 in
        rawMoisture_ <- generateSensorReading (lit 45) (lit 5) hasAnomaly ;;
        let newKalmanState_ := kalmanFilter rawMoisture_ st.(kalmanState) in
        let anomalyResult_ := detectAnomaly newKalmanState_.(innovation) st.(cumsum) in
        r_ph <- Math_random ;;
        r_ec <- Math_random ;;
        r_nitrogen <- Math_random ;;
        r_phosphorus <- Math_random ;;
        r_potassium <- Math_random ;;
        ret {| rawMoisture := rawMoisture_;
               newKalmanState := newKalmanState_;
               anomalyResult := anomalyResult_;
               newValues :=
                 {| moisture := Math_round (newKalmanState_.(estimate) * lit 10) / lit 10;
                    ph := Math_round ((lit 6.8 + (r_ph - lit 0.5) * lit 0.4) * lit 10) / lit 10;
                    ec := Math_round ((lit 1.2 + (r_ec - lit 0.5) * lit 0.2) * lit 10) / lit 10;
                    nitrogen := Math_round (lit 35 + (r_nitrogen - lit 0.5) * lit 8);
                    phosphorus := Math_round (lit 18 + (r_phosphorus - lit 0.5) * lit 6);
                    potassium := Math_round (lit 25 + (r_potassium - lit 0.5) * lit 6) |} |})
       env.(random) 0%nat).

(** The record appended to the history by one run of the callback. *)
Definition newReading (env : Env) (st : Dashboard) : SensorReading :=
  let s := sample env st in
  {| time := env.(toLocaleTimeString);
     raw := Math_round (s.(rawMoisture) * lit 10) / lit 10;
     filtered := s.(newValues).(moisture);
     reading_ph := s.(newValues).(ph);
     reading_ec := s.(newValues).(ec);
     reading_nitrogen := s.(newValues).(nitrogen) |}.

(** The alert built when the detector fires. *)
Definition alertMsg (env : Env) (st : Dashboard) : Alert :=
  let s := sample env st in
  {| id := env.(Date_now);
     type := if String.eqb s.(anomalyResult).(type_) "high" then "warning" else "critical";
     message := if String.eqb s.(anomalyResult).(type_) "high"
                then "High moisture detected - Check irrigation system"
                else "Low moisture detected - Consider irrigation";
     timestamp := env.(toLocaleTimeString);
     parameter := "Soil Moisture";
     value := s.(newValues).(moisture) |}.

(** One run of the interval callback: the queued updates applied in order. *)
Definition tick (env : Env) (st : Dashboard) : Dashboard :=
  let s := sample env st in
  let st1 := setKalmanState (fun _ => s.(newKalmanState)) st in
  let st2 := setCumsum (fun _ => s.(anomalyResult).(cumsum_)) st1 in
  let st3 := setCurrentValues (fun _ => s.(newValues)) st2 in
  (* Store historical data *)
  let st4 := setSensorData (fun prev => slice (-25) None (prev ++ [newReading env st])) st3 in
  (* Generate alert if anomaly detected *)
  let st5 :=
    if s.(anomalyResult).(isAnomaly)
    then setSystemStats
           (fun prev => {| totalReadings := prev.(totalReadings);
                           anomaliesDetected := prev.(anomaliesDetected) + lit 1;
                           dataAccuracy := prev.(dataAccuracy) |})
           (setAlerts (fun prev => slice 0 (Some 8%Z) (alertMsg env st :: prev)) st4)
    else st4 in
  (* Update system statistics *)
  setSystemStats
    (fun prev => {| totalReadings := prev.(totalReadings) + lit 1;
                    anomaliesDetected := prev.(anomaliesDetected);
                    dataAccuracy := Math_min (lit 100) (prev.(dataAccuracy) + lit 0.1) |})
    st5.

(** *** Operator actions *)

Definition clearAlerts (st : Dashboard) : Dashboard :=
  setAlerts (fun _ => []) st.

Definition resetSystem (st : Dashboard) : Dashboard :=
  setSystemStats
    (fun _ => {| totalReadings := lit 0; anomaliesDetected := lit 0; dataAccuracy := lit 0 |})
    (setCumsum (fun _ => {| positive := lit 0; negative := lit 0 |})
       (setAlerts (fun _ => [])
          (setSensorData (fun _ => []) st))).

(** The start/stop button: [setIsRunning(!isRunning)]. *)
Definition toggleRunning (st : Dashboard) : Dashboard :=
  setIsRunning (fun _ => negb st.(isRunning)) st.

(** *** Runs of the component *)

(** The events of a run.  The interval exists only while [isRunning] holds, so
    a tick is possible in a running state only. *)
Inductive Action : Type :=
| Tick (env : Env)
| ToggleRunning
| ClearAlerts
| ResetSystem.

Definition step (a : Action) (st : Dashboard) : option Dashboard :=
  match a with
  | Tick env => if st.(isRunning) then Some (tick env st) else None
  | ToggleRunning => Some (toggleRunning st)
  | ClearAlerts => Some (clearAlerts st)
  | ResetSystem => Some (resetSystem st)
  end.

Fixpoint run (acts : list Action) (st : Dashboard) : option Dashboard :=
  match acts with
  | [] => Some st
  | a :: acts' =>
      match step a st with
      | Some st' => run acts' st'
      | None => None
      end
  end.

Definition reachable (st : Dashboard) : Prop :=
  exists acts, run acts initialDashboard = Some st.

(** The filter alone, fed a list of measurements, oldest first. *)
Fixpoint kalmanRun (measurements : list num) (state : KalmanState) : KalmanState :=
  match measurements with
  | [] => state
  | m :: rest => kalmanRun rest (kalmanFilter m state)
  end.

(** *** Notions used by the properties *)

(** The process noise after [k] inflations in a row: [0.01 * 2.5 * ... * 2.5]. *)
Fixpoint inflated (k : nat) : num :=
  match k with
  | O => lit 0.01
  | S k' => inflated k' * lit 2.5
  end.

(** The number of steps at the end of a run whose [lambda] exceeded the
    chi-square threshold, [k] being that number before the run. *)
Fixpoint streak (measurements : list num) (state : KalmanState) (k : nat) : nat :=
  match measurements with
  | [] => k
  | m :: rest =>
      streak rest (kalmanFilter m state)
        (if lambda m state >? lit 3.84 then S k else O)
  end.

(** The records that the ticks of a run append to the history, oldest first. *)
Fixpoint readings (acts : list Action) (st : Dashboard) : list SensorReading :=
  match acts with
  | [] => []
  | a :: acts' =>
      match step a st with
      | Some st' =>
          match a with
          | Tick env => newReading env st :: readings acts' st'
          | _ => readings acts' st'
          end
      | None => []
      end
  end.

(** The alerts that the ticks of a run raise, oldest first. *)
Fixpoint raised (acts : list Action) (st : Dashboard) : list Alert :=
  match acts with
  | [] => []
  | a :: acts' =>
      match step a st with
      | Some st' =>
          match a with
          | Tick env =>
              if (sample env st).(anomalyResult).(isAnomaly)
              then alertMsg env st :: raised acts' st'
              else raised acts' st'
          | _ => raised acts' st'
          end
      | None => []
      end
  end.

Definition is_reset (a : Action) : bool :=
  match a with ResetSystem => true | _ => false end.

Definition is_clear (a : Action) : bool :=
  match a with ClearAlerts | ResetSystem => true | _ => false end.

(** An environment whose every [Math.random()] returns [r]. *)
Definition constant_env (time_ : string) (now : num) (r : num) : Env :=
  {| toLocaleTimeString := time_; Date_now := now; random := fun _ => r |}.

(** [x] lies strictly within [tol] of [c]. *)
Definition within (x c tol : num) : bool :=
  (c - tol <? x) && (x <? c + tol).

(** The state of the filter after [k] ticks that all measure [m]. *)
Definition constant_stream (m : num) (k : nat) : KalmanState :=
  kalmanRun (repeat m k) initialKalmanState.

(** The process noise has two levels only: the reading of the invariant that
    the specification gives. *)
Definition two_level_processNoise : Prop :=
  forall measurements : list num,
    let s := kalmanRun measurements initialKalmanState in
    processNoise s = lit 0.01 \/ processNoise s = lit 0.025.

(** The end-to-end scenario of the specification: one step from the initial
    state with measurement 70, and its innovation fed to a fresh detector.
    A value given as [~ c] is taken to lie within one unit of the last digit
    of [c]. *)
Definition end_to_end_scenario : Prop :=
  let s := initialKalmanState in
  let s' := kalmanFilter (lit 70) s in
  let r := detectAnomaly (innovation s') initialCumsum in
  predictedErrorCov s = lit 1.01
  /\ innovation s' = lit 25
  /\ innovationCov s = lit 1.51
  /\ within (lambda (lit 70) s) (lit 413.9) (lit 0.1) = true
  /\ (lambda (lit 70) s >? lit 3.84) = true
  /\ processNoise s' = lit 0.025
  /\ within (kalmanGain s) (lit 0.669) (lit 0.001) = true
  /\ within (estimate s') (lit 61.7) (lit 0.1) = true
  /\ within (errorCovariance s') (lit 0.335) (lit 0.001) = true
  /\ positive (cumsum_ r) = lit 24.5
  /\ (positive (cumsum_ r) >? lit 5) = true
  /\ isAnomaly r = true
  /\ type_ r = "high"%string.

(** A run of 26 ticks after the start button; every [Math.random()] returns
    [0.01], so that every tick injects a low anomaly. *)
Definition dry_spell : list Action :=
  ToggleRunning
    :: repeat (Tick (constant_env "10:00:00" (lit 1700000000000) (lit 0.01))) 26.

(** The state in which a run ends, the initial state if it gets stuck. *)
Definition final (acts : list Action) : Dashboard :=
  match run acts initialDashboard with
  | Some st => st
  | None => initialDashboard
  end.

(** An environment whose [Math.random()] returns the elements of [draws] in
    turn, and [0.5] once they are used up. *)
Definition scripted_env (time_ : string) (now : num) (draws : list num) : Env :=
  {| toLocaleTimeString := time_; Date_now := now;
     random := fun k => nth k draws (lit 0.5) |}.

(** The start button and two ticks with an injected anomaly each, the first
    upwards (measurement 65), the second downwards (measurement 25). *)
Definition surge_then_slump : list Action :=
  [ ToggleRunning;
    Tick (scripted_env "10:00:00" (lit 1700000000000) [lit 0.01; lit 0.5; lit 0.9]);
    Tick (scripted_env "10:00:02" (lit 1700000002000) [lit 0.01; lit 0.5; lit 0.1]) ].

(** The start button followed by one tick in which every [Math.random()]
    returns [0.9]: the measurement is 47. *)
Definition one_tick : list Action :=
  [ToggleRunning; Tick (constant_env "10:00:00" (lit 1700000000000) (lit 0.9))].

(** *** The parameter cards of the rendering *)

(** The array that the rendering maps over: the six keys with the current
    value of each, in source order. *)
Definition parameterCards (st : Dashboard) : list (string * num) :=
  [ ("moisture", st.(currentValues).(moisture));
    ("ph", st.(currentValues).(ph));
    ("ec", st.(currentValues).(ec));
    ("nitrogen", st.(currentValues).(nitrogen));
    ("phosphorus", st.(currentValues).(phosphorus));
    ("potassium", st.(currentValues).(potassium)) ]%string.

(** [const status = getParameterStatus(param.value, param.key)], card by card. *)
Definition cardStatuses (st : Dashboard) : list (Completion string) :=
  map (fun param => getParameterStatus (snd param) (fst param)) (parameterCards st).

(** *** Further notions used by the properties *)

(** The detector state reflected about zero. *)
Definition mirror (c : CumSum) : CumSum :=
  {| positive := - c.(negative); negative := - c.(positive) |}.

(** The direction reflected: high and low exchanged. *)
Definition mirror_type (t : string) : string :=
  if String.eqb t "high" then "low"
  else if String.eqb t "low" then "high" else t.

(** An alert as the callback builds them: about soil moisture, and either a
    warning with the high-moisture message or critical with the low-moisture
    one. *)
Definition alert_shape (a : Alert) : Prop :=
  a.(parameter) = "Soil Moisture"%string
  /\ ((a.(type) = "warning"%string
       /\ a.(message) = "High moisture detected - Check irrigation system"%string)
      \/ (a.(type) = "critical"%string
          /\ a.(message) = "Low moisture detected - Consider irrigation"%string)).

(** What the properties in exact arithmetic say of one tick, decided with the
    comparisons of the program: the gain of the step lies strictly between 0
    and 1; the new estimate lies between the old one and the measurement; the
    new error covariance is below the measurement noise and below the predicted
    error covariance; the sums of the detector are clamped; the measurement
    lies in the band of the generator, the ends included; the accuracy figure
    does not decrease and is at most 100. *)
Definition tick_within_bounds (env : Env) (st : Dashboard) : bool :=
  let s := st.(kalmanState) in
  let hasAnomaly := env.(random) 0%nat <? lit 0.04 in
  let m := (sample env st).(rawMoisture) in
  let st' := tick env st in
  let s' := st'.(kalmanState) in
  (kalmanGain s >? lit 0) && (kalmanGain s <? lit 1)
  && (if s.(estimate) <=? m
      then (s.(estimate) <=? s'.(estimate)) && (s'.(estimate) <=? m)
      else (m <=? s'.(estimate)) && (s'.(estimate) <=? s.(estimate)))
  && (s'.(errorCovariance) <? s.(measurementNoise))
  && (s'.(errorCovariance) <? predictedErrorCov s)
  && (st'.(cumsum).(positive) >=? lit 0) && (st'.(cumsum).(negative) <=? lit 0)
  && (if hasAnomaly
      then ((lit 22.5 <=? m) && (m <=? lit 27.5))
           || ((lit 62.5 <=? m) && (m <=? lit 67.5))
      else (lit 42.5 <=? m) && (m <=? lit 47.5))
  && (st.(systemStats).(dataAccuracy) <=? st'.(systemStats).(dataAccuracy))
  && (st'.(systemStats).(dataAccuracy) <=? lit 100).

(** ... and of every tick of a run of the timer alone. *)
Fixpoint ticks_within_bounds (envs : list Env) (st : Dashboard) : bool :=
  match envs with
  | [] => true
  | env :: rest => tick_within_bounds env st && ticks_within_bounds rest (tick env st)
  end.

(** One update of the accuracy figure, [Math.min(100, prev.dataAccuracy + 0.1)],
    and [n] of them in a row. *)
Definition accuracy_step (d : num) : num := Math_min (lit 100) (d + lit 0.1).

Fixpoint accuracy_after (n : nat) (d : num) : num :=
  match n with
  | O => d
  | S k => accuracy_after k (accuracy_step d)
  end.

(** The safety of a Kalman step as the specification states it, with the
    comparisons of the program: a step from any state with
    [errorCovariance >= 0], [processNoise > 0] and [measurementNoise > 0]
    has [innovationCov > 0] and returns [errorCovariance >= 0]. *)
Definition step_safe_as_stated : Prop :=
  forall (m : num) (s : KalmanState),
    (s.(errorCovariance) >=? lit 0) = true ->
    (s.(processNoise) >? lit 0) = true ->
    (s.(measurementNoise) >? lit 0) = true ->
    (innovationCov s >? lit 0) = true
    /\ ((kalmanFilter m s).(errorCovariance) >=? lit 0) = true.

(** ... and its consequence: [errorCovariance >= 0] in every state that the
    filter reaches from the initial one, whatever it is fed. *)
Definition reachable_safe_as_stated : Prop :=
  forall measurements : list num,
    ((kalmanRun measurements initialKalmanState).(errorCovariance) >=? lit 0) = true.

End Component.

Arguments KalmanState num : clear implicits.
Arguments CumSum num : clear implicits.
Arguments Dashboard num : clear implicits.
Arguments Env num : clear implicits.
Arguments Action num : clear implicits.
Arguments Alert num : clear implicits.
Arguments SensorReading num : clear implicits.
Arguments Sample num : clear implicits.
Arguments Range num : clear implicits.
Arguments Values num : clear implicits.
Arguments SystemStats num : clear implicits.
Arguments AnomalyResult num : clear implicits.
Arguments PropertyValue num : clear implicits.

(** ** Well-formed filter states

    The three conditions on a filter state under which a step is well
    defined, in exact arithmetic. *)
Definition well_formed (s : KalmanState Qc) : Prop :=
  (0 <= errorCovariance s /\ 0 < processNoise s /\ 0 < measurementNoise s)%Qc.

(** ** The contract of [Math.random()], in exact arithmetic

    Every draw lies in the interval from 0, included, to 1, excluded. *)
Definition unit_draws (draws : nat -> Qc) : Prop :=
  forall k, (0 <= draws k /\ draws k < 1)%Qc.

Definition unit_action (a : Action Qc) : Prop :=
  match a with
  | Tick env => unit_draws (random env)
  | _ => True
  end.

(** The five channels beside moisture all classify as optimal. *)
Definition auxiliary_optimal (v : Values Qc) : Prop :=
  getParameterStatus (ph v) "ph" = Return "optimal"%string
  /\ getParameterStatus (ec v) "ec" = Return "optimal"%string
  /\ getParameterStatus (nitrogen v) "nitrogen" = Return "optimal"%string
  /\ getParameterStatus (phosphorus v) "phosphorus" = Return "optimal"%string
  /\ getParameterStatus (potassium v) "potassium" = Return "optimal"%string.

(** A natural number as an exact number. *)
Definition of_nat (n : nat) : Qc := Q2Qc (inject_Z (Z.of_nat n)).

(** ** Overflow in binary64 *)

Module Overflow.
Import PrimFloat.
Local Open Scope float_scope.

(** A filter state that meets the three conditions and whose predicted error
    covariance, [1e308 + 1e308], overflows. *)
Definition overflowing_state : KalmanState float :=
  {| estimate := 45; errorCovariance := 1e308; processNoise := 1e308;
     measurementNoise := 0.5; innovation := 0 |}.

(** [n] measurements that swing between [1e200] and [-1e200]. *)
Fixpoint swinging (n : nat) : list float :=
  match n with
  | O => []
  | S k => (if Nat.even k then 1e200 else - 1e200) :: swinging k
  end.

(** A filter state that meets the three conditions and whose measurement
    noise is lost in the rounding of [innovationCov]: [1e17 + 0.01 + 0.5] is
    [1e17]. *)
Definition absorbing_state : KalmanState float :=
  {| estimate := 45; errorCovariance := 1e17; processNoise := 0.01;
     measurementNoise := 0.5; innovation := 0 |}.

(** The predicted error covariance is below [Infinity] at every step of the
    filter on [measurements] from [state]. *)
Fixpoint no_overflow (measurements : list float) (state : KalmanState float) : bool :=
  match measurements with
  | [] => true
  | m :: rest =>
      (predictedErrorCov (N:=binary64) state <? infinity)
      && no_overflow rest (kalmanFilter m state)
  end.

End Overflow.

(** ** Sequences of draws in binary64 *)

Module Draws.
Import PrimFloat.
Local Open Scope float_scope.

(** The largest double below 1, the largest value of [Math.random()]. *)
Definition below_one : float := 0x1.fffffffffffffp-1.

(** Draw [k] of tick [i] of a scattered sequence: the low 32 bits of a
    multiple of [2654435761], as a fraction of [2^32]. *)
Definition scattered (i k : nat) : float :=
  of_uint63
    (Uint63.of_Z (((8 * Z.of_nat i + Z.of_nat k + 1) * 2654435761) mod 2 ^ 32))
  / 0x1p32.

Definition scattered_env (i : nat) : Env float :=
  {| toLocaleTimeString := "10:00:00"; Date_now := 1700000000000;
     random := scattered i |}.

(** Ticks whose draws sit at the ends of the interval: no anomaly with the
    least and the largest noise, an anomaly in each direction with the least and
    the largest noise, and all draws least or all largest. *)
Definition edge_envs : list (Env float) :=
  map (scripted_env "10:00:00" 1700000000000)
    [ [0.5; 0; 0.5]; [0.5; below_one; 0.5];
      [0; 0; 0]; [0; below_one; below_one]; [0; below_one; 0]; [0; 0; below_one];
      [0.5; 0.5; 0.5]; [0.039; 0.3; 0.51];
      repeat below_one 8; repeat 0 8 ].

(** The edge ticks, [n] scattered ticks, and the edge ticks again. *)
Definition envs (n : nat) : list (Env float) :=
  edge_envs ++ map scattered_env (seq 0 n) ++ edge_envs.

(** The start button and [n] ticks that all draw [0.5]. *)
Definition even_ticks (n : nat) : list (Action float) :=
  ToggleRunning :: repeat (Tick (constant_env "10:00:00" 1700000000000 0.5)) n.

End Draws.

(** ** The specification of the binary64 operations

    [FloatAxioms] specifies each operation of the doubles on [spec_float]: a
    zero, an infinity, NaN, or a sign [s], a mantissa [m] and an exponent [e]
    that stand for [(-1)^s * m * 2^e].  Magnitudes below are counted in units
    of [2^-1074], the smallest positive double, so that they are integers. *)

Abbreviation prec := FloatOps.prec.
Abbreviation emax := FloatOps.emax.

(** [x] is a zero, an infinity or a finite number of sign [s]. *)
Definition signed (s : bool) (x : spec_float) : Prop :=
  x = S754_zero s \/ x = S754_infinity s \/ exists p e, x = S754_finite s p e.

(** The doubles 1 and 0.5. *)
Definition SF_one : spec_float := S754_finite false 4503599627370496 (-52).

Definition SF_half : spec_float := S754_finite false 4503599627370496 (-53).

(** [x] is a zero or a finite number of magnitude at most [b]. *)
Definition mag_le (x : spec_float) (b : Z) : Prop :=
  (exists s, x = S754_zero s)
  \/ exists s m e, x = S754_finite s m e /\ (Z.pos m * 2 ^ (e + 1074) <= b)%Z.

(** The double [x] is finite and positive, and lies between [lo / 2] and
    [hi / 2]. *)
Definition between_halves (x : PrimFloat.float) (lo hi : Z) : Prop :=
  exists p e, FloatOps.Prim2SF x = S754_finite false p e
              /\ (lo * 2 ^ 1073 <= Z.pos p * 2 ^ (e + 1074) <= hi * 2 ^ 1073)%Z.

(** ** The literals of the source denote the same doubles in [binary64] *)

Module LiteralCheck.
Import PrimFloat.
Local Open Scope float_scope.

Definition source_literals : list (float * float) :=
  [ (lit 45, 45); (lit 1, 1); (lit 0.01, 0.01); (lit 0.5, 0.5); (lit 0, 0);
    (lit 3.84, 3.84); (lit 2.5, 2.5); (lit 5, 5); (lit 20, 20);
    (lit 0.04, 0.04); (lit 10, 10); (lit 6.8, 6.8); (lit 0.4, 0.4);
    (lit 1.2, 1.2); (lit 0.2, 0.2); (lit 35, 35); (lit 8, 8); (lit 18, 18);
    (lit 6, 6); (lit 25, 25); (lit 100, 100); (lit 0.1, 0.1);
    (lit 40, 40); (lit 50, 50); (lit 55, 55); (lit 6.5, 6.5); (lit 7.0, 7.0);
    (lit 6.0, 6.0); (lit 7.5, 7.5); (lit 1.0, 1.0); (lit 1.5, 1.5);
    (lit 0.8, 0.8); (lit 1.8, 1.8); (lit 30, 30); (lit 15, 15); (lit 70, 70);
    (lit 0.025, 0.025); (lit 1.01, 1.01); (lit 1.51, 1.51); (lit 24.5, 24.5);
    (lit 413.9, 413.9); (lit 0.669, 0.669); (lit 61.7, 61.7); (lit 0.335, 0.335);
    (lit 0.001, 0.001); (lit 0.0625, 0.0625); (lit 0.05, 0.05); (lit 0.9, 0.9);
    (lit 65, 65); (lit 2, 2); (lit 1700000000000, 1700000000000) ].

End LiteralCheck.

(** * Properties *)

Unset Implicit Arguments.

(** ** Arrays: [slice], the sliding window and the capped stack *)

Lemma slice_last_n {A : Type} (n : nat) (l : list A) :
  slice (- Z.of_nat (S n)) None l = lastn (S n) l.
Proof.
  unfold slice, lastn, relative_index.
  replace (- Z.of_nat (S n) <? 0)%Z with true by (symmetry; apply Z.ltb_lt; lia).
  replace (Z.to_nat (Z.max (Z.of_nat (length l) + - Z.of_nat (S n)) 0))
    with (length l - S n) by lia.
  apply firstn_all2. rewrite length_skipn. lia.
Qed.

Lemma slice_first_n {A : Type} (n : nat) (l : list A) :
  slice 0 (Some (Z.of_nat n)) l = firstn n l.
Proof.
  unfold slice, relative_index.
  replace (0 <? 0)%Z with false by reflexivity.
  replace (Z.of_nat n <? 0)%Z with false by (symmetry; apply Z.ltb_ge; lia).
  rewrite (Z.min_l 0) by lia. cbn [skipn Z.to_nat]. rewrite Z.sub_0_r.
  destruct (Nat.le_gt_cases n (length l)) as [Hle | Hgt].
  - rewrite Z.min_l by lia. now rewrite Nat2Z.id.
  - rewrite Z.min_r by lia. rewrite Nat2Z.id.
    rewrite firstn_all. symmetry. apply firstn_all2. lia.
Qed.

Lemma lastn_length {A : Type} (n : nat) (l : list A) :
  length (lastn n l) = Nat.min n (length l).
Proof. unfold lastn. rewrite length_skipn. lia. Qed.

Lemma lastn_app_long {A : Type} (n : nat) (l l' : list A) :
  n <= length l' -> lastn n (l ++ l') = lastn n l'.
Proof.
  intros Hn. unfold lastn. rewrite length_app, skipn_app.
  rewrite skipn_all2 by lia. cbn [app]. f_equal. lia.
Qed.

Lemma lastn_app_short {A : Type} (n : nat) (l l' : list A) :
  length l' <= n -> lastn n (l ++ l') = lastn (n - length l') l ++ l'.
Proof.
  intros Hn. unfold lastn. rewrite length_app, skipn_app.
  replace (length l + length l' - n - length l) with 0 by lia.
  cbn [skipn]. f_equal. f_equal. lia.
Qed.

Lemma lastn_lastn {A : Type} (m n : nat) (l : list A) :
  m <= n -> lastn m (lastn n l) = lastn m l.
Proof.
  intros Hmn. unfold lastn. rewrite length_skipn, skipn_skipn. f_equal. lia.
Qed.

(** Cutting the window before or after an append gives the same window. *)
Lemma lastn_window {A : Type} (n : nat) (l l' : list A) :
  lastn n (lastn n l ++ l') = lastn n (l ++ l').
Proof.
  destruct (Nat.le_gt_cases n (length l')) as [Hlong | Hshort].
  - now rewrite !lastn_app_long.
  - rewrite !lastn_app_short by lia. f_equal. apply lastn_lastn. lia.
Qed.

(** The history after a series of appends, each followed by the cut to [n]. *)
Lemma window_fold {A : Type} (n : nat) (rs : list A) : forall h,
  rs <> [] ->
  fold_left (fun h r => lastn n (h ++ [r])) rs h = lastn n (h ++ rs).
Proof.
  induction rs as [| r rs IH]; intros h Hne; [congruence |].
  cbn [fold_left]. destruct rs as [| r' rs].
  - reflexivity.
  - rewrite IH by discriminate. rewrite lastn_window.
    now rewrite <- app_assoc.
Qed.

Lemma firstn_stack {A : Type} (n : nat) (l l' : list A) :
  firstn n (l' ++ firstn n l) = firstn n (l' ++ l).
Proof.
  rewrite !firstn_app, firstn_firstn. f_equal.
  f_equal. lia.
Qed.

(** The alert list after a series of pushes, each followed by the cut to [n]. *)
Lemma stack_fold {A : Type} (n : nat) (xs : list A) : forall s,
  xs <> [] ->
  fold_left (fun s x => firstn n (x :: s)) xs s = firstn n (rev xs ++ s).
Proof.
  induction xs as [| x xs IH]; intros s Hne; [congruence |].
  cbn [fold_left]. destruct xs as [| x' xs].
  - reflexivity.
  - rewrite IH by discriminate.
    rewrite (firstn_stack n (x :: s) (rev (x' :: xs))).
    cbn [rev]. now rewrite <- !app_assoc.
Qed.

(** ** Rounding in binary64

    What the specification of the operations gives for this program: the sign
    of a rounded result, and that rounding keeps a result on the same side of
    every double as the exact value, so that an exact value between two doubles
    rounds to a double between them.  A finite [spec_float] is compared through
    its magnitude [m * 2^(e + 1074)], an integer. *)

Section Rounding.
Local Open Scope Z_scope.

Lemma fexp_eq (e : Z) : fexp prec emax e = Z.max (e - 53) (-1074).
Proof. reflexivity. Qed.

(** iter_pos *)
Lemma iter_pos_comm {A : Type} (f : A -> A) (p : BinNums.positive) :
  forall x, iter_pos f p (f x) = f (iter_pos f p x).
Proof.
  induction p as [p IH | p IH |]; intros x; cbn [iter_pos].
  - now rewrite !IH.
  - now rewrite !IH.
  - reflexivity.
Qed.

Lemma iter_pos_succ {A : Type} (f : A -> A) (p : BinNums.positive) :
  forall x, iter_pos f (Pos.succ p) x = f (iter_pos f p x).
Proof.
  induction p as [p IH | p IH |]; intros x; cbn [iter_pos Pos.succ].
  - rewrite !IH. now rewrite <- !iter_pos_comm.
  - now rewrite !iter_pos_comm.
  - reflexivity.
Qed.

(** shr_1 *)
Lemma shr_1_m (mrs : shr_record) :
  0 <= shr_m mrs -> shr_m (shr_1 mrs) = shr_m mrs / 2.
Proof.
  destruct mrs as [m r s]. cbn [shr_m]. intros Hm.
  destruct m as [| p | p]; [reflexivity | | lia].
  destruct p as [p | p |]; cbn [shr_1 shr_m].
  - change (Z.pos p~1) with (2 * Z.pos p + 1). apply Z.div_unique with (r := 1); lia.
  - change (Z.pos p~0) with (2 * Z.pos p). apply Z.div_unique with (r := 0); lia.
  - reflexivity.
Qed.

Lemma shr_1_exact (m : Z) :
  0 <= m -> m mod 2 = 0 ->
  shr_1 (Build_shr_record m false false) = Build_shr_record (m / 2) false false.
Proof.
  intros Hm He.
  destruct m as [| p | p]; [reflexivity | | lia].
  destruct p as [p | p |]; cbn [shr_1 orb].
  - change (Z.pos p~1) with (2 * Z.pos p + 1) in He.
    replace (2 * Z.pos p + 1) with (1 + Z.pos p * 2) in He by lia.
    rewrite Z.mod_add in He by lia. discriminate.
  - f_equal. change (Z.pos p~0) with (2 * Z.pos p). apply Z.div_unique with (r := 0); lia.
  - discriminate.
Qed.

Lemma iter_shr_1_m (p : BinNums.positive) (mrs : shr_record) :
  0 <= shr_m mrs ->
  shr_m (iter_pos shr_1 p mrs) = shr_m mrs / 2 ^ Z.pos p.
Proof.
  intros Hm. induction p as [| p IH] using Pos.peano_ind.
  - cbn [iter_pos]. now rewrite shr_1_m.
  - rewrite iter_pos_succ, shr_1_m, IH.
    + rewrite Pos2Z.inj_succ, Z.pow_succ_r by lia.
      rewrite Z.div_div by lia. f_equal. lia.
    + rewrite IH. apply Z.div_pos; lia.
Qed.

Lemma iter_shr_1_exact (p : BinNums.positive) (m : Z) :
  0 <= m -> m mod 2 ^ Z.pos p = 0 ->
  iter_pos shr_1 p (Build_shr_record m false false)
  = Build_shr_record (m / 2 ^ Z.pos p) false false.
Proof.
  intros Hm. induction p as [| p IH] using Pos.peano_ind; intros He.
  - cbn [iter_pos]. now apply shr_1_exact.
  - rewrite Pos2Z.inj_succ, Z.pow_succ_r in He by lia.
    assert (H2 : 0 < 2 ^ Z.pos p) by (apply Z.pow_pos_nonneg; lia).
    assert (Hdiv : m = 2 * 2 ^ Z.pos p * (m / (2 * 2 ^ Z.pos p)))
      by (apply Z.div_exact; lia).
    set (k := m / (2 * 2 ^ Z.pos p)) in *.
    assert (Hk : 0 <= k) by (apply Z.div_pos; lia).
    rewrite iter_pos_succ, IH.
    + assert (Hq : m / 2 ^ Z.pos p = 2 * k).
      { rewrite Hdiv. replace (2 * 2 ^ Z.pos p * k) with (2 * k * 2 ^ Z.pos p) by lia.
        now rewrite Z.div_mul by lia. }
      rewrite Hq, shr_1_exact.
      * f_equal. rewrite Pos2Z.inj_succ, Z.pow_succ_r by lia.
        replace (2 * k) with (k * 2) by lia. rewrite Z.div_mul by lia.
        unfold k. reflexivity.
      * lia.
      * replace (2 * k) with (k * 2) by lia. apply Z.mod_mul. lia.
    + rewrite Hdiv. replace (2 * 2 ^ Z.pos p * k) with (2 * k * 2 ^ Z.pos p) by lia.
      apply Z.mod_mul. lia.
Qed.

(** digits *)
Lemma digits2_pos_bounds (m : BinNums.positive) :
  2 ^ (Z.pos (digits2_pos m) - 1) <= Z.pos m < 2 ^ Z.pos (digits2_pos m).
Proof.
  induction m as [m IH | m IH |]; cbn [digits2_pos].
  - rewrite Pos2Z.inj_succ. change (Z.pos m~1) with (2 * Z.pos m + 1).
    replace (Z.succ (Z.pos (digits2_pos m)) - 1) with (Z.succ (Z.pos (digits2_pos m) - 1)) by lia.
    rewrite !Z.pow_succ_r by lia.
    revert IH. generalize (2 ^ (Z.pos (digits2_pos m) - 1)), (2 ^ Z.pos (digits2_pos m)). lia.
  - rewrite Pos2Z.inj_succ. change (Z.pos m~0) with (2 * Z.pos m).
    replace (Z.succ (Z.pos (digits2_pos m)) - 1) with (Z.succ (Z.pos (digits2_pos m) - 1)) by lia.
    rewrite !Z.pow_succ_r by lia.
    revert IH. generalize (2 ^ (Z.pos (digits2_pos m) - 1)), (2 ^ Z.pos (digits2_pos m)). lia.
  - cbn. lia.
Qed.

Lemma Zdigits2_bounds (m : Z) :
  0 < m -> 2 ^ (Zdigits2 m - 1) <= m < 2 ^ Zdigits2 m.
Proof.
  destruct m as [| p | p]; try lia. intros _. apply digits2_pos_bounds.
Qed.

Lemma Zdigits2_nonneg (m : Z) : 0 <= Zdigits2 m.
Proof. destruct m; cbn; lia. Qed.

Lemma Zdigits2_pos (m : Z) : 0 < m -> 0 < Zdigits2 m.
Proof. destruct m; cbn; lia. Qed.

(** Upper bound on digits from an upper bound by a power of two *)
Lemma Zdigits2_le_pow (m k : Z) : 0 <= k -> 0 <= m -> m <= 2 ^ k -> Zdigits2 m <= k + 1.
Proof.
  intros Hk Hm Hle.
  destruct (Z.eq_dec m 0) as [-> | Hne]; [cbn; lia |].
  destruct (Zdigits2_bounds m ltac:(lia)) as [Hlo _].
  destruct (Z_le_gt_dec (Zdigits2 m) (k + 1)) as [H | H]; [exact H | exfalso].
  assert (2 ^ (k + 1) <= 2 ^ (Zdigits2 m - 1)) by (apply Z.pow_le_mono_r; lia).
  rewrite Z.pow_add_r in H0 by lia. change (2 ^ 1) with 2 in H0.
  assert (0 < 2 ^ k) by (apply Z.pow_pos_nonneg; lia). lia.
Qed.

(** shr and rounding *)
Lemma shr_record_of_loc_m (m : Z) (l : location) : shr_m (shr_record_of_loc m l) = m.
Proof. destruct l as [| []]; reflexivity. Qed.

Lemma shr_spec (m e n : Z) (l : location) :
  0 <= m ->
  exists mrs,
    shr (shr_record_of_loc m l) e n = (mrs, e + Z.max 0 n)
    /\ shr_m mrs = m / 2 ^ Z.max 0 n
    /\ (l = loc_Exact -> m mod 2 ^ Z.max 0 n = 0 -> loc_of_shr_record mrs = loc_Exact).
Proof.
  intros Hm. destruct n as [| p | p]; cbn [shr].
  - exists (shr_record_of_loc m l). change (Z.max 0 0) with 0.
    rewrite Z.add_0_r, shr_record_of_loc_m, Z.pow_0_r, Z.div_1_r.
    repeat split. now intros ->.
  - exists (iter_pos shr_1 p (shr_record_of_loc m l)). change (Z.max 0 (Z.pos p)) with (Z.pos p).
    rewrite iter_shr_1_m, shr_record_of_loc_m by (rewrite shr_record_of_loc_m; exact Hm).
    repeat split. intros -> He. cbn [shr_record_of_loc].
    now rewrite iter_shr_1_exact.
  - exists (shr_record_of_loc m l). change (Z.max 0 (Z.neg p)) with 0.
    rewrite Z.add_0_r, shr_record_of_loc_m, Z.pow_0_r, Z.div_1_r.
    repeat split. now intros ->.
Qed.

Lemma round_nearest_even_bounds (m : Z) (l : location) :
  m <= round_nearest_even m l <= m + 1.
Proof. destruct l as [| []]; cbn [round_nearest_even]; try lia. destruct (Z.even m); lia. Qed.

Lemma binary_round_aux_cases (s : bool) (m e : Z) (l : location) :
  0 <= m ->
  exists n n' m1',
    n = Z.max 0 (fexp prec emax (Zdigits2 m + e) - e)
    /\ m / 2 ^ n <= m1' <= m / 2 ^ n + 1
    /\ (l = loc_Exact -> m mod 2 ^ n = 0 -> m1' = m / 2 ^ n)
    /\ n' = Z.max 0 (fexp prec emax (Zdigits2 m1' + (e + n)) - (e + n))
    /\ binary_round_aux prec emax s m e l =
       match m1' / 2 ^ n' with
       | Z0 => S754_zero s
       | Zpos p =>
           if e + n + n' <=? emax - prec then S754_finite s p (e + n + n')
           else S754_infinity s
       | Zneg _ => S754_nan
       end.
Proof.
  intros Hm.
  set (n := Z.max 0 (fexp prec emax (Zdigits2 m + e) - e)).
  destruct (shr_spec m e (fexp prec emax (Zdigits2 m + e) - e) l Hm) as (mrs & E1 & M1 & X1).
  fold n in E1, M1, X1.
  set (m1' := round_nearest_even (shr_m mrs) (loc_of_shr_record mrs)).
  assert (Hn : 0 <= n) by (unfold n; lia).
  assert (H2n : 0 < 2 ^ n) by (apply Z.pow_pos_nonneg; lia).
  assert (Hm1 : 0 <= m / 2 ^ n) by (apply Z.div_pos; lia).
  assert (B : m / 2 ^ n <= m1' <= m / 2 ^ n + 1)
    by (unfold m1'; rewrite <- M1; apply round_nearest_even_bounds).
  set (n' := Z.max 0 (fexp prec emax (Zdigits2 m1' + (e + n)) - (e + n))).
  destruct (shr_spec m1' (e + n) (fexp prec emax (Zdigits2 m1' + (e + n)) - (e + n))
              loc_Exact ltac:(lia)) as (mrs' & E2 & M2 & _).
  fold n' in E2, M2.
  exists n, n', m1'. repeat split; try lia.
  - intros Hl He. unfold m1'. rewrite (X1 Hl He). cbn [round_nearest_even]. exact M1.
  - unfold binary_round_aux, shr_fexp. rewrite E1. fold m1'. rewrite E2, M2.
    reflexivity.
Qed.

(** powers of two *)
Lemma pow2_pos (n : Z) : 0 <= n -> 0 < 2 ^ n.
Proof. intros. apply Z.pow_pos_nonneg; lia. Qed.

Lemma pow2_split (a b : Z) : 0 <= a -> 0 <= b -> 2 ^ (a + b) = 2 ^ a * 2 ^ b.
Proof. intros. apply Z.pow_add_r; lia. Qed.

Lemma div_pow2_le (m n k : Z) :
  0 <= n <= k -> m <= 2 ^ k -> m / 2 ^ n <= 2 ^ (k - n).
Proof.
  intros Hn Hm.
  assert (H2 : 0 < 2 ^ n) by (apply pow2_pos; lia).
  replace (2 ^ (k - n)) with (2 ^ k / 2 ^ n).
  - apply Z.div_le_mono; lia.
  - replace k with ((k - n) + n) at 1 by lia.
    rewrite pow2_split by lia. apply Z.div_mul. lia.
Qed.

Lemma pow2_le_transfer (m1 m2 a b a' b' : Z) :
  0 <= a -> 0 <= b -> 0 <= a' -> 0 <= b' -> a - b = a' - b' ->
  m1 * 2 ^ a <= m2 * 2 ^ b -> m1 * 2 ^ a' <= m2 * 2 ^ b'.
Proof.
  intros Ha Hb Ha' Hb' Heq H.
  destruct (Z_le_gt_dec a a') as [Hc | Hc].
  - replace a' with (a + (a' - a)) by lia. replace b' with (b + (a' - a)) by lia.
    rewrite !pow2_split by lia.
    assert (0 < 2 ^ (a' - a)) by (apply pow2_pos; lia).
    rewrite !Z.mul_assoc. apply Z.mul_le_mono_nonneg_r; lia.
  - replace a with (a' + (a - a')) in H by lia. replace b with (b' + (a - a')) in H by lia.
    rewrite !pow2_split in H by lia.
    assert (0 < 2 ^ (a - a')) by (apply pow2_pos; lia).
    rewrite !Z.mul_assoc in H. apply Z.mul_le_mono_pos_r in H; lia.
Qed.

(** the sign of a rounded value *)
Lemma round_aux_sign (s : bool) (m e : Z) (l : location) :
  0 <= m -> signed s (binary_round_aux prec emax s m e l).
Proof.
  intros Hm.
  destruct (binary_round_aux_cases s m e l Hm) as (n & n' & m1' & Hn & B & _ & Hn' & ->).
  assert (0 <= m / 2 ^ n) by (apply Z.div_pos; [lia | apply pow2_pos; lia]).
  assert (0 <= m1' / 2 ^ n') by (apply Z.div_pos; [lia | apply pow2_pos; lia]).
  unfold signed.
  destruct (m1' / 2 ^ n') as [| p | p]; [now left | | lia].
  destruct (e + n + n' <=? emax - prec); [right; right; eauto | right; now left].
Qed.

(** a value of at most [2^k] rounds to at most [2^k] *)
Lemma round_aux_le_pow2 (s : bool) (m e : Z) (l : location) (k : Z) :
  0 <= m -> e <= k -> -1074 <= k <= 971 ->
  m <= 2 ^ (k - e) -> (m = 2 ^ (k - e) -> l = loc_Exact) ->
  binary_round_aux prec emax s m e l = S754_zero s
  \/ exists p e2, binary_round_aux prec emax s m e l = S754_finite s p e2
                  /\ e2 <= k /\ Z.pos p <= 2 ^ (k - e2).
Proof.
  intros Hm Hek Hk Hle Hex.
  destruct (binary_round_aux_cases s m e l Hm) as (n & n' & m1' & Hn & B & X & Hn' & ->).
  pose proof (Zdigits2_le_pow m (k - e) ltac:(lia) Hm Hle) as Hd.
  rewrite fexp_eq in Hn.
  assert (Hnk : 0 <= n <= k - e) by lia.
  assert (H2n : 0 < 2 ^ n) by (apply pow2_pos; lia).
  assert (Hm1 : 0 <= m / 2 ^ n) by (apply Z.div_pos; lia).
  pose proof (div_pow2_le m n (k - e) Hnk Hle) as Hm1le.
  assert (Hm1' : m1' <= 2 ^ (k - e - n)).
  { destruct (Z.eq_dec (m / 2 ^ n) (2 ^ (k - e - n))) as [E | NE]; [| lia].
    assert (Hfull : m = 2 ^ (k - e)).
    { pose proof (Z.mul_div_le m (2 ^ n) H2n) as Hfl. rewrite E in Hfl.
      rewrite <- pow2_split in Hfl by lia.
      replace (n + (k - e - n)) with (k - e) in Hfl by lia. lia. }
    rewrite (X (Hex Hfull)); [lia |].
    rewrite Hfull. replace (k - e) with ((k - e - n) + n) by lia.
    rewrite pow2_split by lia. apply Z.mod_mul. lia. }
  pose proof (Zdigits2_le_pow m1' (k - e - n) ltac:(lia) ltac:(lia) Hm1') as Hd'.
  rewrite fexp_eq in Hn'.
  assert (Hnk' : 0 <= n' <= k - e - n) by lia.
  assert (H2n' : 0 < 2 ^ n') by (apply pow2_pos; lia).
  assert (Hm2 : 0 <= m1' / 2 ^ n') by (apply Z.div_pos; lia).
  pose proof (div_pow2_le m1' n' (k - e - n) Hnk' Hm1') as Hm2le.
  destruct (m1' / 2 ^ n') as [| p | p]; [now left | right | lia].
  assert (Hfin : (e + n + n' <=? emax - prec) = true)
    by (apply Z.leb_le; change (emax - prec) with 971; lia).
  rewrite Hfin. exists p, (e + n + n'). split; [reflexivity |]. split; [lia |].
  replace (k - (e + n + n')) with (k - e - n - n') by lia. exact Hm2le.
Qed.

(** a representable value below the argument stays below its truncation *)
Lemma floor_ge (z my ey m e n : Z) :
  0 < my < 2 ^ 53 -> -1074 <= ey -> z <= ey -> z <= e -> 0 < m ->
  my * 2 ^ (ey - z) <= m * 2 ^ (e - z) ->
  n = Z.max 0 (fexp prec emax (Zdigits2 m + e) - e) ->
  my * 2 ^ (ey - z) <= m / 2 ^ n * 2 ^ (e + n - z).
Proof.
  intros Hmy Hey Hz Hze Hm Hle Hn.
  pose proof (Zdigits2_bounds m Hm) as [Hlo Hhi].
  pose proof (Zdigits2_pos m Hm) as Hd.
  rewrite fexp_eq in Hn.
  destruct (Z.eq_dec n 0) as [E0 | NE].
  - rewrite E0. rewrite Z.pow_0_r, Z.div_1_r, Z.add_0_r. exact Hle.
  - assert (Hn0 : 0 < n) by lia.
    assert (He1 : e + n = Z.max (Zdigits2 m + e - 53) (-1074)) by lia.
    assert (H2n : 0 < 2 ^ n) by (apply pow2_pos; lia).
    assert (H2ez : 0 < 2 ^ (e - z)) by (apply pow2_pos; lia).
    assert (H2e1z : 0 < 2 ^ (e + n - z)) by (apply pow2_pos; lia).
    destruct (Z_le_gt_dec (e + n) ey) as [Hge | Hlt].
    + (* y is a multiple of the new unit *)
      replace (ey - z) with ((ey - (e + n)) + (e + n - z)) by lia.
      rewrite pow2_split by lia. rewrite Z.mul_assoc.
      apply Z.mul_le_mono_nonneg_r; [lia |].
      apply Z.div_le_lower_bound; [lia |].
      replace (ey - z) with ((ey - (e + n)) + n + (e - z)) in Hle by lia.
      rewrite !pow2_split in Hle by lia.
      rewrite !Z.mul_assoc in Hle. apply Z.mul_le_mono_pos_r in Hle; lia.
    + (* y is below the least value with the new exponent *)
      assert (Hn53 : n = Zdigits2 m - 53) by lia.
      assert (H52 : 2 ^ 52 <= m / 2 ^ n).
      { apply Z.div_le_lower_bound; [lia |].
        rewrite Z.mul_comm, <- pow2_split by lia.
        replace (52 + n) with (Zdigits2 m - 1) by lia. exact Hlo. }
      apply Z.le_trans with (2 ^ 52 * 2 ^ (e + n - z)).
      * rewrite <- pow2_split by lia.
        apply Z.le_trans with (2 ^ 53 * 2 ^ (ey - z)).
        -- apply Z.mul_le_mono_nonneg_r; [apply Z.lt_le_incl, pow2_pos; lia | lia].
        -- rewrite <- pow2_split by lia. apply Z.pow_le_mono_r; lia.
      * apply Z.mul_le_mono_nonneg_r; lia.
Qed.

(** a representable value below the argument stays below its rounding *)
Lemma round_aux_ge (s : bool) (m e : Z) (l : location) (z my ey : Z) :
  0 < my < 2 ^ 53 -> -1074 <= ey -> z <= ey -> z <= e -> 0 < m ->
  my * 2 ^ (ey - z) <= m * 2 ^ (e - z) ->
  binary_round_aux prec emax s m e l = S754_infinity s
  \/ exists p e2, binary_round_aux prec emax s m e l = S754_finite s p e2
                  /\ e <= e2 /\ my * 2 ^ (ey - z) <= Z.pos p * 2 ^ (e2 - z).
Proof.
  intros Hmy Hey Hz Hze Hm Hle.
  destruct (binary_round_aux_cases s m e l ltac:(lia)) as (n & n' & m1' & Hn & B & _ & Hn' & ->).
  pose proof (floor_ge z my ey m e n Hmy Hey Hz Hze Hm Hle Hn) as H1.
  assert (Hn0 : 0 <= n) by lia.
  assert (H2 : 0 < 2 ^ (e + n - z)) by (apply pow2_pos; lia).
  assert (HY : 0 < my * 2 ^ (ey - z)).
  { apply Z.mul_pos_pos; [lia | apply pow2_pos; lia]. }
  assert (Hm1 : 0 < m / 2 ^ n).
  { destruct (Z_le_gt_dec (m / 2 ^ n) 0) as [H0 | H0]; [| lia].
    assert (m / 2 ^ n * 2 ^ (e + n - z) <= 0) by (apply Z.mul_nonpos_nonneg; lia). lia. }
  assert (H1' : my * 2 ^ (ey - z) <= m1' * 2 ^ (e + n - z)).
  { apply Z.le_trans with (1 := H1). apply Z.mul_le_mono_nonneg_r; lia. }
  pose proof (floor_ge z my ey m1' (e + n) n' Hmy Hey Hz ltac:(lia) ltac:(lia) H1' Hn') as H3.
  assert (Hn0' : 0 <= n') by lia.
  assert (H4 : 0 < 2 ^ (e + n + n' - z)) by (apply pow2_pos; lia).
  assert (Hm2 : 0 < m1' / 2 ^ n').
  { destruct (Z_le_gt_dec (m1' / 2 ^ n') 0) as [H0 | H0]; [| lia].
    assert (m1' / 2 ^ n' * 2 ^ (e + n + n' - z) <= 0) by (apply Z.mul_nonpos_nonneg; lia). lia. }
  destruct (m1' / 2 ^ n') as [| p | p]; try lia.
  destruct (e + n + n' <=? emax - prec); [right | now left].
  exists p, (e + n + n'). split; [reflexivity |]. split; [lia | exact H3].
Qed.

(** alignment *)
Lemma pos_iter_xO (m d : BinNums.positive) : Z.pos (Pos.iter xO m d) = Z.pos m * 2 ^ Z.pos d.
Proof.
  induction d as [| d IH] using Pos.peano_ind.
  - cbn [Pos.iter]. change (Z.pos m~0) with (2 * Z.pos m). change (2 ^ 1) with 2. lia.
  - rewrite Pos.iter_succ. change (Z.pos (Pos.iter xO m d)~0) with (2 * Z.pos (Pos.iter xO m d)).
    rewrite IH, Pos2Z.inj_succ, Z.pow_succ_r by lia. lia.
Qed.

Lemma shl_align_spec (m : BinNums.positive) (e e' : Z) :
  exists m', shl_align m e e' = (m', Z.min e e')
             /\ Z.pos m' = Z.pos m * 2 ^ (e - Z.min e e').
Proof.
  unfold shl_align. destruct (e' - e) as [| d | d] eqn:E.
  - exists m. replace (Z.min e e') with e by lia.
    rewrite Z.sub_diag, Z.pow_0_r. split; [reflexivity | lia].
  - exists m. replace (Z.min e e') with e by lia.
    rewrite Z.sub_diag, Z.pow_0_r. split; [reflexivity | lia].
  - exists (Pos.iter xO m d). replace (Z.min e e') with e' by lia.
    split; [reflexivity |]. rewrite pos_iter_xO. f_equal. f_equal. lia.
Qed.

Lemma bounded_inv (m : BinNums.positive) (e : Z) :
  bounded prec emax m e = true -> -1074 <= e <= 971 /\ Z.pos m < 2 ^ 53.
Proof.
  unfold bounded, canonical_mantissa. rewrite fexp_eq.
  intros H. apply andb_true_iff in H as [H1 H2].
  apply Z.eqb_eq in H1. apply Z.leb_le in H2. change (emax - prec) with 971 in H2.
  split; [lia |].
  pose proof (digits2_pos_bounds m) as [_ Hhi].
  apply Z.lt_le_trans with (1 := Hhi). apply Z.pow_le_mono_r; lia.
Qed.

(** binary_round *)
Lemma binary_round_sign (s : bool) (m : BinNums.positive) (e : Z) :
  signed s (binary_round prec emax s m e).
Proof.
  unfold binary_round.
  destruct (shl_align_spec m e (fexp prec emax (Z.pos (digits2_pos m) + e))) as (m' & -> & _).
  apply round_aux_sign. lia.
Qed.

Lemma binary_round_ge (s : bool) (m : BinNums.positive) (e z my ey : Z) :
  0 < my < 2 ^ 53 -> -1074 <= ey -> z <= ey -> z <= e -> z <= -1074 ->
  my * 2 ^ (ey - z) <= Z.pos m * 2 ^ (e - z) ->
  binary_round prec emax s m e = S754_infinity s
  \/ exists p e2, binary_round prec emax s m e = S754_finite s p e2
                  /\ z <= e2 /\ my * 2 ^ (ey - z) <= Z.pos p * 2 ^ (e2 - z).
Proof.
  intros Hmy Hey Hz Hze Hz0 Hle.
  unfold binary_round.
  destruct (shl_align_spec m e (fexp prec emax (Z.pos (digits2_pos m) + e))) as (m' & -> & Hm').
  set (e' := Z.min e (fexp prec emax (Z.pos (digits2_pos m) + e))) in *.
  assert (He' : z <= e' <= e) by (unfold e'; rewrite fexp_eq; lia).
  assert (Hval : Z.pos m' * 2 ^ (e' - z) = Z.pos m * 2 ^ (e - z)).
  { rewrite Hm'. rewrite <- Z.mul_assoc, <- pow2_split by lia. f_equal. f_equal. lia. }
  destruct (round_aux_ge s (Z.pos m') e' loc_Exact z my ey Hmy Hey Hz ltac:(lia) ltac:(lia)
              ltac:(rewrite Hval; exact Hle)) as [-> | (p & e2 & -> & H1 & H2)].
  - now left.
  - right. exists p, e2. repeat split; [lia | exact H2].
Qed.

(** operations on finite positive numbers *)
Lemma SFadd_finite_ge (mx : BinNums.positive) (ex : Z) (my : BinNums.positive) (ey : Z) :
  bounded prec emax mx ex = true -> bounded prec emax my ey = true ->
  FloatAxioms.SF64add (S754_finite false mx ex) (S754_finite false my ey) = S754_infinity false
  \/ exists p e2,
       FloatAxioms.SF64add (S754_finite false mx ex) (S754_finite false my ey) = S754_finite false p e2
       /\ -1074 <= e2
       /\ Z.pos mx * 2 ^ (ex + 1074) <= Z.pos p * 2 ^ (e2 + 1074)
       /\ Z.pos my * 2 ^ (ey + 1074) <= Z.pos p * 2 ^ (e2 + 1074).
Proof.
  intros Bx By.
  destruct (bounded_inv mx ex Bx) as [Hex Hmx].
  destruct (bounded_inv my ey By) as [Hey Hmy].
  unfold FloatAxioms.SF64add, SFadd. cbn [cond_Zopp].
  destruct (shl_align_spec mx ex (Z.min ex ey)) as (mx' & -> & Hx').
  destruct (shl_align_spec my ey (Z.min ex ey)) as (my' & -> & Hy').
  cbn [fst].
  replace (Z.min ex (Z.min ex ey)) with (Z.min ex ey) in Hx' by lia.
  replace (Z.min ey (Z.min ex ey)) with (Z.min ex ey) in Hy' by lia.
  set (ez := Z.min ex ey) in *.
  change (Z.pos mx' + Z.pos my') with (Z.pos (mx' + my')).
  cbn [binary_normalize].
  assert (Hez : -1074 <= ez) by (unfold ez; lia).
  assert (Hsum : Z.pos (mx' + my') = Z.pos mx' + Z.pos my') by lia.
  assert (H2x : 0 < 2 ^ (ez + 1074)) by (apply pow2_pos; lia).
  assert (Vx : Z.pos mx * 2 ^ (ex - -1074) <= Z.pos (mx' + my') * 2 ^ (ez - -1074)).
  { replace (ex - -1074) with ((ex - ez) + (ez + 1074)) by (unfold ez; lia).
    replace (ez - -1074) with (ez + 1074) by lia.
    rewrite pow2_split by (unfold ez; lia). rewrite Z.mul_assoc, <- Hx', Hsum.
    apply Z.mul_le_mono_nonneg_r; lia. }
  assert (Vy : Z.pos my * 2 ^ (ey - -1074) <= Z.pos (mx' + my') * 2 ^ (ez - -1074)).
  { replace (ey - -1074) with ((ey - ez) + (ez + 1074)) by (unfold ez; lia).
    replace (ez - -1074) with (ez + 1074) by lia.
    rewrite pow2_split by (unfold ez; lia). rewrite Z.mul_assoc, <- Hy', Hsum.
    apply Z.mul_le_mono_nonneg_r; lia. }
  destruct (binary_round_ge false (mx' + my') ez (-1074) (Z.pos mx) ex
              ltac:(lia) ltac:(lia) ltac:(lia) ltac:(lia) ltac:(lia) Vx)
    as [-> | (p & e2 & E & He2 & Hx)]; [now left | right].
  destruct (binary_round_ge false (mx' + my') ez (-1074) (Z.pos my) ey
              ltac:(lia) ltac:(lia) ltac:(lia) ltac:(lia) ltac:(lia) Vy)
    as [E' | (p' & e2' & E' & _ & Hy)]; [rewrite E in E'; discriminate |].
  rewrite E in E'. injection E' as <- <-.
  exists p, e2. rewrite E. repeat split; try lia.
  - replace (e2 + 1074) with (e2 - -1074) by lia.
    replace (ex + 1074) with (ex - -1074) by lia. exact Hx.
  - replace (e2 + 1074) with (e2 - -1074) by lia.
    replace (ey + 1074) with (ey - -1074) by lia. exact Hy.
Qed.

Lemma new_location_0 (nb : Z) : new_location nb 0 = loc_Exact.
Proof. unfold new_location. destruct (Z.even nb); reflexivity. Qed.

Lemma shifted_numerator (m s : Z) :
  0 <= s ->
  match s with Z.pos _ => Z.shiftl m s | Z0 => m | Z.neg _ => 0 end = m * 2 ^ s.
Proof.
  intros Hs. destruct s as [| ps | ps]; try lia.
  apply Z.shiftl_mul_pow2. lia.
Qed.

Lemma SFdiv_le_one (mP : BinNums.positive) (eP : Z) (mS : BinNums.positive) (eS : Z) :
  -1074 <= eP -> -1074 <= eS ->
  Z.pos mP * 2 ^ (eP + 1074) <= Z.pos mS * 2 ^ (eS + 1074) ->
  FloatAxioms.SF64div (S754_finite false mP eP) (S754_finite false mS eS) = S754_zero false
  \/ exists p e2,
       FloatAxioms.SF64div (S754_finite false mP eP) (S754_finite false mS eS) = S754_finite false p e2
       /\ e2 <= 0 /\ Z.pos p <= 2 ^ (- e2).
Proof.
  intros HeP HeS Hle.
  unfold FloatAxioms.SF64div, SFdiv, SFdiv_core_binary. cbn [xorb Zdigits2].
  set (dP := Z.pos (digits2_pos mP)). set (dS := Z.pos (digits2_pos mS)).
  set (e' := Z.min (fexp prec emax (dP + eP - (dS + eS))) (eP - eS)).
  set (s := eP - eS - e').
  pose proof (digits2_pos_bounds mP) as [HloP _]. fold dP in HloP.
  pose proof (digits2_pos_bounds mS) as [_ HhiS]. fold dS in HhiS.
  assert (HdP : 0 < dP) by (unfold dP; lia).
  assert (HdS : 0 < dS) by (unfold dS; lia).
  (* the exponents *)
  assert (Hdig : dP + eP - (dS + eS) <= 0).
  { assert (H1 : 2 ^ (dP - 1 + (eP + 1074)) < 2 ^ (dS + (eS + 1074))).
    { rewrite (pow2_split (dP - 1)), (pow2_split dS) by lia.
      apply Z.le_lt_trans with (Z.pos mP * 2 ^ (eP + 1074)).
      - apply Z.mul_le_mono_nonneg_r; [apply Z.lt_le_incl, pow2_pos; lia | lia].
      - apply Z.le_lt_trans with (1 := Hle).
        apply Zmult_lt_compat_r; [apply pow2_pos; lia | lia]. }
    apply Z.pow_lt_mono_r_iff in H1; lia. }
  assert (He' : e' <= -53) by (unfold e'; rewrite fexp_eq; lia).
  assert (Hs : 0 <= s) by (unfold s, e'; lia).
  (* the shifted numerator *)
  set (m' := match s with Z.pos _ => Z.shiftl (Z.pos mP) s | Z0 => Z.pos mP | Z.neg _ => 0 end).
  assert (Hm' : m' = Z.pos mP * 2 ^ s) by (apply shifted_numerator; exact Hs).
  clearbody m'.
  assert (Hbound : m' <= Z.pos mS * 2 ^ (- e')).
  { rewrite Hm'.
    apply (pow2_le_transfer (Z.pos mP) (Z.pos mS) (eP + 1074) (eS + 1074) s (- e'));
      try lia; unfold s; lia. }
  assert (H2e : 0 < 2 ^ (- e')) by (apply pow2_pos; lia).
  assert (Hm'0 : 0 <= m') by (rewrite Hm'; apply Z.mul_nonneg_nonneg; [lia | apply Z.lt_le_incl, pow2_pos; lia]).
  pose proof (Z.div_mod m' (Z.pos mS) ltac:(lia)) as Hdm.
  pose proof (Z.mod_pos_bound m' (Z.pos mS) ltac:(lia)) as Hmod.
  unfold Z.div, Z.modulo in Hdm, Hmod.
  destruct (Z.div_eucl m' (Z.pos mS)) as [q r].
  assert (Hq0 : 0 <= q) by nia.
  assert (Hq : q <= 2 ^ (- e')) by nia.
  destruct (round_aux_le_pow2 false q e' (new_location (Z.pos mS) r) 0
              Hq0 ltac:(lia) ltac:(lia) ltac:(rewrite Z.sub_0_l; exact Hq))
    as [-> | (p & e2 & -> & H1 & H2)].
  - rewrite Z.sub_0_l. intros Eq.
    assert (r = 0) by nia. subst r. apply new_location_0.
  - now left.
  - right. exists p, e2. rewrite Z.sub_0_l in H2. repeat split; assumption.
Qed.

Lemma SFsub_one_sign (p : BinNums.positive) (e2 : Z) :
  e2 <= 0 -> Z.pos p <= 2 ^ (- e2) ->
  signed false (FloatAxioms.SF64sub SF_one (S754_finite false p e2)).
Proof.
  intros He2 Hp.
  unfold FloatAxioms.SF64sub, SF_one, SFsub. cbn [cond_Zopp].
  destruct (shl_align_spec 4503599627370496 (-52) (Z.min (-52) e2)) as (a & -> & Ha).
  destruct (shl_align_spec p e2 (Z.min (-52) e2)) as (b & -> & Hb).
  cbn [fst].
  replace (Z.min (-52) (Z.min (-52) e2)) with (Z.min (-52) e2) in Ha by lia.
  replace (Z.min e2 (Z.min (-52) e2)) with (Z.min (-52) e2) in Hb by lia.
  set (ez := Z.min (-52) e2) in *.
  assert (Hez : ez <= -52 /\ ez <= e2) by (unfold ez; lia).
  assert (Hab : Z.pos b <= Z.pos a).
  { rewrite Ha, Hb. change 4503599627370496 with (2 ^ 52).
    rewrite <- pow2_split by lia.
    apply Z.le_trans with (2 ^ (- e2) * 2 ^ (e2 - ez)).
    - apply Z.mul_le_mono_nonneg_r; [apply Z.lt_le_incl, pow2_pos; lia | exact Hp].
    - rewrite <- pow2_split by lia. apply Z.pow_le_mono_r; lia. }
  destruct (Z.pos a - Z.pos b) as [| d | d] eqn:E; cbn [binary_normalize].
  - now left.
  - apply binary_round_sign.
  - lia.
Qed.

Lemma SFmul_sign (t : spec_float) (mP : BinNums.positive) (eP : Z) :
  signed false t -> signed false (FloatAxioms.SF64mul t (S754_finite false mP eP)).
Proof.
  intros [-> | [-> | (p & e & ->)]]; unfold FloatAxioms.SF64mul, SFmul; cbn [xorb].
  - now left.
  - right. now left.
  - apply round_aux_sign. lia.
Qed.

Lemma signed_nonneg (x : spec_float) :
  signed false x -> SFleb (S754_zero false) x = true.
Proof. intros [-> | [-> | (p & e & ->)]]; reflexivity. Qed.

Lemma SFltb_zero_inv (x : spec_float) :
  SFltb (S754_zero false) x = true ->
  x = S754_infinity false \/ exists m e, x = S754_finite false m e.
Proof.
  destruct x as [s | s | | s m e]; cbn; try discriminate.
  - destruct s; [discriminate | now left].
  - destruct s; [discriminate | right; eauto].
Qed.

Lemma SFleb_zero_inv (x : spec_float) :
  SFleb (S754_zero false) x = true ->
  (exists s, x = S754_zero s) \/ x = S754_infinity false
  \/ exists m e, x = S754_finite false m e.
Proof.
  destruct x as [s | s | | s m e]; cbn; try discriminate.
  - left. eauto.
  - destruct s; [discriminate | right; now left].
  - destruct s; [discriminate | right; right; eauto].
Qed.

Lemma SFltb_infinity_inv (x : spec_float) :
  SFltb x (S754_infinity false) = true -> x <> S754_infinity false /\ x <> S754_nan.
Proof. destruct x as [s | [] | | s m e]; cbn; intros H; split; congruence. Qed.

(** the posterior covariance, on the specification of the operations *)
Lemma SF_posterior_sign (mP : BinNums.positive) (eP : Z) (Sv : spec_float) :
  -1074 <= eP ->
  Sv = S754_infinity false
  \/ (exists mS eS, Sv = S754_finite false mS eS /\ -1074 <= eS
                    /\ Z.pos mP * 2 ^ (eP + 1074) <= Z.pos mS * 2 ^ (eS + 1074)) ->
  signed false
    (FloatAxioms.SF64mul (FloatAxioms.SF64sub SF_one (FloatAxioms.SF64div (S754_finite false mP eP) Sv))
       (S754_finite false mP eP)).
Proof.
  assert (Hone : signed false SF_one) by (right; right; unfold SF_one; eauto).
  intros HeP [-> | (mS & eS & -> & HeS & Hle)]; apply SFmul_sign.
  - exact Hone.
  - destruct (SFdiv_le_one mP eP mS eS HeP HeS Hle) as [-> | (p & e2 & -> & He2 & Hp)].
    + exact Hone.
    + now apply SFsub_one_sign.
Qed.

(** the sum of a non-negative and a positive number that does not overflow *)
Lemma SF_predicted_finite (E Q : spec_float) :
  FloatAxioms.valid_binary E = true -> FloatAxioms.valid_binary Q = true ->
  SFleb (S754_zero false) E = true ->
  SFltb (S754_zero false) Q = true ->
  SFltb (FloatAxioms.SF64add E Q) (S754_infinity false) = true ->
  exists mP eP, FloatAxioms.SF64add E Q = S754_finite false mP eP.
Proof.
  intros VE VQ HE HQ HP.
  apply SFltb_infinity_inv in HP as [Hinf _].
  destruct (SFltb_zero_inv Q HQ) as [-> | (mq & eq & ->)].
  - exfalso. apply Hinf.
    destruct (SFleb_zero_inv E HE) as [(s & ->) | [-> | (me & ee & ->)]]; reflexivity.
  - destruct (SFleb_zero_inv E HE) as [(s & ->) | [-> | (me & ee & ->)]].
    + exists mq, eq. reflexivity.
    + exfalso. apply Hinf. reflexivity.
    + destruct (SFadd_finite_ge me ee mq eq VE VQ) as [H | (p & e2 & H & _)].
      * contradiction.
      * eauto.
Qed.

Lemma SF_innovationCov (mP : BinNums.positive) (eP : Z) (R : spec_float) :
  bounded prec emax mP eP = true -> FloatAxioms.valid_binary R = true ->
  SFltb (S754_zero false) R = true ->
  FloatAxioms.SF64add (S754_finite false mP eP) R = S754_infinity false
  \/ (exists mS eS, FloatAxioms.SF64add (S754_finite false mP eP) R = S754_finite false mS eS
                    /\ -1074 <= eS
                    /\ Z.pos mP * 2 ^ (eP + 1074) <= Z.pos mS * 2 ^ (eS + 1074)).
Proof.
  intros VP VR HR.
  destruct (SFltb_zero_inv R HR) as [-> | (mr & er & ->)].
  - now left.
  - destruct (SFadd_finite_ge mP eP mr er VP VR) as [H | (p & e2 & H & He2 & Hx & _)].
    + now left.
    + right. exists p, e2. auto.
Qed.

(** a positive number times a number of at least one *)
Lemma SFmul_finite_ge (mx : BinNums.positive) (ex : Z) (my : BinNums.positive) (ey : Z) :
  bounded prec emax mx ex = true -> ey <= 0 -> 2 ^ (- ey) <= Z.pos my ->
  FloatAxioms.SF64mul (S754_finite false mx ex) (S754_finite false my ey) = S754_infinity false
  \/ exists p e2,
       FloatAxioms.SF64mul (S754_finite false mx ex) (S754_finite false my ey) = S754_finite false p e2.
Proof.
  intros Bx Hey Hmy.
  destruct (bounded_inv mx ex Bx) as [Hex Hmx].
  unfold FloatAxioms.SF64mul, SFmul. cbn [xorb].
  destruct (round_aux_ge false (Z.pos (mx * my)) (ex + ey) loc_Exact (ex + ey) (Z.pos mx) ex)
    as [-> | (p & e2 & -> & _)]; try lia.
  - rewrite Z.sub_diag, Z.pow_0_r, Z.mul_1_r, Pos2Z.inj_mul.
    replace (ex - (ex + ey)) with (- ey) by lia.
    apply Z.mul_le_mono_nonneg_l; lia.
  - now left.
  - right. eauto.
Qed.

(** the order of two positive numbers in canonical form *)
Lemma bounded_digits (m : BinNums.positive) (e : Z) :
  bounded prec emax m e = true ->
  -1074 <= e <= 971 /\ Z.pos m < 2 ^ 53 /\ (-1074 < e -> 2 ^ 52 <= Z.pos m).
Proof.
  intros B. destruct (bounded_inv m e B) as [He Hm]. split; [exact He |]. split; [exact Hm |].
  intros Hn. unfold bounded, canonical_mantissa in B. rewrite fexp_eq in B.
  apply andb_true_iff in B as [B _]. apply Z.eqb_eq in B.
  pose proof (digits2_pos_bounds m) as [Hlo _].
  replace (Z.pos (digits2_pos m) - 1) with 52 in Hlo by lia. exact Hlo.
Qed.

Lemma canonical_order (m1 : BinNums.positive) (e1 : Z) (m2 : BinNums.positive) (e2 : Z) :
  bounded prec emax m1 e1 = true -> bounded prec emax m2 e2 = true ->
  e1 < e2 -> Z.pos m1 * 2 ^ (e1 + 1074) < Z.pos m2 * 2 ^ (e2 + 1074).
Proof.
  intros B1 B2 Hlt.
  destruct (bounded_digits m1 e1 B1) as (He1 & Hm1 & _).
  destruct (bounded_digits m2 e2 B2) as (He2 & _ & Hm2).
  specialize (Hm2 ltac:(lia)).
  apply Z.lt_le_trans with (2 ^ 53 * 2 ^ (e1 + 1074)).
  - apply Zmult_lt_compat_r; [apply pow2_pos; lia | exact Hm1].
  - apply Z.le_trans with (2 ^ 52 * 2 ^ (e2 + 1074)).
    + rewrite <- !pow2_split by lia. apply Z.pow_le_mono_r; lia.
    + apply Z.mul_le_mono_nonneg_r; [apply Z.lt_le_incl, pow2_pos; lia | exact Hm2].
Qed.

Lemma SFcompare_finite (m1 : BinNums.positive) (e1 : Z) (m2 : BinNums.positive) (e2 : Z) :
  bounded prec emax m1 e1 = true -> bounded prec emax m2 e2 = true ->
  SFcompare (S754_finite false m1 e1) (S754_finite false m2 e2)
  = Some (Z.pos m1 * 2 ^ (e1 + 1074) ?= Z.pos m2 * 2 ^ (e2 + 1074)).
Proof.
  intros B1 B2. cbn [SFcompare]. f_equal.
  destruct (Z.compare_spec e1 e2) as [E | L | G].
  - subst e2. destruct (bounded_inv m1 e1 B1) as [He _].
    assert (H2 : 0 < 2 ^ (e1 + 1074)) by (apply pow2_pos; lia).
    change (Pos.compare_cont Eq m1 m2) with (Z.pos m1 ?= Z.pos m2).
    symmetry. destruct (Z.compare_spec (Z.pos m1) (Z.pos m2)) as [E | L | G].
    + rewrite E. apply Z.compare_refl.
    + apply Z.compare_lt_iff. apply Zmult_lt_compat_r; assumption.
    + apply Z.compare_gt_iff. apply Zmult_lt_compat_r; assumption.
  - symmetry. apply Z.compare_lt_iff. now apply canonical_order.
  - symmetry. apply Z.compare_gt_iff. now apply canonical_order.
Qed.

Lemma SFleb_finite (m1 : BinNums.positive) (e1 : Z) (m2 : BinNums.positive) (e2 : Z) :
  bounded prec emax m1 e1 = true -> bounded prec emax m2 e2 = true ->
  SFleb (S754_finite false m1 e1) (S754_finite false m2 e2)
  = (Z.pos m1 * 2 ^ (e1 + 1074) <=? Z.pos m2 * 2 ^ (e2 + 1074)).
Proof.
  intros B1 B2. unfold SFleb. rewrite SFcompare_finite by assumption.
  unfold Z.leb. now destruct (_ ?= _).
Qed.

Lemma SFltb_finite (m1 : BinNums.positive) (e1 : Z) (m2 : BinNums.positive) (e2 : Z) :
  bounded prec emax m1 e1 = true -> bounded prec emax m2 e2 = true ->
  SFltb (S754_finite false m1 e1) (S754_finite false m2 e2)
  = (Z.pos m1 * 2 ^ (e1 + 1074) <? Z.pos m2 * 2 ^ (e2 + 1074)).
Proof.
  intros B1 B2. unfold SFltb. rewrite SFcompare_finite by assumption.
  unfold Z.ltb. now destruct (_ ?= _).
Qed.

(** a representable value above an exact argument stays above its rounding *)
Lemma round_aux_le (s : bool) (m e z my ey : Z) :
  0 <= m -> e <= 971 -> z <= e -> z <= ey -> -1074 <= ey <= 971 -> 0 < my < 2 ^ 53 ->
  m * 2 ^ (e - z) <= my * 2 ^ (ey - z) ->
  binary_round_aux prec emax s m e loc_Exact = S754_zero s
  \/ exists p e2, binary_round_aux prec emax s m e loc_Exact = S754_finite s p e2
                  /\ e <= e2 /\ Z.pos p * 2 ^ (e2 - z) <= my * 2 ^ (ey - z).
Proof.
  intros Hm He Hz Hzy Hey Hmy Hle.
  destruct (binary_round_aux_cases s m e loc_Exact Hm)
    as (n & n' & m1' & Hn & B & X & Hn' & ->).
  rewrite fexp_eq in Hn, Hn'.
  assert (Hn0 : 0 <= n) by lia. assert (Hn0' : 0 <= n') by lia.
  assert (H2n : 0 < 2 ^ n) by (apply pow2_pos; lia).
  assert (H2n' : 0 < 2 ^ n') by (apply pow2_pos; lia).
  assert (H2ez : 0 < 2 ^ (e - z)) by (apply pow2_pos; lia).
  assert (H2e1z : 0 < 2 ^ (e + n - z)) by (apply pow2_pos; lia).
  assert (H2e2z : 0 < 2 ^ (e + n + n' - z)) by (apply pow2_pos; lia).
  assert (H2eyz : 0 < 2 ^ (ey - z)) by (apply pow2_pos; lia).
  assert (Hm1 : 0 <= m / 2 ^ n) by (apply Z.div_pos; lia).
  pose proof (Z.mul_div_le m (2 ^ n) H2n) as Hfl.
  assert (Hsplit1 : 2 ^ (e + n - z) = 2 ^ n * 2 ^ (e - z))
    by (rewrite <- pow2_split by lia; f_equal; lia).
  (* the first truncation and the rounding *)
  assert (Hlow : m / 2 ^ n * 2 ^ (e + n - z) <= m * 2 ^ (e - z)).
  { rewrite Hsplit1, Z.mul_assoc. apply Z.mul_le_mono_nonneg_r; lia. }
  assert (Hdig : 0 < n -> e + n = Z.max (Zdigits2 m + e - 53) (-1074)) by lia.
  assert (H52 : 0 < n -> -1074 < e + n -> 2 ^ (52 + (e + n - z)) <= m / 2 ^ n * 2 ^ (e + n - z)).
  { intros Hnp Hnorm.
    assert (0 < m) by (destruct (Z.eq_dec m 0) as [-> | ]; [cbn in Hn; lia | lia]).
    pose proof (Zdigits2_bounds m ltac:(lia)) as [Hlo _].
    rewrite pow2_split by lia. apply Z.mul_le_mono_nonneg_r; [lia |].
    apply Z.div_le_lower_bound; [lia |].
    rewrite Z.mul_comm, <- pow2_split by lia.
    replace (52 + n) with (Zdigits2 m - 1) by lia. exact Hlo. }
  assert (HY : my * 2 ^ (ey - z) < 2 ^ (53 + (ey - z))).
  { rewrite pow2_split by lia. apply Zmult_lt_compat_r; lia. }
  assert (H1 : m1' * 2 ^ (e + n - z) <= my * 2 ^ (ey - z)).
  { destruct (Z.eq_dec m1' (m / 2 ^ n)) as [-> | NE]; [lia |].
    assert (Hup : m1' = m / 2 ^ n + 1) by lia.
    assert (Hrem : m mod 2 ^ n <> 0) by (intros E; apply NE, X; auto).
    assert (Hnp : 0 < n).
    { destruct (Z.eq_dec n 0) as [E | ]; [| lia].
      rewrite E, Z.pow_0_r, Z.mod_1_r in Hrem. congruence. }
    destruct (Z_le_gt_dec (e + n) ey) as [Hge | Hlt].
    - (* the bound is a multiple of the unit *)
      set (c := my * 2 ^ (ey - (e + n))).
      assert (Hc : my * 2 ^ (ey - z) = c * 2 ^ (e + n - z)).
      { unfold c. rewrite <- Z.mul_assoc, <- pow2_split by lia. f_equal. f_equal. lia. }
      rewrite Hc. apply Z.mul_le_mono_nonneg_r; [lia |].
      rewrite Hc, Hsplit1, Z.mul_assoc in Hle.
      apply Z.mul_le_mono_pos_r in Hle; [| lia].
      pose proof (Z.div_mod m (2 ^ n) ltac:(lia)) as Hdm.
      pose proof (Z.mod_pos_bound m (2 ^ n) H2n) as Hmb.
      nia.
    - (* the bound is below the least value with the new exponent *)
      exfalso.
      pose proof (H52 Hnp ltac:(lia)) as H.
      assert (2 ^ (53 + (ey - z)) <= 2 ^ (52 + (e + n - z))) by (apply Z.pow_le_mono_r; lia).
      lia. }
  (* the second truncation *)
  assert (Hm1' : 0 <= m1') by lia.
  assert (Hm2 : 0 <= m1' / 2 ^ n') by (apply Z.div_pos; lia).
  pose proof (Z.mul_div_le m1' (2 ^ n') H2n') as Hfl'.
  assert (Hsplit2 : 2 ^ (e + n + n' - z) = 2 ^ n' * 2 ^ (e + n - z))
    by (rewrite <- pow2_split by lia; f_equal; lia).
  assert (H2 : m1' / 2 ^ n' * 2 ^ (e + n + n' - z) <= my * 2 ^ (ey - z)).
  { apply Z.le_trans with (2 := H1). rewrite Hsplit2, Z.mul_assoc.
    apply Z.mul_le_mono_nonneg_r; lia. }
  destruct (m1' / 2 ^ n') as [| p | p] eqn:Ep; [now left | right | lia].
  assert (Hfin : e + n + n' <= 971).
  { destruct (Z_le_gt_dec (e + n + n') 971) as [H | H]; [exact H | exfalso].
    (* a shift took place, and the result has 53 digits *)
    assert (Hbig : 2 ^ (52 + (e + n + n' - z)) <= Z.pos p * 2 ^ (e + n + n' - z)).
    { rewrite pow2_split by lia. apply Z.mul_le_mono_nonneg_r; [lia |].
      destruct (Z.eq_dec n' 0) as [E0 | NE0].
      - (* the last shift was the first one *)
        assert (Hnp : 0 < n) by lia.
        rewrite E0, Z.pow_0_r, Z.div_1_r in Ep. subst m1'.
        rewrite E0, Z.add_0_r in *.
        pose proof (H52 Hnp ltac:(lia)) as H5. rewrite pow2_split in H5 by lia.
        apply Z.mul_le_mono_pos_r in H5; lia.
      - assert (0 < m1') by (destruct (Z.eq_dec m1' 0) as [E | ]; [rewrite E in Ep; cbn in Ep; discriminate | lia]).
        pose proof (Zdigits2_bounds m1' ltac:(lia)) as [Hlo _].
        rewrite <- Ep. apply Z.div_le_lower_bound; [lia |].
        rewrite Z.mul_comm, <- pow2_split by lia.
        replace (52 + n') with (Zdigits2 m1' - 1) by lia. exact Hlo. }
    assert (2 ^ (53 + (ey - z)) <= 2 ^ (52 + (e + n + n' - z))) by (apply Z.pow_le_mono_r; lia).
    lia. }
  assert (Hleb : (e + n + n' <=? emax - prec) = true)
    by (apply Z.leb_le; change (emax - prec) with 971; exact Hfin).
  rewrite Hleb. exists p, (e + n + n'). split; [reflexivity |]. split; [lia | exact H2].
Qed.

Lemma binary_round_le (s : bool) (m : BinNums.positive) (e z my ey : Z) :
  e <= 971 -> z <= e -> z <= -1074 -> z <= ey -> -1074 <= ey <= 971 -> 0 < my < 2 ^ 53 ->
  Z.pos m * 2 ^ (e - z) <= my * 2 ^ (ey - z) ->
  binary_round prec emax s m e = S754_zero s
  \/ exists p e2, binary_round prec emax s m e = S754_finite s p e2
                  /\ z <= e2 /\ Z.pos p * 2 ^ (e2 - z) <= my * 2 ^ (ey - z).
Proof.
  intros He Hze Hz0 Hzy Hey Hmy Hle.
  unfold binary_round.
  destruct (shl_align_spec m e (fexp prec emax (Z.pos (digits2_pos m) + e))) as (m' & -> & Hm').
  set (e' := Z.min e (fexp prec emax (Z.pos (digits2_pos m) + e))) in *.
  assert (He' : z <= e' <= e) by (unfold e'; rewrite fexp_eq; lia).
  assert (Hval : Z.pos m' * 2 ^ (e' - z) = Z.pos m * 2 ^ (e - z)).
  { rewrite Hm'. rewrite <- Z.mul_assoc, <- pow2_split by lia. f_equal. f_equal. lia. }
  destruct (round_aux_le s (Z.pos m') e' z my ey ltac:(lia) ltac:(lia) ltac:(lia) Hzy Hey Hmy
              ltac:(rewrite Hval; exact Hle)) as [-> | (p & e2 & -> & H1 & H2)].
  - now left.
  - right. exists p, e2. repeat split; [lia | exact H2].
Qed.

(** one minus a number between zero and one *)
Lemma SFsub_one_le (p : BinNums.positive) (e2 : Z) :
  -1074 <= e2 <= 0 -> Z.pos p <= 2 ^ (- e2) ->
  FloatAxioms.SF64sub SF_one (S754_finite false p e2) = S754_zero false
  \/ exists pT eT, FloatAxioms.SF64sub SF_one (S754_finite false p e2) = S754_finite false pT eT
                   /\ Z.pos pT * 2 ^ (eT + 1074) <= 2 ^ 1074.
Proof.
  intros He2 Hp.
  unfold FloatAxioms.SF64sub, SF_one, SFsub. cbn [cond_Zopp].
  destruct (shl_align_spec 4503599627370496 (-52) (Z.min (-52) e2)) as (a & -> & Ha).
  destruct (shl_align_spec p e2 (Z.min (-52) e2)) as (b & -> & Hb).
  cbn [fst].
  replace (Z.min (-52) (Z.min (-52) e2)) with (Z.min (-52) e2) in Ha by lia.
  replace (Z.min e2 (Z.min (-52) e2)) with (Z.min (-52) e2) in Hb by lia.
  set (ez := Z.min (-52) e2) in *.
  assert (Hez : -1074 <= ez <= -52 /\ ez <= e2) by (unfold ez; lia).
  assert (Ha' : Z.pos a = 2 ^ (- ez)).
  { rewrite Ha. change 4503599627370496 with (2 ^ 52).
    rewrite <- pow2_split by lia. f_equal. lia. }
  destruct (Z.pos a - Z.pos b) as [| d | d] eqn:E; cbn [binary_normalize].
  - now left.
  - assert (Hone : 0 < 2 ^ 52 < 2 ^ 53) by (split; reflexivity).
    assert (Hd : Z.pos d * 2 ^ (ez - -1074) <= 2 ^ 52 * 2 ^ (-52 - -1074)).
    { replace (-52 - -1074) with 1022 by lia. replace (ez - -1074) with (ez + 1074) by lia.
      rewrite <- pow2_split by lia.
      apply Z.le_trans with (Z.pos a * 2 ^ (ez + 1074)).
      * apply Z.mul_le_mono_nonneg_r; [apply Z.lt_le_incl, pow2_pos; lia | lia].
      * rewrite Ha', <- pow2_split by lia. apply Z.pow_le_mono_r; lia. }
    destruct (binary_round_le false d ez (-1074) (2 ^ 52) (-52)
                ltac:(lia) ltac:(lia) ltac:(lia) ltac:(lia) ltac:(lia) Hone Hd)
      as [H | (pT & eT & H & _ & Hb')].
    + left. exact H.
    + right. exists pT, eT. split; [exact H |].
      replace (eT - -1074) with (eT + 1074) in Hb' by lia.
      replace (-52 - -1074) with 1022 in Hb' by lia.
      rewrite <- pow2_split in Hb' by lia. exact Hb'.
  - exfalso.
    assert (Z.pos b <= Z.pos a).
    { rewrite Ha', Hb.
      apply Z.le_trans with (2 ^ (- e2) * 2 ^ (e2 - ez)).
      - apply Z.mul_le_mono_nonneg_r; [apply Z.lt_le_incl, pow2_pos; lia | exact Hp].
      - rewrite <- pow2_split by lia. apply Z.pow_le_mono_r; lia. }
    lia.
Qed.

(** a number of at most one times a positive number *)
Lemma SFmul_le (mT : BinNums.positive) (eT : Z) (mP : BinNums.positive) (eP : Z) :
  bounded prec emax mT eT = true -> bounded prec emax mP eP = true ->
  Z.pos mT * 2 ^ (eT + 1074) <= 2 ^ 1074 ->
  FloatAxioms.SF64mul (S754_finite false mT eT) (S754_finite false mP eP) = S754_zero false
  \/ exists p e2,
       FloatAxioms.SF64mul (S754_finite false mT eT) (S754_finite false mP eP) = S754_finite false p e2
       /\ Z.pos p * 2 ^ (e2 + 2148) <= Z.pos mP * 2 ^ (eP + 2148).
Proof.
  intros BT BP HT.
  destruct (bounded_inv mT eT BT) as [HeT HmT].
  destruct (bounded_inv mP eP BP) as [HeP HmP].
  assert (HeT0 : eT <= 0).
  { destruct (Z_le_gt_dec eT 0) as [H | H]; [exact H | exfalso].
    assert (2 ^ 1074 < 2 ^ (eT + 1074)) by (apply Z.pow_lt_mono_r; lia).
    assert (1 * 2 ^ (eT + 1074) <= Z.pos mT * 2 ^ (eT + 1074))
      by (apply Z.mul_le_mono_nonneg_r; [apply Z.lt_le_incl, pow2_pos; lia | lia]).
    lia. }
  unfold FloatAxioms.SF64mul, SFmul. cbn [xorb].
  destruct (round_aux_le false (Z.pos (mT * mP)) (eT + eP) (-2148) (Z.pos mP) eP)
    as [-> | (p & e2 & -> & _ & H)]; try lia.
  - replace (eT + eP - -2148) with ((eT + 1074) + (eP + 1074)) by lia.
    replace (eP - -2148) with (1074 + (eP + 1074)) by lia.
    rewrite (pow2_split (eT + 1074) (eP + 1074)), (pow2_split 1074 (eP + 1074)) by lia.
    rewrite Pos2Z.inj_mul.
    assert (0 < 2 ^ (eP + 1074)) by (apply pow2_pos; lia).
    replace (Z.pos mT * Z.pos mP * (2 ^ (eT + 1074) * 2 ^ (eP + 1074)))
      with (Z.pos mT * 2 ^ (eT + 1074) * (Z.pos mP * 2 ^ (eP + 1074))) by ring.
    replace (Z.pos mP * (2 ^ 1074 * 2 ^ (eP + 1074)))
      with (2 ^ 1074 * (Z.pos mP * 2 ^ (eP + 1074))) by ring.
    apply Z.mul_le_mono_nonneg_r; [| exact HT].
    apply Z.mul_nonneg_nonneg; lia.
  - now left.
  - right. exists p, e2. split; [reflexivity |].
    replace (e2 - -2148) with (e2 + 2148) in H by lia.
    replace (eP - -2148) with (eP + 2148) in H by lia. exact H.
Qed.

Lemma SF_one_bounded : bounded prec emax 4503599627370496 (-52) = true.
Proof. reflexivity. Qed.

(** the gain and the posterior covariance lie between zero and their bounds *)
Lemma SF_gain_bounds (mP : BinNums.positive) (eP : Z) (Sv : spec_float) :
  -1074 <= eP ->
  Sv = S754_infinity false
  \/ (exists mS eS, Sv = S754_finite false mS eS /\ -1074 <= eS
                    /\ Z.pos mP * 2 ^ (eP + 1074) <= Z.pos mS * 2 ^ (eS + 1074)) ->
  let K := FloatAxioms.SF64div (S754_finite false mP eP) Sv in
  FloatAxioms.valid_binary K = true ->
  K = S754_zero false
  \/ exists p e2, K = S754_finite false p e2 /\ -1074 <= e2 <= 0 /\ Z.pos p <= 2 ^ (- e2).
Proof.
  intros HeP HS K VK. subst K.
  destruct HS as [-> | (mS & eS & -> & HeS & Hle)]; [now left |].
  destruct (SFdiv_le_one mP eP mS eS HeP HeS Hle) as [H | (p & e2 & H & He2 & Hp)].
  - now left.
  - right. exists p, e2. rewrite H in VK. cbn [valid_binary] in VK.
    destruct (bounded_inv p e2 VK) as [Hb _]. repeat split; try assumption; lia.
Qed.

Lemma SF_gain_le_one (K : spec_float) :
  FloatAxioms.valid_binary K = true ->
  K = S754_zero false
  \/ (exists p e2, K = S754_finite false p e2 /\ -1074 <= e2 <= 0 /\ Z.pos p <= 2 ^ (- e2)) ->
  SFleb (S754_zero false) K = true /\ SFleb K SF_one = true.
Proof.
  intros VK [-> | (p & e2 & -> & He2 & Hp)]; [split; reflexivity |].
  split; [reflexivity |]. cbn [valid_binary] in VK.
  unfold SF_one. rewrite SFleb_finite by (exact VK || exact SF_one_bounded).
  apply Z.leb_le. change 4503599627370496 with (2 ^ 52).
  rewrite <- (pow2_split 52) by lia. replace (52 + (-52 + 1074)) with 1074 by lia.
  apply Z.le_trans with (2 ^ (- e2) * 2 ^ (e2 + 1074)).
  - apply Z.mul_le_mono_nonneg_r; [apply Z.lt_le_incl, pow2_pos; lia | exact Hp].
  - rewrite <- pow2_split by lia. apply Z.pow_le_mono_r; lia.
Qed.

Lemma SF_posterior_le (mP : BinNums.positive) (eP : Z) (K : spec_float) :
  bounded prec emax mP eP = true ->
  K = S754_zero false
  \/ (exists p e2, K = S754_finite false p e2 /\ -1074 <= e2 <= 0 /\ Z.pos p <= 2 ^ (- e2)) ->
  let T := FloatAxioms.SF64sub SF_one K in
  let C := FloatAxioms.SF64mul T (S754_finite false mP eP) in
  FloatAxioms.valid_binary T = true -> FloatAxioms.valid_binary C = true ->
  SFleb C (S754_finite false mP eP) = true.
Proof.
  intros BP HK T C VT VC.
  destruct (bounded_inv mP eP BP) as [HeP HmP].
  assert (HT : T = S754_zero false
               \/ exists pT eT, T = S754_finite false pT eT
                                /\ Z.pos pT * 2 ^ (eT + 1074) <= 2 ^ 1074).
  { subst T. destruct HK as [-> | (p & e2 & -> & He2 & Hp)].
    - right. exists 4503599627370496%positive, (-52). split; [reflexivity |].
      change 4503599627370496 with (2 ^ 52). rewrite <- pow2_split by lia. cbn. lia.
    - now apply SFsub_one_le. }
  clearbody T.
  destruct HT as [-> | (pT & eT & -> & HT)]; [reflexivity |].
  cbn [valid_binary] in VT.
  destruct (SFmul_le pT eT mP eP VT BP HT) as [H | (p & e2 & H & Hle)];
    subst C; rewrite H in *; [reflexivity |].
  cbn [valid_binary] in VC. destruct (bounded_inv p e2 VC) as [He2 _].
  rewrite SFleb_finite by assumption. apply Z.leb_le.
  apply (pow2_le_transfer (Z.pos p) (Z.pos mP) (e2 + 2148) (eP + 2148)); try lia.
Qed.

(** rounding between two representable values *)
Lemma binary_round_between (s : bool) (m : BinNums.positive) (e mlo elo mhi ehi : Z) :
  -1074 <= e <= 971 ->
  0 < mlo < 2 ^ 53 -> -1074 <= elo -> 0 < mhi < 2 ^ 53 -> -1074 <= ehi <= 971 ->
  mlo * 2 ^ (elo + 1074) <= Z.pos m * 2 ^ (e + 1074) ->
  Z.pos m * 2 ^ (e + 1074) <= mhi * 2 ^ (ehi + 1074) ->
  exists p e2, binary_round prec emax s m e = S754_finite s p e2
               /\ -1074 <= e2
               /\ mlo * 2 ^ (elo + 1074) <= Z.pos p * 2 ^ (e2 + 1074)
               /\ Z.pos p * 2 ^ (e2 + 1074) <= mhi * 2 ^ (ehi + 1074).
Proof.
  intros He Hmlo Helo Hmhi Hehi Hlo Hhi.
  destruct (binary_round_ge s m e (-1074) mlo elo Hmlo Helo ltac:(lia) ltac:(lia) ltac:(lia))
    as [E | (p & e2 & E & He2 & H1)].
  { replace (elo - -1074) with (elo + 1074) by lia.
    replace (e - -1074) with (e + 1074) by lia. exact Hlo. }
  - destruct (binary_round_le s m e (-1074) mhi ehi ltac:(lia) ltac:(lia) ltac:(lia)
                ltac:(lia) Hehi Hmhi)
      as [E' | (p' & e2' & E' & _)]; try (rewrite E in E'; discriminate).
    replace (ehi - -1074) with (ehi + 1074) by lia.
    replace (e - -1074) with (e + 1074) by lia. exact Hhi.
  - destruct (binary_round_le s m e (-1074) mhi ehi ltac:(lia) ltac:(lia) ltac:(lia)
                ltac:(lia) Hehi Hmhi)
      as [E' | (p' & e2' & E' & _ & H2)].
    { replace (ehi - -1074) with (ehi + 1074) by lia.
      replace (e - -1074) with (e + 1074) by lia. exact Hhi. }
    + rewrite E in E'. discriminate.
    + rewrite E in E'. injection E' as <- <-.
      exists p, e2. split; [exact E |]. split; [lia |].
      replace (elo - -1074) with (elo + 1074) in H1 by lia.
      replace (e2 - -1074) with (e2 + 1074) in H1, H2 by lia.
      replace (ehi - -1074) with (ehi + 1074) in H2 by lia. auto.
Qed.

(** the sum of a positive number and a number of either sign *)
Lemma SFadd_between (mx : BinNums.positive) (ex : Z) (sy : bool) (my : BinNums.positive) (ey : Z)
  (mlo elo mhi ehi : Z) :
  bounded prec emax mx ex = true -> bounded prec emax my ey = true ->
  0 < mlo < 2 ^ 53 -> -1074 <= elo -> 0 < mhi < 2 ^ 53 -> -1074 <= ehi <= 971 ->
  let W := Z.pos mx * 2 ^ (ex + 1074)
           + (if sy then - (Z.pos my * 2 ^ (ey + 1074)) else Z.pos my * 2 ^ (ey + 1074)) in
  mlo * 2 ^ (elo + 1074) <= W -> W <= mhi * 2 ^ (ehi + 1074) ->
  exists p e2, FloatAxioms.SF64add (S754_finite false mx ex) (S754_finite sy my ey) = S754_finite false p e2
               /\ -1074 <= e2
               /\ mlo * 2 ^ (elo + 1074) <= Z.pos p * 2 ^ (e2 + 1074)
               /\ Z.pos p * 2 ^ (e2 + 1074) <= mhi * 2 ^ (ehi + 1074).
Proof.
  intros Bx By Hmlo Helo Hmhi Hehi W Hlo Hhi.
  destruct (bounded_inv mx ex Bx) as [Hex Hmx].
  destruct (bounded_inv my ey By) as [Hey Hmy].
  unfold FloatAxioms.SF64add, SFadd.
  destruct (shl_align_spec mx ex (Z.min ex ey)) as (mx' & -> & Hx').
  destruct (shl_align_spec my ey (Z.min ex ey)) as (my' & -> & Hy').
  cbn [fst].
  replace (Z.min ex (Z.min ex ey)) with (Z.min ex ey) in Hx' by lia.
  replace (Z.min ey (Z.min ex ey)) with (Z.min ex ey) in Hy' by lia.
  set (ez := Z.min ex ey) in *.
  assert (Hez : -1074 <= ez <= 971) by (unfold ez; lia).
  assert (H2 : 0 < 2 ^ (ez + 1074)) by (apply pow2_pos; lia).
  assert (Vx : Z.pos mx * 2 ^ (ex + 1074) = Z.pos mx' * 2 ^ (ez + 1074)).
  { rewrite Hx', <- Z.mul_assoc, <- pow2_split by (unfold ez; lia).
    f_equal. f_equal. lia. }
  assert (Vy : Z.pos my * 2 ^ (ey + 1074) = Z.pos my' * 2 ^ (ez + 1074)).
  { rewrite Hy', <- Z.mul_assoc, <- pow2_split by (unfold ez; lia).
    f_equal. f_equal. lia. }
  assert (HW : W = (cond_Zopp false (Z.pos mx') + cond_Zopp sy (Z.pos my')) * 2 ^ (ez + 1074)).
  { unfold W. rewrite Vx, Vy. destruct sy; cbn [cond_Zopp]; ring. }
  assert (Hlo0 : 0 < mlo * 2 ^ (elo + 1074))
    by (apply Z.mul_pos_pos; [lia | apply pow2_pos; lia]).
  destruct (cond_Zopp false (Z.pos mx') + cond_Zopp sy (Z.pos my')) as [| d | d] eqn:E;
    cbn [binary_normalize].
  - exfalso. lia.
  - apply binary_round_between; try assumption; lia.
  - exfalso. assert (Z.neg d * 2 ^ (ez + 1074) < 0) by (apply Z.mul_neg_pos; lia). lia.
Qed.

(** a draw minus one half *)
Lemma SFsub_half_mag (R : spec_float) :
  FloatAxioms.valid_binary R = true ->
  SFleb (S754_zero false) R = true -> SFltb R SF_one = true ->
  FloatAxioms.valid_binary (FloatAxioms.SF64sub R SF_half) = true ->
  mag_le (FloatAxioms.SF64sub R SF_half) (2 ^ 1073).
Proof.
  intros VR H0 H1 VD.
  destruct (SFleb_zero_inv R H0) as [(s & ->) | [-> | (mr & er & ->)]].
  - right. exists true, 4503599627370496%positive, (-53). split; [reflexivity |].
    change 4503599627370496 with (2 ^ 52). rewrite <- pow2_split by lia. cbn. lia.
  - discriminate H1.
  - cbn [valid_binary] in VR. unfold SF_one in H1.
    rewrite SFltb_finite in H1 by (exact VR || exact SF_one_bounded).
    apply Z.ltb_lt in H1.
    change (Z.pos 4503599627370496 * 2 ^ (-52 + 1074)) with (2 ^ 1074) in H1.
    destruct (bounded_inv mr er VR) as [Her Hmr].
    revert VD. unfold FloatAxioms.SF64sub, SF_half, SFsub. cbn [cond_Zopp].
    destruct (shl_align_spec mr er (Z.min er (-53))) as (a & -> & Ha).
    destruct (shl_align_spec 4503599627370496 (-53) (Z.min er (-53))) as (b & -> & Hb).
    cbn [fst].
    replace (Z.min er (Z.min er (-53))) with (Z.min er (-53)) in Ha by lia.
    replace (Z.min (-53) (Z.min er (-53))) with (Z.min er (-53)) in Hb by lia.
    set (ez := Z.min er (-53)) in *.
    assert (Hez : -1074 <= ez <= -53 /\ ez <= er) by (unfold ez; lia).
    assert (H2 : 0 < 2 ^ (ez + 1074)) by (apply pow2_pos; lia).
    assert (Va : Z.pos a * 2 ^ (ez + 1074) = Z.pos mr * 2 ^ (er + 1074)).
    { rewrite Ha, <- Z.mul_assoc, <- pow2_split by lia. f_equal. f_equal. lia. }
    assert (Vb : Z.pos b * 2 ^ (ez + 1074) = 2 ^ 1073).
    { rewrite Hb. change 4503599627370496 with (2 ^ 52).
      rewrite <- !pow2_split by lia. f_equal. lia. }
    assert (Hhalf : 2 ^ 1074 = 2 * 2 ^ 1073) by reflexivity.
    assert (Hh : 0 < 2 ^ 52 < 2 ^ 53) by (split; reflexivity).
    destruct (Z.pos a - Z.pos b) as [| d | d] eqn:E; cbn [binary_normalize]; intros VD.
    + left. eauto.
    + destruct (binary_round_le false d ez (-1074) (2 ^ 52) (-53)
                  ltac:(lia) ltac:(lia) ltac:(lia) ltac:(lia) ltac:(lia) Hh)
        as [-> | (p & e2 & H & He2 & Hle)].
      * replace (ez - -1074) with (ez + 1074) by lia.
        change (2 ^ 52 * 2 ^ (-53 - -1074)) with (2 ^ 1073).
        assert (Z.pos d * 2 ^ (ez + 1074) = (Z.pos a - Z.pos b) * 2 ^ (ez + 1074))
          by (rewrite E; reflexivity).
        lia.
      * left. eauto.
      * right. exists false, p, e2. split; [exact H |].
        replace (e2 - -1074) with (e2 + 1074) in Hle by lia.
        change (2 ^ 52 * 2 ^ (-53 - -1074)) with (2 ^ 1073) in Hle. exact Hle.
    + destruct (binary_round_le true d ez (-1074) (2 ^ 52) (-53)
                  ltac:(lia) ltac:(lia) ltac:(lia) ltac:(lia) ltac:(lia) Hh)
        as [-> | (p & e2 & H & He2 & Hle)].
      * replace (ez - -1074) with (ez + 1074) by lia.
        change (2 ^ 52 * 2 ^ (-53 - -1074)) with (2 ^ 1073).
        assert (Z.neg d * 2 ^ (ez + 1074) = (Z.pos a - Z.pos b) * 2 ^ (ez + 1074))
          by (rewrite E; reflexivity).
        assert (Z.pos d * 2 ^ (ez + 1074) = - (Z.neg d * 2 ^ (ez + 1074)))
          by (rewrite <- Z.mul_opp_l; reflexivity).
        assert (0 < Z.pos mr * 2 ^ (er + 1074))
          by (apply Z.mul_pos_pos; [lia | apply pow2_pos; lia]).
        lia.
      * left. eauto.
      * right. exists true, p, e2. split; [exact H |].
        replace (e2 - -1074) with (e2 + 1074) in Hle by lia.
        change (2 ^ 52 * 2 ^ (-53 - -1074)) with (2 ^ 1073) in Hle. exact Hle.
Qed.

(** a bounded number times a positive number *)
Lemma SFmul_mag (D : spec_float) (c : Z) (mf : BinNums.positive) (ef : Z) (mhi ehi : Z) :
  FloatAxioms.valid_binary D = true -> mag_le D c ->
  bounded prec emax mf ef = true -> ef <= 0 ->
  0 < mhi < 2 ^ 53 -> -1074 <= ehi <= 971 ->
  c * (Z.pos mf * 2 ^ (ef + 1074)) <= mhi * 2 ^ (ehi + 1074) * 2 ^ 1074 ->
  FloatAxioms.valid_binary (FloatAxioms.SF64mul D (S754_finite false mf ef)) = true ->
  mag_le (FloatAxioms.SF64mul D (S754_finite false mf ef)) (mhi * 2 ^ (ehi + 1074)).
Proof.
  intros VD HD BF Hef Hmhi Hehi Hc VN.
  destruct (bounded_inv mf ef BF) as [Hef' Hmf].
  destruct HD as [(s & ->) | (s & m & e & -> & Hm)].
  - left. cbn. eauto.
  - cbn [valid_binary] in VD. destruct (bounded_inv m e VD) as [He Hmm].
    revert VN. unfold FloatAxioms.SF64mul, SFmul.
    assert (Hval : Z.pos (m * mf) * 2 ^ (e + ef - -2148) <= mhi * 2 ^ (ehi - -2148)).
    { replace (e + ef - -2148) with ((e + 1074) + (ef + 1074)) by lia.
      replace (ehi - -2148) with ((ehi + 1074) + 1074) by lia.
      rewrite (pow2_split (e + 1074)), (pow2_split (ehi + 1074)) by lia.
      replace (Z.pos (m * mf) * (2 ^ (e + 1074) * 2 ^ (ef + 1074)))
        with (Z.pos m * 2 ^ (e + 1074) * (Z.pos mf * 2 ^ (ef + 1074)))
        by (rewrite Pos2Z.inj_mul; ring).
      replace (mhi * (2 ^ (ehi + 1074) * 2 ^ 1074))
        with (mhi * 2 ^ (ehi + 1074) * 2 ^ 1074) by ring.
      apply Z.le_trans with (2 := Hc).
      apply Z.mul_le_mono_nonneg_r; [| exact Hm].
      apply Z.mul_nonneg_nonneg; [lia | apply Z.lt_le_incl, pow2_pos; lia]. }
    destruct (round_aux_le (xorb s false) (Z.pos (m * mf)) (e + ef) (-2148) mhi ehi
                ltac:(lia) ltac:(lia) ltac:(lia) ltac:(lia) Hehi Hmhi Hval)
      as [-> | (p & e2 & -> & _ & H)]; intros VN.
    + left. eauto.
    + right. exists (xorb s false), p, e2. split; [reflexivity |].
      cbn [valid_binary] in VN. destruct (bounded_inv p e2 VN) as [He2 _].
      apply (pow2_le_transfer (Z.pos p) mhi (e2 - -2148) (ehi - -2148)); try lia.
Qed.

End Rounding.

(** ** Properties that hold in every arithmetic *)

Section ComponentProperties.
Context {num : Type} {N : JSNumber num}.
Local Open Scope js_scope.

(** *** Kalman filter *)

(** [kalmanFilter] in terms of its local constants. *)
Lemma kalmanFilter_locals (m : num) (s : KalmanState num) :
  kalmanFilter m s =
  {| estimate := estimate s + kalmanGain s * (m - estimate s);
     errorCovariance := (lit 1 - kalmanGain s) * predictedErrorCov s;
     processNoise := if lambda m s >? lit 3.84 then processNoise s * lit 2.5 else lit 0.01;
     measurementNoise := measurementNoise s;
     innovation := m - estimate s |}.
Proof. reflexivity. Qed.

(** C3. One call of [kalmanFilter] returns the state that the algorithm of the
    specification prescribes: with [predictedErrorCov = errorCovariance +
    processNoise], [innovation = m - estimate] and [innovationCov =
    predictedErrorCov + measurementNoise], the new process noise is the old one
    times 2.5 if [innovation * innovation / innovationCov > 3.84] and 0.01
    otherwise, the gain is [predictedErrorCov / innovationCov], the new estimate
    is [estimate + gain * innovation], the new error covariance is
    [(1 - gain) * predictedErrorCov], and the measurement noise is unchanged. *)
Theorem kalmanFilter_spec (m : num) (s : KalmanState num) :
  let predictedErrorCov_ := errorCovariance s + processNoise s in
  let innovation_ := m - estimate s in
  let innovationCov_ := predictedErrorCov_ + measurementNoise s in
  let kalmanGain_ := predictedErrorCov_ / innovationCov_ in
  kalmanFilter m s =
  {| estimate := estimate s + kalmanGain_ * innovation_;
     errorCovariance := (lit 1 - kalmanGain_) * predictedErrorCov_;
     processNoise :=
       if (innovation_ * innovation_) / innovationCov_ >? lit 3.84
       then processNoise s * lit 2.5
       else lit 0.01;
     measurementNoise := measurementNoise s;
     innovation := innovation_ |}.
Proof. intros. subst predictedErrorCov_ innovation_ innovationCov_ kalmanGain_. reflexivity. Qed.

Lemma kalmanRun_app (ms ms' : list num) : forall s,
  kalmanRun (ms ++ ms') s = kalmanRun ms' (kalmanRun ms s).
Proof. induction ms as [| m ms IH]; intros s; cbn [kalmanRun app]; auto. Qed.

Lemma kalmanFilter_measurementNoise (m : num) (s : KalmanState num) :
  measurementNoise (kalmanFilter m s) = measurementNoise s.
Proof. reflexivity. Qed.

Lemma processNoise_streak (ms : list num) : forall s k,
  processNoise s = inflated k ->
  processNoise (kalmanRun ms s) = inflated (streak ms s k).
Proof.
  induction ms as [| m ms IH]; intros s k Hk; cbn [kalmanRun streak]; [exact Hk |].
  apply IH. rewrite kalmanFilter_locals. cbn [processNoise].
  destruct (lambda m s >? lit 3.84); cbn [inflated]; [now rewrite Hk | reflexivity].
Qed.

Lemma streak_le (ms : list num) : forall s k,
  streak ms s k <= k + length ms.
Proof.
  induction ms as [| m ms IH]; intros s k; cbn [streak length]; [lia |].
  destruct (lambda m s >? lit 3.84).
  - specialize (IH (kalmanFilter m s) (S k)). lia.
  - specialize (IH (kalmanFilter m s) O). lia.
Qed.

(** C2, as amended. In every state reached from the initial state by Kalman
    steps the process noise is [0.01 * 2.5^k], [k] being the number of steps in
    a row, up to the last one, whose [lambda] exceeded 3.84: it is 0.01 after a
    step with [lambda <= 3.84] and 2.5 times its previous value after a step
    with [lambda > 3.84]. *)
Theorem processNoise_levels (ms : list num) :
  processNoise (kalmanRun ms initialKalmanState)
  = inflated (streak ms initialKalmanState 0)
  /\ streak ms initialKalmanState 0 <= length ms
  /\ (forall m s, processNoise (kalmanFilter m s)
                  = if lambda m s >? lit 3.84 then processNoise s * lit 2.5 else lit 0.01).
Proof.
  split; [| split].
  - now apply processNoise_streak.
  - apply (streak_le ms initialKalmanState 0).
  - reflexivity.
Qed.

(** *** CUSUM detector *)

(** C4. One call of [detectAnomaly] returns the sums
    [max(0, positive + x - 0.5)] and [min(0, negative + x + 0.5)], reports an
    anomaly exactly when the new positive sum exceeds 5 or the new negative sum
    is below -5, and gives the direction high in the first case, else low in the
    second, else normal. *)
Theorem detectAnomaly_spec (x : num) (c : CumSum num) :
  let r := detectAnomaly x c in
  let newState := cumsum_ r in
  positive newState = Math_max (lit 0) (positive c + x - lit 0.5)
  /\ negative newState = Math_min (lit 0) (negative c + x + lit 0.5)
  /\ (isAnomaly r = true <->
      (positive newState >? lit 5) = true \/ (negative newState <? - lit 5) = true)
  /\ type_ r = if positive newState >? lit 5 then "high"%string
               else if negative newState <? - lit 5 then "low"%string
               else "normal"%string.
Proof.
  cbn zeta. unfold detectAnomaly. cbn [cumsum_ isAnomaly type_ positive negative].
  repeat split; try reflexivity.
  - apply orb_true_iff.
  - apply orb_true_iff.
Qed.

(** *** Range classifier *)

(** On each of the six configured parameters the classifier answers by the
    bands, both ends included. *)
Lemma getParameterStatus_configured (v : num) (k : string) (range : Range num) :
  In (k, range) ranges ->
  getParameterStatus v k =
  Return (if (v >=? fst (optimal range)) && (v <=? snd (optimal range))
          then "optimal"%string
          else if (v >=? fst (warning range)) && (v <=? snd (warning range))
          then "warning"%string
          else "critical"%string).
Proof.
  unfold ranges. cbn [In]. intros H.
  repeat (destruct H as [H | H];
          [injection H as <- <-; unfold getParameterStatus; cbn;
           repeat match goal with
                  | |- context [if ?b then _ else _] => destruct b
                  end; reflexivity |]).
  contradiction.
Qed.

Lemma find_key_none (k : string) (obj : list (string * Range num)) :
  ~ In k (map fst obj) ->
  find (fun kv => String.eqb (fst kv) k) obj = None.
Proof.
  induction obj as [| [k' r] obj IH]; cbn [map In find fst]; intros H; [reflexivity |].
  destruct (String.eqb_spec k' k) as [-> | Hne]; [tauto |].
  apply IH. tauto.
Qed.

Lemma existsb_key_false (k : string) (keys : list string) :
  ~ In k keys -> existsb (String.eqb k) keys = false.
Proof.
  induction keys as [| k' keys IH]; cbn [In existsb]; intros H; [reflexivity |].
  destruct (String.eqb_spec k k') as [-> | Hne]; [tauto |].
  apply IH. tauto.
Qed.

(** A key that is neither configured nor a member of [Object.prototype]
    classifies as unknown. *)
Lemma getParameterStatus_unknown (v : num) (k : string) :
  ~ In k (map fst ranges) -> ~ In k Object_prototype ->
  getParameterStatus v k = Return "unknown"%string.
Proof.
  intros Hown Hproto. unfold getParameterStatus, get_property.
  rewrite (find_key_none k ranges Hown).
  now rewrite (existsb_key_false k Object_prototype Hproto).
Qed.

(** C5, at the failing input. [toString] is not one of the six configured
    parameters, and the classifier does not return unknown for it: whatever the
    value, the call throws. *)
Theorem getParameterStatus_toString :
  ~ In "toString"%string (map fst ranges)
  /\ forall v : num, getParameterStatus v "toString" = Throw "TypeError"%string.
Proof.
  split.
  - cbn. intros H. repeat (destruct H as [H | H]; [discriminate |]). contradiction.
  - reflexivity.
Qed.

(** *** Operator actions *)

(** C10. [clearAlerts] empties the alert list and changes nothing else: the
    filter state, the detector state, the history, the three counters and the
    running flag (and the current values) are what they were. *)
Theorem clearAlerts_frame (st : Dashboard num) :
  alerts (clearAlerts st) = []
  /\ kalmanState (clearAlerts st) = kalmanState st
  /\ cumsum (clearAlerts st) = cumsum st
  /\ sensorData (clearAlerts st) = sensorData st
  /\ totalReadings (systemStats (clearAlerts st)) = totalReadings (systemStats st)
  /\ anomaliesDetected (systemStats (clearAlerts st)) = anomaliesDetected (systemStats st)
  /\ dataAccuracy (systemStats (clearAlerts st)) = dataAccuracy (systemStats st)
  /\ isRunning (clearAlerts st) = isRunning st
  /\ currentValues (clearAlerts st) = currentValues st.
Proof. repeat split. Qed.

(** What [resetSystem] does restore: history, alerts, detector and counters. *)
Lemma resetSystem_resets (st : Dashboard num) :
  sensorData (resetSystem st) = []
  /\ alerts (resetSystem st) = []
  /\ cumsum (resetSystem st) = initialCumsum
  /\ systemStats (resetSystem st) = initialStats
  /\ isRunning (resetSystem st) = isRunning st.
Proof. repeat split. Qed.

(** What it does not touch: the filter state. *)
Lemma resetSystem_kalmanState (st : Dashboard num) :
  kalmanState (resetSystem st) = kalmanState st.
Proof. reflexivity. Qed.

(** *** The timer callback *)

(** A tick replaces the filter state by one Kalman step on the measurement
    drawn in that tick. *)
Lemma tick_kalmanState (env : Env num) (st : Dashboard num) :
  kalmanState (tick env st)
  = kalmanFilter (rawMoisture (sample env st)) (kalmanState st).
Proof.
  unfold tick. destruct (isAnomaly (anomalyResult (sample env st)));
    cbn [setSystemStats setAlerts setSensorData setCurrentValues setCumsum
         setKalmanState kalmanState];
    unfold sample, generateSensorReading, bind, Math_random, ret;
    destruct (random env 0 <? lit 0.04); reflexivity.
Qed.

Lemma constant_stream_S (m : num) (k : nat) :
  constant_stream m (S k) = kalmanFilter m (constant_stream m k).
Proof.
  unfold constant_stream. cbn [repeat]. rewrite repeat_cons.
  now rewrite kalmanRun_app.
Qed.

End ComponentProperties.

(** ** The bounded history and the bounded alert list *)

Section BoundedContainers.
Context {num : Type} {N : JSNumber num}.

Lemma tick_sensorData (env : Env num) (st : Dashboard num) :
  sensorData (tick env st) = lastn 25 (sensorData st ++ [newReading env st]).
Proof.
  unfold tick. destruct (isAnomaly (anomalyResult (sample env st)));
    cbn [setSystemStats setAlerts setSensorData setCurrentValues setCumsum
         setKalmanState sensorData];
    exact (slice_last_n 24 _).
Qed.

Lemma tick_alerts (env : Env num) (st : Dashboard num) :
  alerts (tick env st) =
  if isAnomaly (anomalyResult (sample env st))
  then firstn 8 (alertMsg env st :: alerts st)
  else alerts st.
Proof.
  unfold tick. destruct (isAnomaly (anomalyResult (sample env st)));
    cbn [setSystemStats setAlerts setSensorData setCurrentValues setCumsum
         setKalmanState alerts]; [| reflexivity].
  exact (slice_first_n 8 _).
Qed.

(** Without a reset, the history is the fold of the appended records. *)
Lemma run_sensorData (acts : list (Action num)) : forall st st',
  run acts st = Some st' ->
  existsb is_reset acts = false ->
  sensorData st'
  = fold_left (fun h r => lastn 25 (h ++ [r])) (readings acts st) (sensorData st).
Proof.
  induction acts as [| a acts IH]; intros st st' Hrun Hno.
  - injection Hrun as <-. reflexivity.
  - cbn [run] in Hrun. cbn [readings].
    destruct (step a st) as [st1 |] eqn:Hstep; [| discriminate].
    cbn [existsb] in Hno. apply orb_false_iff in Hno as [Ha Hno].
    specialize (IH st1 st' Hrun Hno).
    destruct a; cbn [step] in Hstep.
    + destruct (isRunning st); [| discriminate]. injection Hstep as <-.
      cbn [fold_left]. now rewrite IH, tick_sensorData.
    + injection Hstep as <-. exact IH.
    + injection Hstep as <-. exact IH.
    + discriminate Ha.
Qed.

(** Without a clear or a reset, the alert list is the fold of the raised
    alerts. *)
Lemma run_alerts (acts : list (Action num)) : forall st st',
  run acts st = Some st' ->
  existsb is_clear acts = false ->
  alerts st'
  = fold_left (fun s x => firstn 8 (x :: s)) (raised acts st) (alerts st).
Proof.
  induction acts as [| a acts IH]; intros st st' Hrun Hno.
  - injection Hrun as <-. reflexivity.
  - cbn [run] in Hrun. cbn [raised].
    destruct (step a st) as [st1 |] eqn:Hstep; [| discriminate].
    cbn [existsb] in Hno. apply orb_false_iff in Hno as [Ha Hno].
    specialize (IH st1 st' Hrun Hno).
    destruct a; cbn [step] in Hstep.
    + destruct (isRunning st); [| discriminate]. injection Hstep as <-.
      rewrite IH, tick_alerts.
      now destruct (isAnomaly (anomalyResult (sample env st))).
    + injection Hstep as <-. exact IH.
    + discriminate Ha.
    + discriminate Ha.
Qed.

(** C6. In a run without a reset in which the ticks are at least 25 (so, once
    more than 25 ticks have occurred since the start or the last reset), the
    history has exactly 25 records: the 25 most recent ones, oldest first.  In
    a run without a clear or a reset in which at least 8 alerts are raised (so,
    once more than 8 are), the alert list has exactly 8 alerts: the 8 most
    recent ones, newest first. *)
Theorem bounded_containers (acts : list (Action num)) (st st' : Dashboard num) :
  run acts st = Some st' ->
  (existsb is_reset acts = false ->
   25 <= length (readings acts st) ->
   length (sensorData st') = 25
   /\ sensorData st' = lastn 25 (readings acts st))
  /\ (existsb is_clear acts = false ->
      8 <= length (raised acts st) ->
      length (alerts st') = 8
      /\ alerts st' = firstn 8 (rev (raised acts st))).
Proof.
  intros Hrun. split.
  - intros Hno Hlen.
    assert (Heq : sensorData st' = lastn 25 (readings acts st)).
    { rewrite (run_sensorData acts st st' Hrun Hno).
      rewrite window_fold by (intros E; rewrite E in Hlen; cbn in Hlen; lia).
      now apply lastn_app_long. }
    split; [| exact Heq]. rewrite Heq, lastn_length. lia.
  - intros Hno Hlen.
    assert (Heq : alerts st' = firstn 8 (rev (raised acts st))).
    { rewrite (run_alerts acts st st' Hrun Hno).
      rewrite stack_fold by (intros E; rewrite E in Hlen; cbn in Hlen; lia).
      rewrite firstn_app.
      replace (8 - length (rev (raised acts st))) with 0
        by (rewrite length_rev; lia).
      cbn [firstn]. apply app_nil_r. }
    split; [| exact Heq]. rewrite Heq, length_firstn, length_rev. lia.
Qed.

End BoundedContainers.

(** ** Exact arithmetic *)

Section ExactArithmetic.
Local Open Scope Q_scope.

Lemma Q_updated_covariance_nonneg (P r : Q) :
  0 < P -> 0 < r -> 0 <= (1 - P * / (P + r)) * P.
Proof.
  intros HP Hr.
  assert (Hi : 0 < / (P + r)) by (apply Qinv_lt_0_compat; lra).
  assert (Hone : (P + r) * / (P + r) == 1) by (apply Qmult_inv_r; lra).
  set (i := / (P + r)) in *.
  nra.
Qed.

(** Unfolds the [exact] operations down to [Q], where [lra] applies. *)
Ltac exact_to_Q :=
  cbv [num_add num_sub num_mul num_div num_neg lit exact] in *;
  unfold Qcle, Qclt, Qcdiv, Qcminus, Qcplus, Qcmult, Qcopp, Qcinv, Q2Qc in *;
  cbn [this] in *; rewrite ?Qred_correct in *.

Lemma exact_innovationCov_pos (s : KalmanState Qc) :
  well_formed s -> (0 < innovationCov s)%Qc.
Proof.
  unfold well_formed, innovationCov, predictedErrorCov.
  destruct s as [x e q r y]. cbn [errorCovariance processNoise measurementNoise].
  exact_to_Q. lra.
Qed.

Lemma exact_step_errorCovariance (m : Qc) (s : KalmanState Qc) :
  well_formed s -> (0 <= errorCovariance (kalmanFilter m s))%Qc.
Proof.
  unfold well_formed. rewrite kalmanFilter_locals.
  unfold kalmanGain, innovationCov, predictedErrorCov.
  destruct s as [x e q r y].
  cbn [errorCovariance processNoise measurementNoise estimate].
  exact_to_Q. intros (He & Hq & Hr).
  apply Q_updated_covariance_nonneg; lra.
Qed.

Lemma exact_step_well_formed (m : Qc) (s : KalmanState Qc) :
  well_formed s -> well_formed (kalmanFilter m s).
Proof.
  intros H. split; [now apply exact_step_errorCovariance |].
  destruct H as (_ & Hq & Hr). split; [| exact Hr].
  rewrite kalmanFilter_locals. cbn [processNoise].
  destruct (num_lt (lit 3.84) (lambda m s)); exact_to_Q; lra.
Qed.

Lemma exact_initial_well_formed : well_formed initialKalmanState.
Proof. unfold well_formed. cbn. exact_to_Q. lra. Qed.

Lemma exact_run_well_formed (ms : list Qc) : forall s,
  well_formed s -> well_formed (kalmanRun ms s).
Proof.
  induction ms as [| m ms IH]; intros s H; cbn [kalmanRun]; [exact H |].
  apply IH. now apply exact_step_well_formed.
Qed.

(** One step and any number of steps from a well-formed state, in exact
    arithmetic. *)
Lemma kalman_step_safe (s : KalmanState Qc) :
  (0 <= errorCovariance s)%Qc ->
  (0 < processNoise s)%Qc ->
  (0 < measurementNoise s)%Qc ->
  (0 < innovationCov s)%Qc
  /\ (forall m, 0 <= errorCovariance (kalmanFilter m s))%Qc
  /\ (forall ms, 0 <= errorCovariance (kalmanRun ms s))%Qc.
Proof.
  intros He Hq Hr.
  assert (H : well_formed s) by (unfold well_formed; auto).
  split; [now apply exact_innovationCov_pos |].
  split; [intros m; now apply exact_step_errorCovariance |].
  intros ms. now apply exact_run_well_formed.
Qed.

(** The same at the level of the component: in every state that a run
    reaches from the initial one, the filter state is well formed. *)
Lemma run_well_formed (acts : list (Action Qc)) : forall st st',
  well_formed (kalmanState st) ->
  run acts st = Some st' ->
  well_formed (kalmanState st').
Proof.
  induction acts as [| a acts IH]; intros st st' H Hrun.
  - injection Hrun as <-. exact H.
  - cbn [run] in Hrun. destruct (step a st) as [st1 |] eqn:Hstep; [| discriminate].
    apply (IH st1 st'); [| exact Hrun].
    destruct a; cbn [step] in Hstep.
    + destruct (isRunning st); [| discriminate]. injection Hstep as <-.
      rewrite tick_kalmanState. now apply exact_step_well_formed.
    + injection Hstep as <-. exact H.
    + injection Hstep as <-. exact H.
    + injection Hstep as <-. exact H.
Qed.

Lemma reachable_well_formed (st : Dashboard Qc) :
  reachable st -> well_formed (kalmanState st).
Proof.
  intros [acts Hrun].
  apply (run_well_formed acts initialDashboard st); [| exact Hrun].
  exact exact_initial_well_formed.
Qed.

(** *** The constant stream equal to the initial estimate *)

Lemma Q_updated_covariance_monotone (A B r : Q) :
  0 < A -> A <= B -> 0 < r ->
  (1 - A * / (A + r)) * A <= (1 - B * / (B + r)) * B.
Proof.
  intros HA HAB Hr.
  assert (Hi : 0 < / (A + r)) by (apply Qinv_lt_0_compat; lra).
  assert (Hj : 0 < / (B + r)) by (apply Qinv_lt_0_compat; lra).
  assert (Hione : (A + r) * / (A + r) == 1) by (apply Qmult_inv_r; lra).
  assert (Hjone : (B + r) * / (B + r) == 1) by (apply Qmult_inv_r; lra).
  set (i := / (A + r)) in *. set (j := / (B + r)) in *.
  assert (Hji : j <= i).
  { assert (E : i - j == i * j * (B - A)).
    { transitivity (i * ((B + r) * j) - j * ((A + r) * i)).
      - rewrite Hione, Hjone. ring.
      - ring. }
    assert (0 <= i * j * (B - A)).
    { apply Qmult_le_0_compat; [apply Qmult_le_0_compat |]; lra. }
    lra. }
  assert (E1 : (1 - A * i) * A == r * (1 - r * i)).
  { transitivity ((((A + r) * i) - A * i) * A); [rewrite Hione; ring |].
    transitivity (r * (((A + r) * i) - r * i)); [ring | rewrite Hione; ring]. }
  assert (E2 : (1 - B * j) * B == r * (1 - r * j)).
  { transitivity ((((B + r) * j) - B * j) * B); [rewrite Hjone; ring |].
    transitivity (r * (((B + r) * j) - r * j)); [ring | rewrite Hjone; ring]. }
  rewrite E1, E2.
  assert (r * (r * j) <= r * (r * i)).
  { apply Qmult_le_l; [lra |]. apply Qmult_le_l; [lra |]. exact Hji. }
  lra.
Qed.

(** A measurement equal to the estimate leaves the estimate where it is and
    the process noise at its base level. *)
Lemma exact_step_on_target (x : Qc) (s : KalmanState Qc) :
  estimate s = x ->
  estimate (kalmanFilter x s) = x
  /\ processNoise (kalmanFilter x s) = lit 0.01.
Proof.
  intros Hx. rewrite kalmanFilter_locals. cbn [estimate processNoise].
  split.
  - rewrite Hx. generalize (kalmanGain s). intros g.
    cbv [num_add num_sub num_mul exact]. ring.
  - assert (E : lambda x s = Q2Qc 0).
    { unfold lambda. rewrite Hx. generalize (innovationCov s). intros S.
      cbv [num_add num_sub num_mul num_div exact]. unfold Qcdiv. ring. }
    rewrite E. reflexivity.
Qed.

Lemma exact_stream_invariant (k : nat) :
  let s := constant_stream (N:=exact) (lit 45) k in
  estimate s = lit 45
  /\ processNoise s = lit 0.01
  /\ measurementNoise s = lit 0.5
  /\ well_formed s.
Proof.
  induction k as [| k IH].
  - cbn zeta. repeat split; try reflexivity; apply exact_initial_well_formed.
  - cbn zeta in *. rewrite constant_stream_S.
    destruct IH as (Hx & Hq & Hr & Hwf).
    destruct (exact_step_on_target _ _ Hx) as [Hx' Hq'].
    repeat split; try assumption; now apply exact_step_well_formed.
Qed.

Lemma exact_stream_monotone (k : nat) :
  (errorCovariance (constant_stream (N:=exact) (lit 45) (S k))
   <= errorCovariance (constant_stream (N:=exact) (lit 45) k))%Qc.
Proof.
  induction k as [| k IH].
  - apply Qle_bool_imp_le. vm_compute. reflexivity.
  - rewrite (constant_stream_S (lit 45) (S k)).
    rewrite (constant_stream_S (lit 45) k) at 2.
    destruct (exact_stream_invariant (S k)) as (_ & Hq1 & Hr1 & (He1 & _)).
    destruct (exact_stream_invariant k) as (_ & Hq0 & Hr0 & _).
    cbn zeta in *.
    rewrite !kalmanFilter_locals. cbn [errorCovariance].
    unfold kalmanGain, innovationCov, predictedErrorCov.
    rewrite Hq1, Hr1, Hq0, Hr0.
    revert IH He1.
    generalize (errorCovariance (constant_stream (lit 45) (S k))).
    generalize (errorCovariance (constant_stream (lit 45) k)).
    intros b a. exact_to_Q. intros Hab Ha.
    apply (Q_updated_covariance_monotone (a + 0.01) (b + 0.01) 0.5); lra.
Qed.

End ExactArithmetic.

(** ** Concrete runs, in binary64 and in exact arithmetic *)

Section ConcreteRuns.
Local Open Scope js_scope.

Ltac decide_by_computation :=
  first [ vm_compute; reflexivity
        | apply Qc_is_canon; vm_compute; reflexivity ].

(** Every literal of the source is read by [lit] as the double that the
    JavaScript engine reads. *)
Lemma source_literals_agree :
  Forall (fun p => fst p = snd p) LiteralCheck.source_literals.
Proof. repeat constructor. Qed.

(** The boundary cases of the classifier that the specification lists. *)
Lemma classification_boundaries :
  getParameterStatus (N:=binary64) (lit 40) "moisture" = Return "optimal"%string
  /\ getParameterStatus (N:=binary64) (lit 36) "moisture" = Return "warning"%string
  /\ getParameterStatus (N:=binary64) (lit 10) "moisture" = Return "critical"%string
  /\ getParameterStatus (N:=exact) (lit 40) "moisture" = Return "optimal"%string
  /\ getParameterStatus (N:=exact) (lit 36) "moisture" = Return "warning"%string
  /\ getParameterStatus (N:=exact) (lit 10) "moisture" = Return "critical"%string.
Proof. repeat split; vm_compute; reflexivity. Qed.

(** C8. The end-to-end scenario, in binary64 and in exact arithmetic: from the
    initial state the measurement 70 gives [predictedErrorCov = 1.01],
    [innovation = 25], [innovationCov = 1.51], [lambda] within 0.1 of 413.9 and
    above 3.84, [processNoise = 0.025], [kalmanGain] within 0.001 of 0.669,
    [estimate] within 0.1 of 61.7 and [errorCovariance] within 0.001 of 0.335;
    the innovation 25 fed to a fresh detector gives [positive = 24.5 > 5], an
    anomaly, of direction high. *)
Theorem end_to_end_scenario_holds :
  end_to_end_scenario (N:=binary64) /\ end_to_end_scenario (N:=exact).
Proof.
  split; unfold end_to_end_scenario; cbn zeta; repeat split; decide_by_computation.
Qed.

(** The exact values behind the approximations of the scenario. *)
Lemma end_to_end_exact_values :
  let s := initialKalmanState (N:=exact) in
  lambda (lit 70) s = Q2Qc (62500 # 151)
  /\ kalmanGain s = Q2Qc (101 # 151)
  /\ estimate (kalmanFilter (lit 70) s) = Q2Qc (9320 # 151)
  /\ errorCovariance (kalmanFilter (lit 70) s) = Q2Qc (101 # 302).
Proof. cbn zeta. repeat split; decide_by_computation. Qed.

(** C2, refuted as stated. After the measurements 65 and 25, both of which
    the generator produces, the process noise is neither 0.01 nor 0.025 (it is
    0.0625), in binary64 and in exact arithmetic alike. *)
Lemma processNoise_third_level :
  ~ two_level_processNoise (N:=binary64) /\ ~ two_level_processNoise (N:=exact).
Proof.
  split; intros H.
  - specialize (H [lit 65; lit 25]). cbn zeta in H.
    destruct H as [H | H];
      apply (f_equal (fun x => PrimFloat.ltb x (lit 0.05))) in H;
      vm_compute in H; discriminate.
  - specialize (H [lit 65; lit 25]). cbn zeta in H.
    destruct H as [H | H];
      apply (f_equal (fun x => Qle_bool (this x) 0.05)) in H;
      vm_compute in H; discriminate.
Qed.

Lemma processNoise_after_two_surprises :
  processNoise (kalmanRun (N:=binary64) [lit 65; lit 25] initialKalmanState) = lit 0.0625
  /\ processNoise (kalmanRun (N:=exact) [lit 65; lit 25] initialKalmanState) = lit 0.0625.
Proof. split; decide_by_computation. Qed.

Lemma binary64_stream_first_50 (k : nat) :
  k < 50 ->
  (errorCovariance (constant_stream (N:=binary64) (lit 45) (S k))
   <=? errorCovariance (constant_stream (N:=binary64) (lit 45) k)) = true
  /\ estimate (constant_stream (N:=binary64) (lit 45) (S k)) = lit 45.
Proof.
  intros Hk.
  do 50 (destruct k as [| k]; [split; vm_compute; reflexivity |]).
  exfalso. lia.
Qed.

(** C9. On the constant measurement 45, the value of the initial estimate, the
    error covariance after tick [k + 1] is at most the one after tick [k], for
    each of the first 50 ticks, and the estimate is 45 after each of them: in
    binary64, and in exact arithmetic (where both hold at every tick). *)
Theorem constant_stream_convergence (k : nat) :
  k < 50 ->
  ((errorCovariance (constant_stream (N:=binary64) (lit 45) (S k))
    <=? errorCovariance (constant_stream (N:=binary64) (lit 45) k)) = true
   /\ estimate (constant_stream (N:=binary64) (lit 45) (S k)) = lit 45)
  /\ ((errorCovariance (constant_stream (N:=exact) (lit 45) (S k))
       <= errorCovariance (constant_stream (N:=exact) (lit 45) k))%Qc
      /\ estimate (constant_stream (N:=exact) (lit 45) (S k)) = lit 45).
Proof.
  intros Hk. split; [now apply binary64_stream_first_50 |].
  split; [apply exact_stream_monotone | apply (exact_stream_invariant (S k))].
Qed.

Lemma constant_stream_convergence_at_49 :
  ((errorCovariance (constant_stream (N:=binary64) (lit 45) 50)
    <=? errorCovariance (constant_stream (N:=binary64) (lit 45) 49)) = true
   /\ estimate (constant_stream (N:=binary64) (lit 45) 50) = lit 45)
  /\ ((errorCovariance (constant_stream (N:=exact) (lit 45) 50)
       <= errorCovariance (constant_stream (N:=exact) (lit 45) 49))%Qc
      /\ estimate (constant_stream (N:=exact) (lit 45) 50) = lit 45).
Proof. apply (constant_stream_convergence 49). lia. Defined.

(** C1, at the failing input. After the start button and one tick (measurement
    47) the state is reachable; [resetSystem] leaves its filter state as the tick
    made it, with innovation 2, which is not the initial filter state. *)
Theorem resetSystem_stale_kalmanState :
  reachable (final (N:=binary64) one_tick)
  /\ kalmanState (resetSystem (final (N:=binary64) one_tick))
     = kalmanState (final one_tick)
  /\ innovation (kalmanState (resetSystem (final (N:=binary64) one_tick))) = lit 2
  /\ kalmanState (resetSystem (final (N:=binary64) one_tick)) <> initialKalmanState.
Proof.
  split; [exists one_tick; vm_compute; reflexivity |].
  repeat split; try (vm_compute; reflexivity).
  intros H. apply (f_equal (fun s => PrimFloat.ltb (innovation s) (lit 1))) in H.
  vm_compute in H. discriminate.
Qed.

(** The third level of the process noise in a run of the component: two ticks
    with an injected anomaly each, upwards and then downwards. *)
Lemma processNoise_third_level_in_a_run :
  reachable (final (N:=binary64) surge_then_slump)
  /\ processNoise (kalmanState (final (N:=binary64) surge_then_slump)) = lit 0.0625.
Proof.
  split; [exists surge_then_slump |]; vm_compute; reflexivity.
Qed.

Lemma bounded_containers_dry_spell :
  (length (sensorData (final (N:=binary64) dry_spell)) = 25
   /\ sensorData (final (N:=binary64) dry_spell)
      = lastn 25 (readings dry_spell initialDashboard))
  /\ (length (alerts (final (N:=binary64) dry_spell)) = 8
      /\ alerts (final (N:=binary64) dry_spell)
         = firstn 8 (rev (raised dry_spell initialDashboard))).
Proof.
  destruct (bounded_containers (N:=binary64) dry_spell initialDashboard (final dry_spell))
    as [H1 H2]; [vm_compute; reflexivity |].
  split; [apply H1 | apply H2]; try reflexivity; vm_compute; lia.
Defined.

(** C7, refuted as stated. In binary64 the state with
    [errorCovariance = processNoise = 1e308] and [measurementNoise = 0.5] meets
    the three conditions, its predicted error covariance overflows, the gain is
    [Infinity / Infinity] and the step returns an [errorCovariance] that is not
    a number; and the filter alone, fed 781 measurements that swing between
    [1e200] and [-1e200], inflates the process noise to [Infinity] and reaches
    such a state from the initial one. *)
Lemma kalman_step_overflows :
  ~ step_safe_as_stated (N:=binary64) /\ ~ reachable_safe_as_stated (N:=binary64).
Proof.
  split; intros H.
  - destruct (H (lit 45) Overflow.overflowing_state) as [_ Hneg];
      try (vm_compute; reflexivity).
    vm_compute in Hneg. discriminate.
  - specialize (H (Overflow.swinging 781)). vm_compute in H. discriminate.
Qed.

End ConcreteRuns.

(** ** Further properties that hold in every arithmetic *)

Section FurtherComponentProperties.
Context {num : Type} {N : JSNumber num}.
Local Open Scope js_scope.

(** *** Filter and detector *)

Lemma kalmanRun_measurementNoise (ms : list num) : forall s,
  measurementNoise (kalmanRun ms s) = measurementNoise s.
Proof.
  induction ms as [| m ms IH]; intros s; cbn [kalmanRun]; [reflexivity |].
  now rewrite IH.
Qed.

Lemma run_measurementNoise (acts : list (Action num)) : forall st st',
  run acts st = Some st' ->
  measurementNoise (kalmanState st') = measurementNoise (kalmanState st).
Proof.
  induction acts as [| a acts IH]; intros st st' Hrun.
  - injection Hrun as <-. reflexivity.
  - cbn [run] in Hrun. destruct (step a st) as [st1 |] eqn:Hstep; [| discriminate].
    rewrite (IH st1 st' Hrun).
    destruct a; cbn [step] in Hstep.
    + destruct (isRunning st); [| discriminate]. injection Hstep as <-.
      now rewrite tick_kalmanState.
    + injection Hstep as <-. reflexivity.
    + injection Hstep as <-. reflexivity.
    + injection Hstep as <-. reflexivity.
Qed.

(** X1. The measurement noise is never adapted: in every state that the
    component reaches it is the 0.5 of the initial state, whatever was
    measured, and a run of the filter alone leaves it as it found it. *)
Theorem measurementNoise_fixed (st : Dashboard num) :
  reachable st ->
  measurementNoise (kalmanState st) = lit 0.5
  /\ forall ms, measurementNoise (kalmanRun ms (kalmanState st)) = lit 0.5.
Proof.
  intros [acts Hrun].
  assert (H : measurementNoise (kalmanState st) = lit 0.5)
    by exact (run_measurementNoise acts initialDashboard st Hrun).
  split; [exact H |]. intros ms. now rewrite kalmanRun_measurementNoise.
Qed.

(** X2. The verdict of the detector is consistent: the direction is one of
    high, low and normal, and it is normal exactly when no anomaly is
    reported. *)
Theorem detectAnomaly_verdict (x : num) (c : CumSum num) :
  let r := detectAnomaly x c in
  (type_ r = "high"%string \/ type_ r = "low"%string \/ type_ r = "normal"%string)
  /\ (isAnomaly r = false <-> type_ r = "normal"%string).
Proof.
  cbn zeta. unfold detectAnomaly. cbn [isAnomaly type_].
  destruct (Math_max (lit 0) (positive c + x - lit 0.5) >? lit 5);
    destruct (Math_min (lit 0) (negative c + x + lit 0.5) <? - lit 5);
    cbn [orb]; (split; [auto | split; (reflexivity || discriminate)]).
Qed.

(** *** Alerts *)

Lemma alertMsg_shape (env : Env num) (st : Dashboard num) :
  alert_shape (alertMsg env st).
Proof.
  unfold alert_shape, alertMsg. cbn [parameter type message].
  split; [reflexivity |].
  destruct (String.eqb (type_ (anomalyResult (sample env st))) "high"); auto.
Qed.

(** X3. When the detector fires, the alert carries the direction it found:
    a warning with the high-moisture message for the direction high, critical
    with the low-moisture message for the direction low; no alert is built
    from the direction normal. *)
Theorem alert_severity (env : Env num) (st : Dashboard num) :
  isAnomaly (anomalyResult (sample env st)) = true ->
  (type_ (anomalyResult (sample env st)) = "high"%string
   /\ type (alertMsg env st) = "warning"%string
   /\ message (alertMsg env st)
      = "High moisture detected - Check irrigation system"%string)
  \/ (type_ (anomalyResult (sample env st)) = "low"%string
      /\ type (alertMsg env st) = "critical"%string
      /\ message (alertMsg env st)
         = "Low moisture detected - Consider irrigation"%string).
Proof.
  intros Hfire. unfold alertMsg. cbn [type message].
  assert (Hr : exists x c, anomalyResult (sample env st) = detectAnomaly x c).
  { unfold sample, generateSensorReading, bind, Math_random, ret.
    destruct (random env 0 <? lit 0.04); cbn [fst anomalyResult]; eauto. }
  destruct Hr as (x & c & Hr). rewrite Hr in *.
  destruct (detectAnomaly_verdict x c) as [Hdir Hnormal]. cbn zeta in *.
  destruct Hdir as [H | [H | H]]; rewrite H.
  - left. auto.
  - right. auto.
  - apply Hnormal in H. congruence.
Qed.

Lemma In_firstn {A : Type} (y : A) (n : nat) : forall l,
  In y (firstn n l) -> In y l.
Proof.
  induction n as [| n IH]; intros l H; [contradiction |].
  destruct l as [| x l]; [contradiction |].
  cbn [firstn In] in *. destruct H as [H | H]; [now left | right; now apply IH].
Qed.

Lemma Forall_firstn_cons {A : Type} (P : A -> Prop) (n : nat) (x : A) (l : list A) :
  P x -> Forall P l -> Forall P (firstn n (x :: l)).
Proof.
  intros Hx Hl. apply Forall_forall. intros y Hy.
  apply In_firstn in Hy. destruct Hy as [<- | Hy]; [exact Hx |].
  now apply (proj1 (Forall_forall P l) Hl).
Qed.

Lemma run_alert_shape (acts : list (Action num)) : forall st st',
  run acts st = Some st' ->
  Forall alert_shape (alerts st) ->
  Forall alert_shape (alerts st').
Proof.
  induction acts as [| a acts IH]; intros st st' Hrun Hall.
  - injection Hrun as <-. exact Hall.
  - cbn [run] in Hrun. destruct (step a st) as [st1 |] eqn:Hstep; [| discriminate].
    apply (IH st1 st' Hrun).
    destruct a; cbn [step] in Hstep.
    + destruct (isRunning st); [| discriminate]. injection Hstep as <-.
      rewrite tick_alerts.
      destruct (isAnomaly (anomalyResult (sample env st))); [| exact Hall].
      apply Forall_firstn_cons; [apply alertMsg_shape | exact Hall].
    + injection Hstep as <-. exact Hall.
    + injection Hstep as <-. constructor.
    + injection Hstep as <-. constructor.
Qed.

(** X4. Every alert on display, in every state that the component reaches,
    is about soil moisture and is either a warning with the high-moisture
    message or critical with the low-moisture message. *)
Theorem alerts_well_formed (st : Dashboard num) :
  reachable st -> Forall alert_shape (alerts st).
Proof.
  intros [acts Hrun].
  apply (run_alert_shape acts initialDashboard st Hrun). constructor.
Qed.

(** *** History and alert list *)

Lemma run_lengths (acts : list (Action num)) : forall st st',
  run acts st = Some st' ->
  length (sensorData st) <= 25 /\ length (alerts st) <= 8 ->
  length (sensorData st') <= 25 /\ length (alerts st') <= 8.
Proof.
  induction acts as [| a acts IH]; intros st st' Hrun Hlen.
  - injection Hrun as <-. exact Hlen.
  - cbn [run] in Hrun. destruct (step a st) as [st1 |] eqn:Hstep; [| discriminate].
    apply (IH st1 st' Hrun).
    destruct a; cbn [step] in Hstep.
    + destruct (isRunning st); [| discriminate]. injection Hstep as <-.
      rewrite tick_sensorData, tick_alerts, lastn_length.
      split; [lia |].
      destruct (isAnomaly (anomalyResult (sample env st))); [| tauto].
      rewrite length_firstn. lia.
    + injection Hstep as <-. exact Hlen.
    + injection Hstep as <-. cbn. split; [tauto | lia].
    + injection Hstep as <-. cbn. lia.
Qed.

(** X5. The two containers never overflow: in every state that the component
    reaches the history holds at most 25 records and the alert list at most 8
    alerts. *)
Theorem containers_bounded (st : Dashboard num) :
  reachable st ->
  length (sensorData st) <= 25 /\ length (alerts st) <= 8.
Proof.
  intros [acts Hrun].
  apply (run_lengths acts initialDashboard st Hrun). cbn. lia.
Qed.

Lemma lastn_all {A : Type} (n : nat) (l : list A) :
  length l <= n -> lastn n l = l.
Proof.
  intros H. unfold lastn.
  now replace (length l - n)%nat with 0%nat by lia.
Qed.

(** X6. Starting from an empty history, a run without a reset leaves in the
    history the last 25 of the records that its ticks appended, oldest first:
    all of them while they are at most 25.  Starting from an empty alert list,
    a run without a clear or reset leaves the last 8 of the alerts that it
    raised, newest first: all of them while they are at most 8. *)
Theorem containers_from_empty (acts : list (Action num)) (st st' : Dashboard num) :
  run acts st = Some st' ->
  (sensorData st = [] -> existsb is_reset acts = false ->
   sensorData st' = lastn 25 (readings acts st)
   /\ (length (readings acts st) <= 25 -> sensorData st' = readings acts st))
  /\ (alerts st = [] -> existsb is_clear acts = false ->
      alerts st' = firstn 8 (rev (raised acts st))
      /\ (length (raised acts st) <= 8 -> alerts st' = rev (raised acts st))).
Proof.
  intros Hrun. split.
  - intros Hempty Hno.
    assert (Heq : sensorData st' = lastn 25 (readings acts st)).
    { rewrite (run_sensorData acts st st' Hrun Hno), Hempty.
      destruct (readings acts st) as [| r rs] eqn:E; [reflexivity |].
      now rewrite window_fold by discriminate. }
    split; [exact Heq |]. intros Hlen. rewrite Heq. now apply lastn_all.
  - intros Hempty Hno.
    assert (Heq : alerts st' = firstn 8 (rev (raised acts st))).
    { rewrite (run_alerts acts st st' Hrun Hno), Hempty.
      destruct (raised acts st) as [| r rs] eqn:E; [reflexivity |].
      rewrite stack_fold by discriminate. now rewrite app_nil_r. }
    split; [exact Heq |]. intros Hlen. rewrite Heq.
    apply firstn_all2. now rewrite length_rev.
Qed.

(** X7. The record that a tick appends is the newest point of the history,
    behind at most 24 older ones, and it carries the values that the same tick
    puts on the cards: the filtered moisture, pH, EC and nitrogen. *)
Theorem tick_latest_reading (env : Env num) (st : Dashboard num) :
  let st' := tick env st in
  let r := newReading env st in
  sensorData st' = lastn 24 (sensorData st) ++ [r]
  /\ filtered r = moisture (currentValues st')
  /\ reading_ph r = ph (currentValues st')
  /\ reading_ec r = ec (currentValues st')
  /\ reading_nitrogen r = nitrogen (currentValues st')
  /\ time r = toLocaleTimeString env.
Proof.
  cbn zeta. split.
  - rewrite tick_sensorData. now rewrite lastn_app_short by (cbn; lia).
  - unfold tick. destruct (isAnomaly (anomalyResult (sample env st)));
      repeat split.
Qed.

(** *** Operator actions *)

(** X8. The operator actions compose as expected: a second reset changes
    nothing, a reset makes a clear before or after it redundant, a second clear
    changes nothing, pressing start/stop twice gives the state back, and
    neither reset nor clear stops or starts the monitoring. *)
Theorem operator_actions_compose (st : Dashboard num) :
  resetSystem (resetSystem st) = resetSystem st
  /\ resetSystem (clearAlerts st) = resetSystem st
  /\ clearAlerts (resetSystem st) = resetSystem st
  /\ clearAlerts (clearAlerts st) = clearAlerts st
  /\ toggleRunning (toggleRunning st) = st
  /\ isRunning (resetSystem st) = isRunning st
  /\ isRunning (clearAlerts st) = isRunning st.
Proof.
  destruct st as [sd cv al run_ cs ss ks].
  repeat split; try reflexivity.
  unfold toggleRunning, setIsRunning. cbn [isRunning sensorData currentValues alerts
    cumsum systemStats kalmanState].
  now rewrite negb_involutive.
Qed.

(** *** Rendering *)

(** X9. The rendering never fails on a card and never shows an unknown one:
    in every state, each of the six cards is classified optimal, warning or
    critical. *)
Theorem cardStatuses_classified (st : Dashboard num) :
  length (cardStatuses st) = 6
  /\ Forall (fun c => c = Return "optimal"%string
                      \/ c = Return "warning"%string
                      \/ c = Return "critical"%string)
            (cardStatuses st).
Proof.
  split; [reflexivity |].
  unfold cardStatuses, parameterCards. cbn [map fst snd].
  repeat (apply Forall_cons;
          [ unfold getParameterStatus; cbn;
            repeat match goal with
                   | |- context [if ?b then _ else _] => destruct b
                   end; auto |]).
  constructor.
Qed.

(** *** What one tick computes *)

Lemma sample_rawMoisture (env : Env num) (st : Dashboard num) :
  rawMoisture (sample env st)
  = fst (generateSensorReading (lit 45) (lit 5) (random env 0 <? lit 0.04)
           (random env) 1).
Proof.
  unfold sample, generateSensorReading, bind, Math_random, ret.
  destruct (random env 0 <? lit 0.04); reflexivity.
Qed.

Lemma sample_newKalmanState (env : Env num) (st : Dashboard num) :
  newKalmanState (sample env st)
  = kalmanFilter (rawMoisture (sample env st)) (kalmanState st).
Proof.
  unfold sample, generateSensorReading, bind, Math_random, ret.
  destruct (random env 0 <? lit 0.04); reflexivity.
Qed.

Lemma sample_anomalyResult (env : Env num) (st : Dashboard num) :
  anomalyResult (sample env st)
  = detectAnomaly (innovation (newKalmanState (sample env st))) (cumsum st).
Proof.
  unfold sample, generateSensorReading, bind, Math_random, ret.
  destruct (random env 0 <? lit 0.04); reflexivity.
Qed.

Lemma tick_cumsum (env : Env num) (st : Dashboard num) :
  cumsum (tick env st) = cumsum_ (anomalyResult (sample env st)).
Proof.
  unfold tick. now destruct (isAnomaly (anomalyResult (sample env st))).
Qed.

Lemma tick_currentValues (env : Env num) (st : Dashboard num) :
  currentValues (tick env st) = newValues (sample env st).
Proof.
  unfold tick. now destruct (isAnomaly (anomalyResult (sample env st))).
Qed.

Lemma tick_systemStats (env : Env num) (st : Dashboard num) :
  systemStats (tick env st)
  = {| totalReadings := totalReadings (systemStats st) + lit 1;
       anomaliesDetected :=
         if isAnomaly (anomalyResult (sample env st))
         then anomaliesDetected (systemStats st) + lit 1
         else anomaliesDetected (systemStats st);
       dataAccuracy := Math_min (lit 100) (dataAccuracy (systemStats st) + lit 0.1) |}.
Proof.
  unfold tick. now destruct (isAnomaly (anomalyResult (sample env st))).
Qed.

Lemma accuracy_after_add (n k : nat) : forall d : num,
  accuracy_after (n + k) d = accuracy_after k (accuracy_after n d).
Proof. induction n as [| n IH]; intros d; cbn [accuracy_after Nat.add]; auto. Qed.

Lemma run_accuracy_after (acts : list (Action num)) : forall st st',
  run acts st = Some st' ->
  existsb is_reset acts = false ->
  dataAccuracy (systemStats st')
  = accuracy_after (length (readings acts st)) (dataAccuracy (systemStats st)).
Proof.
  induction acts as [| a acts IH]; intros st st' Hrun Hno.
  - injection Hrun as <-. reflexivity.
  - cbn [run] in Hrun. cbn [readings].
    destruct (step a st) as [st1 |] eqn:Hstep; [| discriminate].
    cbn [existsb] in Hno. apply orb_false_iff in Hno as [Ha Hno].
    rewrite (IH st1 st' Hrun Hno).
    destruct a; cbn [step] in Hstep.
    + destruct (isRunning st); [| discriminate]. injection Hstep as <-.
      rewrite tick_systemStats. reflexivity.
    + injection Hstep as <-. reflexivity.
    + injection Hstep as <-. reflexivity.
    + discriminate Ha.
Qed.

End FurtherComponentProperties.

(** ** Properties in binary64

    Properties of the component on the doubles themselves, for every double
    and not only for those of a run: they rest on the specification of the
    operations in [FloatAxioms] and on the rounding lemmas above. *)

Section Binary64Properties.
Local Open Scope js_scope.

(** *** Comparisons *)

Lemma SFltb_SFleb (x y : spec_float) : SFltb x y = true -> SFleb x y = true.
Proof. unfold SFltb, SFleb. destruct (SFcompare x y) as [[] |]; congruence. Qed.

Lemma SFltb_zero_asym (x : spec_float) :
  SFltb (S754_zero false) x = true -> SFltb x (S754_zero false) = false.
Proof. intros H. destruct (SFltb_zero_inv x H) as [-> | (m & e & ->)]; reflexivity. Qed.

Lemma is_nan_false (v : PrimFloat.float) :
  PrimFloat.is_nan v = false -> FloatOps.Prim2SF v <> S754_nan.
Proof.
  unfold PrimFloat.is_nan. rewrite FloatAxioms.eqb_spec. intros H E. rewrite E in H.
  discriminate.
Qed.

(** *** Kalman filter *)

(** One step on three doubles: the error covariance, the process noise and
    the measurement noise. *)
Lemma binary64_step_safe (e q r : PrimFloat.float) :
  (lit 0 <=? e) = true -> (lit 0 <? q) = true -> (lit 0 <? r) = true ->
  (e + q <? PrimFloat.infinity) = true ->
  (lit 0 <? e + q + r) = true
  /\ (lit 0 <=? (lit 1 - (e + q) / (e + q + r)) * (e + q)) = true.
Proof.
  cbn [num_le num_lt num_add num_sub num_mul num_div binary64].
  change (lit 0) with PrimFloat.zero. change (lit 1) with PrimFloat.one.
  rewrite !FloatAxioms.leb_spec, !FloatAxioms.ltb_spec, !FloatAxioms.mul_spec,
    !FloatAxioms.sub_spec, !FloatAxioms.div_spec.
  rewrite (FloatAxioms.add_spec (PrimFloat.add e q) r).
  change (FloatOps.Prim2SF PrimFloat.zero) with (S754_zero false).
  change (FloatOps.Prim2SF PrimFloat.one) with SF_one.
  change (FloatOps.Prim2SF PrimFloat.infinity) with (S754_infinity false).
  pose proof (FloatAxioms.Prim2SF_valid (PrimFloat.add e q)) as VP.
  rewrite FloatAxioms.add_spec in *.
  pose proof (FloatAxioms.Prim2SF_valid e) as VE.
  pose proof (FloatAxioms.Prim2SF_valid q) as VQ.
  pose proof (FloatAxioms.Prim2SF_valid r) as VR.
  set (E := FloatOps.Prim2SF e) in *. set (Q := FloatOps.Prim2SF q) in *.
  set (R := FloatOps.Prim2SF r) in *. clearbody E Q R.
  intros HE HQ HR HP.
  destruct (SF_predicted_finite E Q VE VQ HE HQ HP) as (mP & eP & EP).
  rewrite EP in *. cbn [valid_binary] in VP.
  destruct (bounded_inv mP eP VP) as [HeP _].
  pose proof (SF_innovationCov mP eP R VP VR HR) as HS.
  split.
  - destruct HS as [-> | (mS & eS & -> & _)]; reflexivity.
  - apply signed_nonneg, SF_posterior_sign; [lia |].
    destruct HS as [-> | (mS & eS & -> & H)]; [now left | right; eauto].
Qed.

Lemma binary64_gain_posterior (e q r : PrimFloat.float) :
  (lit 0 <=? e) = true -> (lit 0 <? q) = true -> (lit 0 <? r) = true ->
  (e + q <? PrimFloat.infinity) = true ->
  ((lit 0 <=? (e + q) / (e + q + r)) = true /\ ((e + q) / (e + q + r) <=? lit 1) = true)
  /\ ((lit 1 - (e + q) / (e + q + r)) * (e + q) <=? e + q) = true.
Proof.
  cbn [num_le num_lt num_add num_sub num_mul num_div binary64].
  change (lit 0) with PrimFloat.zero. change (lit 1) with PrimFloat.one.
  intros He Hq Hr HP.
  set (p := PrimFloat.add e q) in *.
  set (k := PrimFloat.div p (PrimFloat.add p r)).
  pose proof (FloatAxioms.Prim2SF_valid p) as VP.
  pose proof (FloatAxioms.Prim2SF_valid k) as VK.
  pose proof (FloatAxioms.Prim2SF_valid (PrimFloat.sub PrimFloat.one k)) as VT.
  pose proof (FloatAxioms.Prim2SF_valid (PrimFloat.mul (PrimFloat.sub PrimFloat.one k) p)) as VC.
  pose proof (FloatAxioms.Prim2SF_valid e) as VE.
  pose proof (FloatAxioms.Prim2SF_valid q) as VQ.
  pose proof (FloatAxioms.Prim2SF_valid r) as VR.
  rewrite !FloatAxioms.leb_spec. rewrite FloatAxioms.leb_spec in He.
  rewrite FloatAxioms.ltb_spec in Hq, Hr, HP.
  rewrite FloatAxioms.mul_spec in *. rewrite FloatAxioms.sub_spec in *.
  unfold k in *. rewrite FloatAxioms.div_spec in *.
  rewrite (FloatAxioms.add_spec p r) in *. unfold p in *. rewrite FloatAxioms.add_spec in *.
  change (FloatOps.Prim2SF PrimFloat.zero) with (S754_zero false) in *.
  change (FloatOps.Prim2SF PrimFloat.one) with SF_one in *.
  change (FloatOps.Prim2SF PrimFloat.infinity) with (S754_infinity false) in *.
  clear p k.
  set (E := FloatOps.Prim2SF e) in *. set (Q := FloatOps.Prim2SF q) in *.
  set (R := FloatOps.Prim2SF r) in *. clearbody E Q R.
  destruct (SF_predicted_finite E Q VE VQ He Hq HP) as (mP & eP & EP).
  rewrite EP in *. cbn [valid_binary] in VP.
  destruct (bounded_inv mP eP VP) as [HeP _].
  pose proof (SF_innovationCov mP eP R VP VR Hr) as HS.
  pose proof (SF_gain_bounds mP eP _ ltac:(lia) HS VK) as HK.
  split.
  - now apply SF_gain_le_one.
  - now apply SF_posterior_le.
Qed.

(** An inflated process noise is still positive. *)
Lemma binary64_positive_inflated (q : PrimFloat.float) :
  (q >? lit 0) = true -> (q * lit 2.5 >? lit 0) = true.
Proof.
  cbn [num_lt num_mul binary64].
  change (lit 0) with PrimFloat.zero.
  rewrite !FloatAxioms.ltb_spec, FloatAxioms.mul_spec.
  change (FloatOps.Prim2SF PrimFloat.zero) with (S754_zero false).
  change (FloatOps.Prim2SF (lit 2.5)) with (S754_finite false 5629499534213120 (-51)).
  pose proof (FloatAxioms.Prim2SF_valid q) as VQ.
  set (Q := FloatOps.Prim2SF q) in *. clearbody Q. intros HQ.
  destruct (SFltb_zero_inv Q HQ) as [-> | (mq & eq & ->)]; [reflexivity |].
  destruct (SFmul_finite_ge mq eq 5629499534213120 (-51) VQ ltac:(lia) ltac:(cbn; lia))
    as [-> | (p & e2 & ->)]; reflexivity.
Qed.

Lemma binary64_step_safe_state (m : PrimFloat.float) (s : KalmanState PrimFloat.float) :
  (errorCovariance s >=? lit 0) = true ->
  (processNoise s >? lit 0) = true ->
  (measurementNoise s >? lit 0) = true ->
  (predictedErrorCov s <? PrimFloat.infinity) = true ->
  (innovationCov s >? lit 0) = true
  /\ (errorCovariance (kalmanFilter m s) >=? lit 0) = true.
Proof.
  intros He Hq Hr HP. rewrite kalmanFilter_locals. cbn [errorCovariance].
  unfold kalmanGain, innovationCov, predictedErrorCov in *.
  exact (binary64_step_safe (errorCovariance s) (processNoise s) (measurementNoise s)
           He Hq Hr HP).
Qed.

(** The three conditions are kept by a step that does not overflow. *)
Lemma binary64_step_invariant (m : PrimFloat.float) (s : KalmanState PrimFloat.float) :
  (errorCovariance s >=? lit 0) = true ->
  (processNoise s >? lit 0) = true ->
  (measurementNoise s >? lit 0) = true ->
  (predictedErrorCov s <? PrimFloat.infinity) = true ->
  (errorCovariance (kalmanFilter m s) >=? lit 0) = true
  /\ (processNoise (kalmanFilter m s) >? lit 0) = true
  /\ (measurementNoise (kalmanFilter m s) >? lit 0) = true.
Proof.
  intros He Hq Hr HP.
  destruct (binary64_step_safe_state m s He Hq Hr HP) as [_ He'].
  split; [exact He' |]. rewrite kalmanFilter_locals. cbn [processNoise measurementNoise].
  split; [| exact Hr].
  destruct (lambda m s >? lit 3.84).
  - now apply binary64_positive_inflated.
  - vm_compute. reflexivity.
Qed.

Lemma binary64_run_safe (ms : list PrimFloat.float) :
  forall s : KalmanState PrimFloat.float,
  (errorCovariance s >=? lit 0) = true ->
  (processNoise s >? lit 0) = true ->
  (measurementNoise s >? lit 0) = true ->
  Overflow.no_overflow ms s = true ->
  (errorCovariance (kalmanRun ms s) >=? lit 0) = true.
Proof.
  induction ms as [| m ms IH]; intros s He Hq Hr Hfin; cbn [kalmanRun]; [exact He |].
  cbn [Overflow.no_overflow] in Hfin. apply andb_true_iff in Hfin as [HP Hfin].
  destruct (binary64_step_invariant m s He Hq Hr HP) as (He' & Hq' & Hr').
  now apply IH.
Qed.

(** C7, as amended. In binary64, a filter state with [errorCovariance >= 0],
    [processNoise > 0] and [measurementNoise > 0] whose predicted error
    covariance [errorCovariance + processNoise] has not overflowed (it is below
    [Infinity]) has [innovationCov > 0], so that the two divisions of a step are
    not by zero, and a step from it returns [errorCovariance >= 0], whatever the
    measurement, NaN included.  Hence [errorCovariance >= 0] holds in every
    state that the filter reaches from such a state, as long as the predicted
    error covariance has not overflowed on the way.  Proved for every
    double. *)
Theorem kalman_step_safe_without_overflow
  (m : PrimFloat.float) (ms : list PrimFloat.float) (s : KalmanState PrimFloat.float) :
  (errorCovariance s >=? lit 0) = true ->
  (processNoise s >? lit 0) = true ->
  (measurementNoise s >? lit 0) = true ->
  (predictedErrorCov s <? PrimFloat.infinity) = true ->
  Overflow.no_overflow ms s = true ->
  ((innovationCov s >? lit 0) = true
   /\ (errorCovariance (kalmanFilter m s) >=? lit 0) = true)
  /\ (errorCovariance (kalmanRun ms s) >=? lit 0) = true.
Proof.
  intros He Hq Hr HP Hfin. split.
  - now apply binary64_step_safe_state.
  - now apply binary64_run_safe.
Qed.

Lemma kalman_step_safe_without_overflow_swinging :
  let s := initialKalmanState (N:=binary64) in
  ((innovationCov s >? lit 0) = true
   /\ (errorCovariance (kalmanFilter (lit 70) s) >=? lit 0) = true)
  /\ (errorCovariance (kalmanRun (Overflow.swinging 700) s) >=? lit 0) = true.
Proof.
  apply (kalman_step_safe_without_overflow (lit 70) (Overflow.swinging 700)
           initialKalmanState); vm_compute; reflexivity.
Defined.

(** X10. In binary64, on a filter state with [errorCovariance >= 0],
    [processNoise > 0] and [measurementNoise > 0] whose predicted error
    covariance has not overflowed, the Kalman gain lies between 0 and 1, both
    included, and a step returns an error covariance that is at most the
    predicted one: a measurement never adds to the uncertainty.  Proved for
    every double; the bounds are attained (the gain is exactly 1 once the
    measurement noise is lost in the rounding of [innovationCov]). *)
Theorem gain_between_zero_and_one
  (m : PrimFloat.float) (s : KalmanState PrimFloat.float) :
  (errorCovariance s >=? lit 0) = true ->
  (processNoise s >? lit 0) = true ->
  (measurementNoise s >? lit 0) = true ->
  (predictedErrorCov s <? PrimFloat.infinity) = true ->
  ((kalmanGain s >=? lit 0) = true /\ (kalmanGain s <=? lit 1) = true)
  /\ (errorCovariance (kalmanFilter m s) <=? predictedErrorCov s) = true.
Proof.
  intros He Hq Hr HP. rewrite kalmanFilter_locals. cbn [errorCovariance].
  unfold kalmanGain, innovationCov, predictedErrorCov in *.
  exact (binary64_gain_posterior (errorCovariance s) (processNoise s) (measurementNoise s)
           He Hq Hr HP).
Qed.

Lemma gain_between_zero_and_one_attained :
  let s := Overflow.absorbing_state in
  ((kalmanGain s >=? lit 0) = true /\ (kalmanGain s <=? lit 1) = true)
  /\ (errorCovariance (kalmanFilter (lit 70) s) <=? predictedErrorCov s) = true.
Proof.
  apply (gain_between_zero_and_one (lit 70) Overflow.absorbing_state);
    vm_compute; reflexivity.
Defined.

(** *** CUSUM detector *)

Lemma max_zero_lt (v : PrimFloat.float) : (Binary64.max (lit 0) v <? lit 0) = false.
Proof.
  unfold Binary64.max. change (PrimFloat.is_nan (lit 0)) with false. cbn [orb].
  destruct (PrimFloat.is_nan v); [reflexivity |].
  destruct (PrimFloat.ltb (lit 0) v) eqn:E.
  - cbn [num_lt binary64] in *. rewrite FloatAxioms.ltb_spec in *.
    now apply SFltb_zero_asym.
  - destruct (PrimFloat.ltb v (lit 0)); reflexivity.
Qed.

Lemma max_zero_nonneg (v : PrimFloat.float) :
  PrimFloat.is_nan v = false -> (Binary64.max (lit 0) v >=? lit 0) = true.
Proof.
  intros Hn. unfold Binary64.max. change (PrimFloat.is_nan (lit 0)) with false. cbn [orb].
  rewrite Hn.
  destruct (PrimFloat.ltb (lit 0) v) eqn:E.
  - cbn [num_le binary64]. rewrite FloatAxioms.ltb_spec in E. rewrite FloatAxioms.leb_spec.
    now apply SFltb_SFleb.
  - destruct (PrimFloat.ltb v (lit 0)); reflexivity.
Qed.

Lemma min_zero_gt (v : PrimFloat.float) : (Binary64.min (lit 0) v >? lit 0) = false.
Proof.
  unfold Binary64.min. change (PrimFloat.is_nan (lit 0)) with false. cbn [orb].
  destruct (PrimFloat.is_nan v); [reflexivity |].
  destruct (PrimFloat.ltb (lit 0) v) eqn:E; [reflexivity |].
  destruct (PrimFloat.ltb v (lit 0)); [exact E |].
  change (PrimFloat.get_sign (lit 0)) with false. cbn iota. exact E.
Qed.

Lemma min_zero_nonpos (v : PrimFloat.float) :
  PrimFloat.is_nan v = false -> (Binary64.min (lit 0) v <=? lit 0) = true.
Proof.
  intros Hn. unfold Binary64.min. change (PrimFloat.is_nan (lit 0)) with false. cbn [orb].
  rewrite Hn.
  destruct (PrimFloat.ltb (lit 0) v) eqn:E; [reflexivity |].
  destruct (PrimFloat.ltb v (lit 0)) eqn:E'.
  - cbn [num_le binary64]. rewrite FloatAxioms.ltb_spec in E'. rewrite FloatAxioms.leb_spec.
    now apply SFltb_SFleb.
  - change (PrimFloat.get_sign (lit 0)) with false. cbn iota.
    cbn [num_le binary64]. rewrite FloatAxioms.ltb_spec in E, E'. rewrite FloatAxioms.leb_spec.
    apply is_nan_false in Hn.
    change (FloatOps.Prim2SF (lit 0)) with (S754_zero false) in *.
    destruct (FloatOps.Prim2SF v) as [s | [] | | [] m e]; try reflexivity;
      try discriminate; congruence.
Qed.

Lemma detectAnomaly_clamped (x : PrimFloat.float) (c : CumSum PrimFloat.float) :
  let r := detectAnomaly x c in
  ((positive (cumsum_ r) <? lit 0) = false /\ (negative (cumsum_ r) >? lit 0) = false)
  /\ (PrimFloat.is_nan (positive c + x - lit 0.5) = false ->
      (positive (cumsum_ r) >=? lit 0) = true)
  /\ (PrimFloat.is_nan (negative c + x + lit 0.5) = false ->
      (negative (cumsum_ r) <=? lit 0) = true).
Proof.
  cbn zeta. unfold detectAnomaly. cbn [cumsum_ positive negative].
  repeat split.
  - apply max_zero_lt.
  - apply min_zero_gt.
  - apply max_zero_nonneg.
  - apply min_zero_nonpos.
Qed.

Lemma run_clamped (acts : list (Action PrimFloat.float)) :
  forall st st' : Dashboard PrimFloat.float,
  run acts st = Some st' ->
  (positive (cumsum st) <? lit 0) = false /\ (negative (cumsum st) >? lit 0) = false ->
  (positive (cumsum st') <? lit 0) = false /\ (negative (cumsum st') >? lit 0) = false.
Proof.
  induction acts as [| a acts IH]; intros st st' Hrun H.
  - injection Hrun as <-. exact H.
  - cbn [run] in Hrun. destruct (step a st) as [st1 |] eqn:Hstep; [| discriminate].
    apply (IH st1 st' Hrun).
    destruct a; cbn [step] in Hstep.
    + destruct (isRunning st); [| discriminate]. injection Hstep as <-.
      rewrite tick_cumsum, sample_anomalyResult. apply detectAnomaly_clamped.
    + injection Hstep as <-. exact H.
    + injection Hstep as <-. exact H.
    + injection Hstep as <-. split; reflexivity.
Qed.

(** X12. In binary64 the two sums of the detector are clamped.  Whatever the
    innovation and the previous sums, NaN and the infinities included, a call
    returns a positive sum that is not below 0 and a negative sum that is not
    above 0; the positive sum is [>= 0] unless the sum it clamps,
    [positive + innovation - 0.5], is NaN, and the negative sum is [<= 0]
    unless [negative + innovation + 0.5] is NaN.  In every state that the
    component reaches, whatever [Math.random()] and the clock return, the
    positive sum is not below 0 and the negative sum is not above 0.  Proved
    for every double. *)
Theorem cusum_clamped
  (x : PrimFloat.float) (c : CumSum PrimFloat.float)
  (acts : list (Action PrimFloat.float)) (st : Dashboard PrimFloat.float) :
  run acts initialDashboard = Some st ->
  (let r := detectAnomaly x c in
   ((positive (cumsum_ r) <? lit 0) = false /\ (negative (cumsum_ r) >? lit 0) = false)
   /\ (PrimFloat.is_nan (positive c + x - lit 0.5) = false ->
       (positive (cumsum_ r) >=? lit 0) = true)
   /\ (PrimFloat.is_nan (negative c + x + lit 0.5) = false ->
       (negative (cumsum_ r) <=? lit 0) = true))
  /\ ((positive (cumsum st) <? lit 0) = false /\ (negative (cumsum st) >? lit 0) = false).
Proof.
  intros Hrun. split; [apply detectAnomaly_clamped |].
  apply (run_clamped acts initialDashboard st Hrun). split; reflexivity.
Qed.

Lemma cusum_clamped_dry_spell :
  (let r := detectAnomaly (N:=binary64) PrimFloat.nan initialCumsum in
   ((positive (cumsum_ r) <? lit 0) = false /\ (negative (cumsum_ r) >? lit 0) = false)
   /\ (PrimFloat.is_nan (positive initialCumsum + PrimFloat.nan - lit 0.5) = false ->
       (positive (cumsum_ r) >=? lit 0) = true)
   /\ (PrimFloat.is_nan (negative initialCumsum + PrimFloat.nan + lit 0.5) = false ->
       (negative (cumsum_ r) <=? lit 0) = true))
  /\ ((positive (cumsum (final (N:=binary64) dry_spell)) <? lit 0) = false
      /\ (negative (cumsum (final (N:=binary64) dry_spell)) >? lit 0) = false).
Proof.
  apply (cusum_clamped PrimFloat.nan initialCumsum dry_spell (final dry_spell)).
  vm_compute. reflexivity.
Defined.

(** *** The measurement generator *)

Lemma noise_mag (r : PrimFloat.float) :
  (lit 0 <=? r) = true -> (r <? lit 1) = true ->
  mag_le (FloatOps.Prim2SF ((r - lit 0.5) * lit 5)) (5 * 2 ^ 1073).
Proof.
  cbn [num_le num_lt num_sub num_mul binary64]. intros H0 H1.
  pose proof (FloatAxioms.Prim2SF_valid r) as VR.
  pose proof (FloatAxioms.Prim2SF_valid (PrimFloat.sub r (lit 0.5))) as VD.
  pose proof (FloatAxioms.Prim2SF_valid (PrimFloat.mul (PrimFloat.sub r (lit 0.5)) (lit 5))) as VN.
  rewrite FloatAxioms.leb_spec in H0. rewrite FloatAxioms.ltb_spec in H1.
  rewrite FloatAxioms.mul_spec in *. rewrite FloatAxioms.sub_spec in *.
  change (FloatOps.Prim2SF (lit 0)) with (S754_zero false) in *.
  change (FloatOps.Prim2SF (lit 1)) with SF_one in *.
  change (FloatOps.Prim2SF (lit 0.5)) with SF_half in *.
  change (FloatOps.Prim2SF (lit 5)) with (S754_finite false 5629499534213120 (-50)) in *.
  pose proof (SFsub_half_mag _ VR H0 H1 VD) as HD.
  change (5 * 2 ^ 1073)%Z with (5629499534213120 * 2 ^ (-51 + 1074))%Z.
  apply (SFmul_mag _ (2 ^ 1073)); try assumption; try reflexivity; try lia;
    try (split; reflexivity); apply Z.leb_le; vm_compute; reflexivity.
Qed.

Lemma base_between (n : PrimFloat.float) :
  mag_le (FloatOps.Prim2SF n) (5 * 2 ^ 1073) -> between_halves (lit 45 + n) 85 95.
Proof.
  intros Hn. unfold between_halves. cbn [num_add binary64].
  pose proof (FloatAxioms.Prim2SF_valid n) as VN.
  rewrite FloatAxioms.add_spec.
  change (FloatOps.Prim2SF (lit 45)) with (S754_finite false 6333186975989760 (-47)).
  assert (V45 : (Z.pos 6333186975989760 * 2 ^ (-47 + 1074) = 90 * 2 ^ 1073)%Z) by reflexivity.
  assert (Vlo : (5981343255101440 * 2 ^ (-47 + 1074) = 85 * 2 ^ 1073)%Z) by reflexivity.
  assert (Vhi : (6685030696878080 * 2 ^ (-47 + 1074) = 95 * 2 ^ 1073)%Z) by reflexivity.
  destruct Hn as [(s & E) | (s & m & e & E & Hm)]; rewrite E in *.
  - exists 6333186975989760%positive, (-47)%Z. split; [reflexivity |]. rewrite V45. lia.
  - cbn [valid_binary] in VN.
    destruct (SFadd_between 6333186975989760 (-47) s m e
                5981343255101440 (-47) 6685030696878080 (-47))
      as (p & e2 & -> & _ & H1 & H2); try assumption; try reflexivity; try lia.
    + rewrite V45, Vlo.
      assert (0 < Z.pos m * 2 ^ (e + 1074))%Z
        by (apply Z.mul_pos_pos; [lia | apply pow2_pos; destruct (bounded_inv m e VN); lia]).
      destruct s; lia.
    + rewrite V45, Vhi.
      assert (0 < Z.pos m * 2 ^ (e + 1074))%Z
        by (apply Z.mul_pos_pos; [lia | apply pow2_pos; destruct (bounded_inv m e VN); lia]).
      destruct s; lia.
    + exists p, e2. split; [reflexivity |]. rewrite <- Vlo, <- Vhi. lia.
Qed.

Lemma offset_none (b : PrimFloat.float) (lo hi : Z) :
  between_halves b lo hi -> between_halves (b + lit 0) lo hi.
Proof.
  intros (p & e & E & H). unfold between_halves. cbn [num_add binary64].
  rewrite FloatAxioms.add_spec, E.
  change (FloatOps.Prim2SF (lit 0)) with (S754_zero false).
  exists p, e. split; [reflexivity | exact H].
Qed.

Lemma offset_up (b : PrimFloat.float) :
  between_halves b 85 95 -> between_halves (b + lit 20) 125 135.
Proof.
  intros (p & e & E & H). unfold between_halves. cbn [num_add binary64].
  pose proof (FloatAxioms.Prim2SF_valid b) as VB. rewrite E in VB. cbn [valid_binary] in VB.
  rewrite FloatAxioms.add_spec, E.
  change (FloatOps.Prim2SF (lit 20)) with (S754_finite false 5629499534213120 (-48)).
  assert (V20 : (Z.pos 5629499534213120 * 2 ^ (-48 + 1074) = 40 * 2 ^ 1073)%Z) by reflexivity.
  assert (Vlo : (8796093022208000 * 2 ^ (-47 + 1074) = 125 * 2 ^ 1073)%Z) by reflexivity.
  assert (Vhi : (4749890231992320 * 2 ^ (-46 + 1074) = 135 * 2 ^ 1073)%Z) by reflexivity.
  destruct (SFadd_between p e false 5629499534213120 (-48)
              8796093022208000 (-47) 4749890231992320 (-46))
    as (p' & e2 & -> & _ & H1 & H2); try assumption; try reflexivity; try lia;
    try (rewrite V20, Vlo; lia); try (rewrite V20, Vhi; lia).
  exists p', e2. split; [reflexivity |]. rewrite <- Vlo, <- Vhi. lia.
Qed.

Lemma offset_down (b : PrimFloat.float) :
  between_halves b 85 95 -> between_halves (b + - lit 20) 45 55.
Proof.
  intros (p & e & E & H). unfold between_halves. cbn [num_add num_neg binary64].
  pose proof (FloatAxioms.Prim2SF_valid b) as VB. rewrite E in VB. cbn [valid_binary] in VB.
  rewrite FloatAxioms.add_spec, E.
  change (FloatOps.Prim2SF (PrimFloat.opp (lit 20)))
    with (S754_finite true 5629499534213120 (-48)).
  assert (V20 : (Z.pos 5629499534213120 * 2 ^ (-48 + 1074) = 40 * 2 ^ 1073)%Z) by reflexivity.
  assert (Vlo : (6333186975989760 * 2 ^ (-48 + 1074) = 45 * 2 ^ 1073)%Z) by reflexivity.
  assert (Vhi : (7740561859543040 * 2 ^ (-48 + 1074) = 55 * 2 ^ 1073)%Z) by reflexivity.
  destruct (SFadd_between p e true 5629499534213120 (-48)
              6333186975989760 (-48) 7740561859543040 (-48))
    as (p' & e2 & -> & _ & H1 & H2); try assumption; try reflexivity; try lia;
    try (rewrite V20, Vlo; lia); try (rewrite V20, Vhi; lia).
  exists p', e2. split; [reflexivity |]. rewrite <- Vlo, <- Vhi. lia.
Qed.

Lemma max_between (u : PrimFloat.float) (lo hi : Z) :
  between_halves u lo hi -> Binary64.max (lit 0) u = u.
Proof.
  intros (p & e & E & _). unfold Binary64.max.
  change (PrimFloat.is_nan (lit 0)) with false. cbn [orb].
  assert (Hn : PrimFloat.is_nan u = false).
  { unfold PrimFloat.is_nan. rewrite FloatAxioms.eqb_spec, E.
    unfold SFeqb. cbn [SFcompare]. now rewrite Z.compare_refl, Pos.compare_cont_refl. }
  assert (Hp : PrimFloat.ltb (lit 0) u = true).
  { rewrite FloatAxioms.ltb_spec, E. reflexivity. }
  now rewrite Hn, Hp.
Qed.

Lemma between_leb (x l h : PrimFloat.float) (lo hi : Z) (ml : BinNums.positive) (el : Z)
  (mh : BinNums.positive) (eh : Z) :
  FloatOps.Prim2SF l = S754_finite false ml el ->
  (Z.pos ml * 2 ^ (el + 1074) = lo * 2 ^ 1073)%Z ->
  FloatOps.Prim2SF h = S754_finite false mh eh ->
  (Z.pos mh * 2 ^ (eh + 1074) = hi * 2 ^ 1073)%Z ->
  between_halves x lo hi -> (l <=? x) = true /\ (x <=? h) = true.
Proof.
  intros El Vl Eh Vh (p & e & E & H). cbn [num_le binary64].
  pose proof (FloatAxioms.Prim2SF_valid x) as VX. rewrite E in VX.
  pose proof (FloatAxioms.Prim2SF_valid l) as VL. rewrite El in VL.
  pose proof (FloatAxioms.Prim2SF_valid h) as VH. rewrite Eh in VH.
  cbn [valid_binary] in *.
  rewrite !FloatAxioms.leb_spec, E, El, Eh, !SFleb_finite by assumption.
  rewrite Vl, Vh. split; apply Z.leb_le; lia.
Qed.

Lemma generateSensorReading_draws (base variance : PrimFloat.float) (anomaly : bool)
  (draws : nat -> PrimFloat.float) (k : nat) :
  snd (generateSensorReading base variance anomaly draws k)
  = (k + if anomaly then 2 else 1)%nat.
Proof.
  unfold generateSensorReading, bind, Math_random, ret.
  destruct anomaly; cbn [snd]; lia.
Qed.

(** X17. In binary64, with a first draw from 0, included, to 1, excluded, the
    generator called as the tick calls it returns a measurement from 42.5 to
    47.5 when no anomaly is injected, and one from 22.5 to 27.5 or from 62.5 to
    67.5 when one is, the ends included, whatever the second draw; it makes one
    draw, or two when an anomaly is injected.  Proved for every double that
    [Math.random()] can return. *)
Theorem generateSensorReading_range
  (anomaly : bool) (draws : nat -> PrimFloat.float) (k : nat) :
  (lit 0 <=? draws k) = true -> (draws k <? lit 1) = true ->
  let m := fst (generateSensorReading (lit 45) (lit 5) anomaly draws k) in
  ((anomaly = false -> (lit 42.5 <=? m) = true /\ (m <=? lit 47.5) = true)
   /\ (anomaly = true ->
       ((lit 22.5 <=? m) = true /\ (m <=? lit 27.5) = true)
       \/ ((lit 62.5 <=? m) = true /\ (m <=? lit 67.5) = true)))
  /\ snd (generateSensorReading (lit 45) (lit 5) anomaly draws k)
     = (k + if anomaly then 2 else 1)%nat.
Proof.
  intros H0 H1. cbn zeta. split; [| apply generateSensorReading_draws].
  unfold generateSensorReading, bind, Math_random, ret.
  pose proof (base_between _ (noise_mag (draws k) H0 H1)) as HB.
  destruct anomaly; cbn [fst]; (split; intros E; try discriminate).
  - destruct (num_lt (lit 0.5) (draws (S k))); [right | left].
    + pose proof (offset_up _ HB) as HU. cbn [Math_max binary64].
      rewrite (max_between _ _ _ HU).
      exact (between_leb _ (lit 62.5) (lit 67.5) 125 135 _ _ _ _
               eq_refl eq_refl eq_refl eq_refl HU).
    + pose proof (offset_down _ HB) as HU. cbn [Math_max binary64].
      rewrite (max_between _ _ _ HU).
      exact (between_leb _ (lit 22.5) (lit 27.5) 45 55 _ _ _ _
               eq_refl eq_refl eq_refl eq_refl HU).
  - pose proof (offset_none _ _ _ HB) as HU. cbn [Math_max binary64].
    rewrite (max_between _ _ _ HU).
    exact (between_leb _ (lit 42.5) (lit 47.5) 85 95 _ _ _ _
             eq_refl eq_refl eq_refl eq_refl HU).
Qed.

Lemma generateSensorReading_range_at_the_end :
  let draws := fun _ : nat => Draws.below_one in
  let m := fst (generateSensorReading (lit 45) (lit 5) true draws 1%nat) in
  (((lit 22.5 <=? m) = true /\ (m <=? lit 27.5) = true)
   \/ ((lit 62.5 <=? m) = true /\ (m <=? lit 67.5) = true))
  /\ snd (generateSensorReading (lit 45) (lit 5) true draws 1%nat) = (1 + 2)%nat.
Proof.
  destruct (generateSensorReading_range true (fun _ => Draws.below_one) 1%nat)
    as [[_ H] Hn]; try (vm_compute; reflexivity).
  split; [exact (H eq_refl) | exact Hn].
Defined.

(** *** The accuracy figure *)

Lemma accuracy_full (n : nat) :
  (1001 <= n)%nat -> accuracy_after n (lit 0 : PrimFloat.float) = lit 100.
Proof.
  intros Hn. replace n with (1001 + (n - 1001))%nat by lia.
  rewrite accuracy_after_add.
  assert (H : accuracy_after 1001 (lit 0 : PrimFloat.float) = lit 100)
    by (vm_compute; reflexivity).
  rewrite H. generalize (n - 1001)%nat. intros k.
  induction k as [| k IH]; [reflexivity |].
  cbn [accuracy_after].
  assert (Hfix : accuracy_step (lit 100 : PrimFloat.float) = lit 100)
    by (vm_compute; reflexivity).
  rewrite Hfix. exact IH.
Qed.

Lemma accuracy_short (n : nat) :
  (n <= 1000)%nat -> (accuracy_after n (lit 0 : PrimFloat.float) <? lit 100) = true.
Proof.
  intros Hn.
  assert (H : forallb (fun k => accuracy_after k (lit 0 : PrimFloat.float) <? lit 100)
                (seq 0 1001) = true) by (vm_compute; reflexivity).
  rewrite forallb_forall in H. apply H. apply in_seq. lia.
Qed.

(** X21. The accuracy figure counts ticks up to a cap and looks at nothing
    else: over a run without a reset it is the old value after as many steps
    [d -> Math.min(100, d + 0.1)] as the run has ticks, whatever was measured,
    in any arithmetic.  In binary64, from 0 (the initial value, and the value
    after a reset) it is below 100 for the first 1000 ticks and exactly 100
    from tick 1001 on: the sum of a thousand times 0.1 falls short of 100 by a
    rounding error. *)
Theorem accuracy_counts_ticks
  (acts : list (Action PrimFloat.float)) (st st' : Dashboard PrimFloat.float) :
  run acts st = Some st' ->
  existsb is_reset acts = false ->
  dataAccuracy (systemStats st) = lit 0 ->
  let n := length (readings acts st) in
  dataAccuracy (systemStats st') = accuracy_after n (lit 0)
  /\ ((n <= 1000)%nat -> (dataAccuracy (systemStats st') <? lit 100) = true)
  /\ ((1001 <= n)%nat -> dataAccuracy (systemStats st') = lit 100).
Proof.
  intros Hrun Hno H0. cbn zeta.
  rewrite (run_accuracy_after acts st st' Hrun Hno), H0.
  split; [reflexivity |]. split; [apply accuracy_short | apply accuracy_full].
Qed.

Lemma accuracy_counts_ticks_1001 :
  dataAccuracy (systemStats (final (N:=binary64) (Draws.even_ticks 1001))) = lit 100.
Proof.
  assert (Hrun : run (N:=binary64) (Draws.even_ticks 1001) initialDashboard
                 = Some (final (Draws.even_ticks 1001))) by (vm_compute; reflexivity).
  assert (Hno : existsb is_reset (Draws.even_ticks 1001) = false)
    by (vm_compute; reflexivity).
  assert (Hn : (1001 <= length (readings (N:=binary64) (Draws.even_ticks 1001)
                                  initialDashboard))%nat)
    by (vm_compute; repeat constructor).
  exact (proj2 (proj2 (accuracy_counts_ticks (Draws.even_ticks 1001) initialDashboard
                         (final (Draws.even_ticks 1001)) Hrun Hno eq_refl)) Hn).
Defined.

End Binary64Properties.

(** ** Further properties in exact arithmetic *)

Section FurtherExactArithmetic.
Local Open Scope Q_scope.

(** Unfolds the [exact] operations down to [Q], where [lra] applies. *)
Ltac exact_to_Q :=
  cbv [num_add num_sub num_mul num_div num_neg lit exact] in *;
  unfold Qcle, Qclt, Qcdiv, Qcminus, Qcplus, Qcmult, Qcopp, Qcinv, Q2Qc in *;
  cbn [this] in *;
  repeat match goal with
         | H : context [Qred (Qmake ?a ?b)] |- _ =>
             let t := eval vm_compute in (Qred (Qmake a b)) in
             progress change (Qred (Qmake a b)) with t in H
         | |- context [Qred (Qmake ?a ?b)] =>
             let t := eval vm_compute in (Qred (Qmake a b)) in
             progress change (Qred (Qmake a b)) with t
         | H : context [Qred ?q] |- _ => rewrite (Qred_correct q) in H
         | |- context [Qred ?q] => rewrite (Qred_correct q)
         | H : context [Qinv (Qmake ?a ?b)] |- _ =>
             let t := eval vm_compute in (Qinv (Qmake a b)) in
             progress change (Qinv (Qmake a b)) with t in H
         | |- context [Qinv (Qmake ?a ?b)] =>
             let t := eval vm_compute in (Qinv (Qmake a b)) in
             progress change (Qinv (Qmake a b)) with t
         end.

Lemma exact_ltb_spec (a b : Qc) :
  BoolSpec (a < b)%Qc (b <= a)%Qc (Exact.ltb a b).
Proof.
  unfold Exact.ltb, Qclt, Qcle.
  destruct (Qle_bool b a) eqn:E; cbn [negb]; constructor.
  - now apply Qle_bool_iff.
  - apply Qnot_le_lt. intros H. apply Qle_bool_iff in H. congruence.
Qed.

Lemma exact_leb_spec (a b : Qc) :
  BoolSpec (a <= b)%Qc (b < a)%Qc (Exact.leb a b).
Proof.
  unfold Exact.leb, Qclt, Qcle.
  destruct (Qle_bool a b) eqn:E; constructor.
  - now apply Qle_bool_iff.
  - apply Qnot_le_lt. intros H. apply Qle_bool_iff in H. congruence.
Qed.

(** Splits on every comparison of the goal, keeping what each branch knows. *)
Ltac exact_cases :=
  cbv [num_lt num_le Math_max Math_min exact] in *;
  unfold Exact.max, Exact.min in *;
  repeat (repeat match goal with
                 | H : context [Exact.ltb _ _] |- _ => revert H
                 | H : context [Exact.leb _ _] |- _ => revert H
                 end;
          match goal with
          | |- context [Exact.ltb ?a ?b] => destruct (exact_ltb_spec a b)
          | |- context [Exact.leb ?a ?b] => destruct (exact_leb_spec a b)
          end);
  intros.

(** *** Kalman filter *)

Lemma Q_gain_bounds (P r : Q) :
  0 < P -> 0 < r -> 0 < P * / (P + r) /\ P * / (P + r) < 1.
Proof.
  intros HP Hr.
  assert (Hi : 0 < / (P + r)) by (apply Qinv_lt_0_compat; lra).
  assert (Hone : (P + r) * / (P + r) == 1) by (apply Qmult_inv_r; lra).
  set (i := / (P + r)) in *.
  assert (0 < P * i) by (apply Qmult_lt_0_compat; lra).
  assert (0 < r * i) by (apply Qmult_lt_0_compat; lra).
  split; lra.
Qed.

Lemma Q_between (x m K : Q) :
  0 < K -> K < 1 ->
  (x <= m -> x <= x + K * (m - x) /\ x + K * (m - x) <= m)
  /\ (m <= x -> m <= x + K * (m - x) /\ x + K * (m - x) <= x).
Proof. intros H0 H1. split; intros H; split; nra. Qed.

Lemma Q_posterior (P r : Q) :
  0 < P -> 0 < r ->
  (1 - P * / (P + r)) * P < r /\ (1 - P * / (P + r)) * P < P.
Proof.
  intros HP Hr.
  destruct (Q_gain_bounds P r HP Hr) as [H0 H1].
  assert (Hone : (P + r) * / (P + r) == 1) by (apply Qmult_inv_r; lra).
  set (i := / (P + r)) in *.
  split; nra.
Qed.

Lemma exact_gain_bounds (s : KalmanState Qc) :
  well_formed s -> (0 < kalmanGain s /\ kalmanGain s < 1)%Qc.
Proof.
  unfold well_formed, kalmanGain, innovationCov, predictedErrorCov.
  destruct s as [x e q r y].
  cbn [errorCovariance processNoise measurementNoise].
  exact_to_Q. intros (He & Hq & Hr). apply Q_gain_bounds; lra.
Qed.

Lemma exact_step_between (m : Qc) (s : KalmanState Qc) :
  well_formed s ->
  (estimate s <= m ->
   estimate s <= estimate (kalmanFilter m s) /\ estimate (kalmanFilter m s) <= m)%Qc
  /\ (m <= estimate s ->
      m <= estimate (kalmanFilter m s) /\ estimate (kalmanFilter m s) <= estimate s)%Qc.
Proof.
  intros Hwf. pose proof (exact_gain_bounds s Hwf) as HK.
  rewrite kalmanFilter_locals. cbn [estimate].
  revert HK. generalize (kalmanGain s). generalize (estimate s).
  intros x K HK. exact_to_Q.
  apply Q_between; tauto.
Qed.

Lemma one_tick_unit : Forall unit_action (one_tick (N:=exact)).
Proof.
  unfold one_tick. constructor; [exact I |]. constructor; [| constructor].
  intros j. unfold Qcle, Qclt. cbn. lra.
Qed.

Lemma one_tick_runs :
  run (N:=exact) one_tick initialDashboard = Some (final one_tick).
Proof. vm_compute. reflexivity. Qed.

Lemma low_draws_unit :
  unit_draws (random (constant_env "10:00:02" (lit 1700000002000 : Qc) (lit 0.01))).
Proof. intros j. unfold Qcle, Qclt. cbn. lra. Qed.

Lemma exact_step_posterior (m : Qc) (s : KalmanState Qc) :
  well_formed s ->
  (errorCovariance (kalmanFilter m s) < measurementNoise s)%Qc
  /\ (errorCovariance (kalmanFilter m s) < predictedErrorCov s)%Qc.
Proof.
  rewrite kalmanFilter_locals.
  unfold well_formed, kalmanGain, innovationCov, predictedErrorCov.
  destruct s as [x e q r y].
  cbn [errorCovariance processNoise measurementNoise estimate].
  exact_to_Q. intros (He & Hq & Hr).
  apply Q_posterior; lra.
Qed.



(** *** CUSUM detector *)


Lemma of_nat_S (k : nat) : of_nat (S k) = (of_nat k + 1)%Qc.
Proof.
  unfold of_nat. apply Qc_is_canon. exact_to_Q.
  rewrite Nat2Z.inj_succ. unfold Z.succ. rewrite inject_Z_plus. reflexivity.
Qed.

Lemma of_nat_nonneg (k : nat) : (0 <= of_nat k)%Qc.
Proof.
  unfold of_nat. exact_to_Q.
  change 0 with (inject_Z 0). rewrite <- Zle_Qle. lia.
Qed.



(** *** Process noise *)

Lemma exact_step_processNoise_floor (m : Qc) (s : KalmanState Qc) :
  (lit 0.01 <= processNoise s)%Qc ->
  (lit 0.01 <= processNoise (kalmanFilter m s))%Qc.
Proof.
  intros H. rewrite kalmanFilter_locals. cbn [processNoise].
  destruct (num_lt (lit 3.84) (lambda m s)); exact_to_Q; lra.
Qed.

Lemma run_processNoise_floor (acts : list (Action Qc)) : forall st st',
  run acts st = Some st' ->
  (lit 0.01 <= processNoise (kalmanState st))%Qc ->
  (lit 0.01 <= processNoise (kalmanState st'))%Qc.
Proof.
  induction acts as [| a acts IH]; intros st st' Hrun H.
  - injection Hrun as <-. exact H.
  - cbn [run] in Hrun. destruct (step a st) as [st1 |] eqn:Hstep; [| discriminate].
    apply (IH st1 st' Hrun).
    destruct a; cbn [step] in Hstep.
    + destruct (isRunning st); [| discriminate]. injection Hstep as <-.
      rewrite tick_kalmanState. now apply exact_step_processNoise_floor.
    + injection Hstep as <-. exact H.
    + injection Hstep as <-. exact H.
    + injection Hstep as <-. exact H.
Qed.


(** *** The measurement generator *)

Lemma exact_generator_range (anomaly : bool) (draws : nat -> Qc) (k : nat) :
  unit_draws draws ->
  let m := fst (generateSensorReading (lit 45) (lit 5) anomaly draws k) in
  (anomaly = false -> (lit 42.5 <= m /\ m <= lit 47.5)%Qc)
  /\ (anomaly = true ->
      (lit 22.5 <= m /\ m <= lit 27.5)%Qc \/ (lit 62.5 <= m /\ m <= lit 67.5)%Qc).
Proof.
  intros Hd. cbn zeta.
  unfold generateSensorReading, bind, Math_random, ret.
  destruct (Hd k) as [Hk0 Hk1].
  destruct anomaly; cbn [fst]; (split; intros E; try discriminate).
  - destruct (num_lt (lit 0.5) (draws (S k))); [right | left];
      revert Hk0 Hk1; generalize (draws k); intros r Hk0 Hk1;
      split; exact_cases; exact_to_Q; lra.
  - revert Hk0 Hk1. generalize (draws k). intros r Hk0 Hk1.
    split; exact_cases; exact_to_Q; lra.
Qed.

(** *** The estimate in a run *)

Lemma exact_rawMoisture_range (env : Env Qc) (st : Dashboard Qc) :
  unit_draws (random env) ->
  (lit 22.5 <= rawMoisture (sample env st) /\ rawMoisture (sample env st) <= lit 67.5)%Qc.
Proof.
  intros Hd. rewrite sample_rawMoisture.
  destruct (exact_generator_range (num_lt (random env 0) (lit 0.04)) (random env) 1%nat Hd)
    as [Hno Hyes].
  cbn zeta in *.
  destruct (num_lt (random env 0) (lit 0.04)).
  - destruct (Hyes eq_refl) as [[H0 H1] | [H0 H1]]; exact_to_Q; split; lra.
  - destruct (Hno eq_refl) as [H0 H1]. exact_to_Q. split; lra.
Qed.

Lemma run_estimate_range (acts : list (Action Qc)) : forall st st',
  run acts st = Some st' ->
  Forall unit_action acts ->
  well_formed (kalmanState st) ->
  (lit 22.5 <= estimate (kalmanState st) /\ estimate (kalmanState st) <= lit 67.5)%Qc ->
  (lit 22.5 <= estimate (kalmanState st') /\ estimate (kalmanState st') <= lit 67.5)%Qc.
Proof.
  induction acts as [| a acts IH]; intros st st' Hrun Hunit Hwf H.
  - injection Hrun as <-. exact H.
  - cbn [run] in Hrun. destruct (step a st) as [st1 |] eqn:Hstep; [| discriminate].
    apply Forall_cons_iff in Hunit as [Ha Hunit].
    assert (Hwf1 : well_formed (kalmanState st1))
      by exact (run_well_formed [a] st st1 Hwf
                  ltac:(cbn [run]; rewrite Hstep; reflexivity)).
    apply (IH st1 st' Hrun Hunit Hwf1).
    destruct a; cbn [step] in Hstep.
    + destruct (isRunning st); [| discriminate]. injection Hstep as <-.
      rewrite tick_kalmanState.
      pose proof (exact_rawMoisture_range env st Ha) as Hm.
      destruct (exact_step_between (rawMoisture (sample env st)) (kalmanState st) Hwf)
        as [Hup Hdown].
      revert Hm Hup Hdown H.
      generalize (estimate (kalmanFilter (rawMoisture (sample env st)) (kalmanState st))).
      generalize (rawMoisture (sample env st)). generalize (estimate (kalmanState st)).
      intros x m x' Hm Hup Hdown H.
      destruct (Qclt_le_dec m x) as [Hlt | Hle].
      * apply Qclt_le_weak in Hlt. specialize (Hdown Hlt). exact_to_Q. split; lra.
      * specialize (Hup Hle). exact_to_Q. split; lra.
    + injection Hstep as <-. exact H.
    + injection Hstep as <-. exact H.
    + injection Hstep as <-. exact H.
Qed.



(** *** The auxiliary channels *)

Lemma Q_round_bounds (y : Q) (a b : Z) :
  inject_Z a - 0.5 <= y -> y < inject_Z b + 0.5 ->
  inject_Z a <= inject_Z (Qfloor (y + 0.5))
  /\ inject_Z (Qfloor (y + 0.5)) <= inject_Z b.
Proof.
  intros Ha Hb. split.
  - rewrite <- Zle_Qle. rewrite <- (Qfloor_Z a).
    apply Qfloor_resp_le. lra.
  - rewrite <- Zle_Qle.
    assert (H : (Qfloor (y + 0.5) < b + 1)%Z).
    { rewrite Zlt_Qlt, inject_Z_plus.
      pose proof (Qfloor_le (y + 0.5)). change (inject_Z 1) with 1. lra. }
    lia.
Qed.

Lemma exact_round_bounds (x : Qc) (a b : Z) :
  (Q2Qc (inject_Z a) - Q2Qc 0.5 <= x)%Qc ->
  (x < Q2Qc (inject_Z b) + Q2Qc 0.5)%Qc ->
  (Q2Qc (inject_Z a) <= Exact.round x /\ Exact.round x <= Q2Qc (inject_Z b))%Qc.
Proof.
  unfold Exact.round. exact_to_Q. intros Ha Hb.
  destruct (Q_round_bounds x a b) as [H1 H2]; [lra | lra |].
  split; assumption.
Qed.

Lemma exact_leb_true (a b : Qc) : (a <= b)%Qc -> Exact.leb a b = true.
Proof. intros H. apply Qle_bool_iff. exact H. Qed.

(** A value within the optimal band of a configured key classifies as
    optimal. *)
Lemma exact_in_optimal_band (v : Qc) (k : string) (range : Range Qc) :
  In (k, range) ranges ->
  (fst (optimal range) <= v)%Qc -> (v <= snd (optimal range))%Qc ->
  getParameterStatus v k = Return "optimal"%string.
Proof.
  intros Hin Hlo Hhi. rewrite (getParameterStatus_configured v k range Hin).
  change (num_le (fst (optimal range)) v) with (Exact.leb (fst (optimal range)) v).
  change (num_le v (snd (optimal range))) with (Exact.leb v (snd (optimal range))).
  now rewrite (exact_leb_true _ _ Hlo), (exact_leb_true _ _ Hhi).
Qed.

(** Bounds the rounded value [Math_round y] by the integers [a] and [b],
    then closes the two band inequalities. *)
Ltac channel_optimal range a b :=
  apply (exact_in_optimal_band _ _ range); [unfold ranges; cbn [In]; tauto | |];
  cbn [fst snd optimal];
  match goal with
  | |- context [Math_round ?y] =>
      let Hb := fresh "Hb" in
      assert (Hb : (Q2Qc (inject_Z a) <= Exact.round y
                    /\ Exact.round y <= Q2Qc (inject_Z b))%Qc)
        by (apply exact_round_bounds; exact_to_Q; unfold inject_Z; lra);
      change (Math_round y) with (Exact.round y);
      revert Hb; generalize (Exact.round y)
  end;
  intros z [Hz0 Hz1]; exact_to_Q; unfold inject_Z in *; lra.

Lemma exact_ph_optimal (r : Qc) :
  (0 <= r /\ r < 1)%Qc ->
  getParameterStatus
    (num_div (Math_round (num_mul (num_add (lit 6.8)
                (num_mul (num_sub r (lit 0.5)) (lit 0.4))) (lit 10))) (lit 10)) "ph"
  = Return "optimal"%string.
Proof.
  intros [Hr0 Hr1].
  channel_optimal {| optimal := (lit 6.5 : Qc, lit 7.0 : Qc);
                     warning := (lit 6.0 : Qc, lit 7.5 : Qc) |} 66%Z 70%Z.
Qed.

Lemma exact_ec_optimal (r : Qc) :
  (0 <= r /\ r < 1)%Qc ->
  getParameterStatus
    (num_div (Math_round (num_mul (num_add (lit 1.2)
                (num_mul (num_sub r (lit 0.5)) (lit 0.2))) (lit 10))) (lit 10)) "ec"
  = Return "optimal"%string.
Proof.
  intros [Hr0 Hr1].
  channel_optimal {| optimal := (lit 1.0 : Qc, lit 1.5 : Qc);
                     warning := (lit 0.8 : Qc, lit 1.8 : Qc) |} 11%Z 13%Z.
Qed.

Lemma exact_nitrogen_optimal (r : Qc) :
  (0 <= r /\ r < 1)%Qc ->
  getParameterStatus
    (Math_round (num_add (lit 35) (num_mul (num_sub r (lit 0.5)) (lit 8)))) "nitrogen"
  = Return "optimal"%string.
Proof.
  intros [Hr0 Hr1].
  channel_optimal {| optimal := (lit 30 : Qc, lit 40 : Qc);
                     warning := (lit 25 : Qc, lit 45 : Qc) |} 31%Z 39%Z.
Qed.

Lemma exact_phosphorus_optimal (r : Qc) :
  (0 <= r /\ r < 1)%Qc ->
  getParameterStatus
    (Math_round (num_add (lit 18) (num_mul (num_sub r (lit 0.5)) (lit 6)))) "phosphorus"
  = Return "optimal"%string.
Proof.
  intros [Hr0 Hr1].
  channel_optimal {| optimal := (lit 15 : Qc, lit 25 : Qc);
                     warning := (lit 10 : Qc, lit 30 : Qc) |} 15%Z 21%Z.
Qed.

Lemma exact_potassium_optimal (r : Qc) :
  (0 <= r /\ r < 1)%Qc ->
  getParameterStatus
    (Math_round (num_add (lit 25) (num_mul (num_sub r (lit 0.5)) (lit 6)))) "potassium"
  = Return "optimal"%string.
Proof.
  intros [Hr0 Hr1].
  channel_optimal {| optimal := (lit 20 : Qc, lit 30 : Qc);
                     warning := (lit 15 : Qc, lit 35 : Qc) |} 22%Z 28%Z.
Qed.

Lemma exact_sample_auxiliary (env : Env Qc) (st : Dashboard Qc) :
  unit_draws (random env) ->
  auxiliary_optimal (newValues (sample env st)).
Proof.
  intros Hd. unfold sample, generateSensorReading, bind, Math_random, ret.
  destruct (num_lt (random env 0) (lit 0.04));
    cbn [fst newValues]; unfold auxiliary_optimal;
    cbn [ph ec nitrogen phosphorus potassium];
    (split; [apply exact_ph_optimal; apply Hd |]);
    (split; [apply exact_ec_optimal; apply Hd |]);
    (split; [apply exact_nitrogen_optimal; apply Hd |]);
    (split; [apply exact_phosphorus_optimal; apply Hd |]);
    apply exact_potassium_optimal; apply Hd.
Qed.

Lemma run_auxiliary (acts : list (Action Qc)) : forall st st',
  run acts st = Some st' ->
  Forall unit_action acts ->
  auxiliary_optimal (currentValues st) ->
  auxiliary_optimal (currentValues st').
Proof.
  induction acts as [| a acts IH]; intros st st' Hrun Hunit H.
  - injection Hrun as <-. exact H.
  - cbn [run] in Hrun. destruct (step a st) as [st1 |] eqn:Hstep; [| discriminate].
    apply Forall_cons_iff in Hunit as [Ha Hunit].
    apply (IH st1 st' Hrun Hunit).
    destruct a; cbn [step] in Hstep.
    + destruct (isRunning st); [| discriminate]. injection Hstep as <-.
      rewrite tick_currentValues. now apply exact_sample_auxiliary.
    + injection Hstep as <-. exact H.
    + injection Hstep as <-. exact H.
    + injection Hstep as <-. exact H.
Qed.



(** *** The counters *)

Lemma raised_le_readings (acts : list (Action Qc)) : forall st,
  (length (raised acts st) <= length (readings acts st))%nat.
Proof.
  induction acts as [| a acts IH]; intros st; cbn [raised readings];
    [cbn [length]; lia |].
  destruct (step a st) as [st1 |]; [| cbn [length]; lia].
  destruct a; try apply IH.
  destruct (isAnomaly (anomalyResult (sample env st))); cbn [length];
    specialize (IH st1); lia.
Qed.

Lemma run_counters (acts : list (Action Qc)) : forall st st',
  run acts st = Some st' ->
  existsb is_reset acts = false ->
  totalReadings (systemStats st')
  = (totalReadings (systemStats st) + of_nat (length (readings acts st)))%Qc
  /\ anomaliesDetected (systemStats st')
     = (anomaliesDetected (systemStats st) + of_nat (length (raised acts st)))%Qc.
Proof.
  induction acts as [| a acts IH]; intros st st' Hrun Hno.
  - injection Hrun as <-. cbn [readings raised length].
    change (of_nat 0) with (Q2Qc 0). split; ring.
  - cbn [run] in Hrun. cbn [readings raised].
    destruct (step a st) as [st1 |] eqn:Hstep; [| discriminate].
    cbn [existsb] in Hno. apply orb_false_iff in Hno as [Ha Hno].
    destruct (IH st1 st' Hrun Hno) as [IHt IHa]. rewrite IHt, IHa.
    destruct a; cbn [step] in Hstep.
    + destruct (isRunning st); [| discriminate]. injection Hstep as <-.
      rewrite tick_systemStats. cbn [totalReadings anomaliesDetected].
      destruct (isAnomaly (anomalyResult (sample env st)));
        cbn [length]; rewrite ?of_nat_S;
        cbv [num_add lit exact]; split; ring.
    + injection Hstep as <-. split; reflexivity.
    + injection Hstep as <-. split; reflexivity.
    + discriminate Ha.
Qed.



End FurtherExactArithmetic.

(** ** Further concrete runs *)

Section FurtherConcreteRuns.
Local Open Scope js_scope.

Lemma dry_spell_runs :
  run (N:=binary64) dry_spell initialDashboard = Some (final dry_spell).
Proof. vm_compute. reflexivity. Qed.

Lemma dry_spell_reachable : reachable (final (N:=binary64) dry_spell).
Proof. exists dry_spell. exact dry_spell_runs. Qed.

Lemma one_tick_reachable : reachable (final (N:=exact) one_tick).
Proof. exists one_tick. exact one_tick_runs. Qed.

Lemma measurementNoise_fixed_dry_spell :
  measurementNoise (kalmanState (final (N:=binary64) dry_spell)) = lit 0.5
  /\ forall ms,
       measurementNoise (kalmanRun ms (kalmanState (final (N:=binary64) dry_spell)))
       = lit 0.5.
Proof.
  apply (measurementNoise_fixed (final dry_spell)). exact dry_spell_reachable.
Defined.

Lemma alert_severity_low_anomaly :
  let env := constant_env "10:00:00" (lit 1700000000000 : PrimFloat.float) (lit 0.01) in
  let st := toggleRunning (initialDashboard (N:=binary64)) in
  (type_ (anomalyResult (sample env st)) = "high"%string
   /\ type (alertMsg env st) = "warning"%string
   /\ message (alertMsg env st)
      = "High moisture detected - Check irrigation system"%string)
  \/ (type_ (anomalyResult (sample env st)) = "low"%string
      /\ type (alertMsg env st) = "critical"%string
      /\ message (alertMsg env st)
         = "Low moisture detected - Consider irrigation"%string).
Proof.
  apply (alert_severity
           (constant_env "10:00:00" (lit 1700000000000 : PrimFloat.float) (lit 0.01))
           (toggleRunning (initialDashboard (N:=binary64)))).
  vm_compute. reflexivity.
Defined.

Lemma alerts_well_formed_dry_spell :
  Forall alert_shape (alerts (final (N:=binary64) dry_spell)).
Proof.
  apply (alerts_well_formed (final dry_spell)). exact dry_spell_reachable.
Defined.

Lemma containers_bounded_dry_spell :
  length (sensorData (final (N:=binary64) dry_spell)) <= 25
  /\ length (alerts (final (N:=binary64) dry_spell)) <= 8.
Proof.
  apply (containers_bounded (final dry_spell)). exact dry_spell_reachable.
Defined.

Lemma containers_from_empty_one_tick :
  sensorData (final (N:=exact) one_tick) = readings one_tick initialDashboard
  /\ alerts (final (N:=exact) one_tick) = rev (raised one_tick initialDashboard).
Proof.
  destruct (containers_from_empty (N:=exact) one_tick initialDashboard (final one_tick))
    as [H1 H2]; [exact one_tick_runs |].
  split.
  - apply H1; try reflexivity. vm_compute. lia.
  - apply H2; try reflexivity. vm_compute. lia.
Defined.



(** The bounds that the properties in exact arithmetic give, on a run in
    binary64: they hold at each of 1120 ticks, whose draws are scattered over
    the interval from 0 to 1 or sit at its ends. *)
Lemma ticks_within_bounds_binary64 :
  ticks_within_bounds (Draws.envs 1100) (toggleRunning (initialDashboard (N:=binary64)))
  = true.
Proof. vm_compute. reflexivity. Qed.

(** In binary64 the accuracy figure is still below 100 after 1000 ticks from 0,
    and 100 after 1001. *)
Lemma dataAccuracy_full_binary64 :
  (dataAccuracy (systemStats (final (N:=binary64) (Draws.even_ticks 1000))) <? lit 100)
  = true
  /\ dataAccuracy (systemStats (final (N:=binary64) (Draws.even_ticks 1001))) = lit 100.
Proof. split; vm_compute; reflexivity. Qed.

End FurtherConcreteRuns.
